(** * RT-structure contours to voxel masks: a model of
    [mirp/importData/imageDicomFileRTSTRUCT.py]

    The class [MaskDicomFileRTSTRUCT] is embedded method by method.  Python
    exceptions are values of [result]; floating-point numbers are idealised
    as rationals ([Q]), so that [np.isclose], [np.round] and [np.around] are
    exact threshold tests; DICOM datasets are records whose optional tags are
    [option] fields.  Methods that the class calls but that live outside the
    embedded file (those of the contour class and of the image class) and
    NumPy's SVD are gathered in the interface [Collaborators];
    scikit-image's labelling is defined from its documented behaviour. *)

From Stdlib Require Import String Ascii.
From Stdlib Require Import List ZArith QArith Qround Qabs Bool Lia.
From Stdlib Require Import Sorted Lqa.
Import ListNotations.

Local Open Scope Q_scope.

(** ** Python exceptions as values *)

Inductive exn : Type :=
| TypeError
| KeyError
| IndexError
| ValueError
| OverflowError
| AttributeError
| NotImplementedError
| RecursionError.

Inductive result (A : Type) : Type :=
| Ok (a : A)
| Raise (e : exn).

Arguments Ok {A} a.
Arguments Raise {A} e.

Definition bind {A B : Type} (r : result A) (k : A -> result B) : result B :=
  match r with
  | Ok a => k a
  | Raise e => Raise e
  end.

Notation "x <- r ;; k" := (bind r (fun x => k))
  (at level 61, r at next level, right associativity).

Definition subscript {A : Type} (tag : option A) : result A :=
  match tag with
  | Some v => Ok v
  | None => Raise KeyError
  end.

Definition item0 {A : Type} (l : list A) : result A :=
  match l with
  | x :: _ => Ok x
  | [] => Raise IndexError
  end.

Fixpoint mapM {A B : Type} (f : A -> result B) (l : list A) : result (list B) :=
  match l with
  | [] => Ok []
  | x :: l' => y <- f x ;; ys <- mapM f l' ;; Ok (y :: ys)
  end.

(** ** Points and matrices *)

Definition Vec3 : Type := (Q * Q * Q)%type.
Definition Mat3 : Type := (Vec3 * Vec3 * Vec3)%type.

Definition c0 (p : Vec3) : Q := fst (fst p).
Definition c1 (p : Vec3) : Q := snd (fst p).
Definition c2 (p : Vec3) : Q := snd p.

Definition vsub (p q : Vec3) : Vec3 := (c0 p - c0 q, c1 p - c1 q, c2 p - c2 q).
Definition vdot (p q : Vec3) : Q := c0 p * c0 q + c1 p * c1 q + c2 p * c2 q.

Definition row0 (m : Mat3) : Vec3 := fst (fst m).
Definition row1 (m : Mat3) : Vec3 := snd (fst m).
Definition row2 (m : Mat3) : Vec3 := snd m.

Definition col0 (m : Mat3) : Vec3 := (c0 (row0 m), c0 (row1 m), c0 (row2 m)).
Definition col1 (m : Mat3) : Vec3 := (c1 (row0 m), c1 (row1 m), c1 (row2 m)).
Definition col2 (m : Mat3) : Vec3 := (c2 (row0 m), c2 (row1 m), c2 (row2 m)).

Definition of_cols (a b c : Vec3) : Mat3 :=
  ((c0 a, c0 b, c0 c), (c1 a, c1 b, c1 c), (c2 a, c2 b, c2 c)).

Definition transpose (m : Mat3) : Mat3 := (col0 m, col1 m, col2 m).

Definition mat_vec (m : Mat3) (v : Vec3) : Vec3 :=
  (vdot (row0 m) v, vdot (row1 m) v, vdot (row2 m) v).

Definition mat_mul (a b : Mat3) : Mat3 :=
  of_cols (mat_vec a (col0 b)) (mat_vec a (col1 b)) (mat_vec a (col2 b)).

Definition det (m : Mat3) : Q :=
  let '((a, b, c), (d, e, f), (g, h, i)) := m in
  a * (e * i - f * h) - b * (d * i - f * g) + c * (d * h - e * g).

Definition identity3 : Mat3 := ((1, 0, 0), (0, 1, 0), (0, 0, 1)).

Definition veqb (p q : Vec3) : bool :=
  Qeq_bool (c0 p) (c0 q) && Qeq_bool (c1 p) (c1 q) && Qeq_bool (c2 p) (c2 q).

Definition meqb (a b : Mat3) : bool :=
  veqb (row0 a) (row0 b) && veqb (row1 a) (row1 b) && veqb (row2 a) (row2 b).

(** ** The NumPy operations the class uses, on rationals *)

Module np.

(** [np.isclose(a, b)] with the default tolerances:
    [|a - b| <= atol + rtol * |b|]. *)
Definition rtol : Q := 1 # 100000.
Definition atol : Q := 1 # 100000000.

Definition isclose (a b : Q) : bool :=
  Qle_bool (Qabs (a - b)) (atol + rtol * Qabs b).

Definition allclose (a : list Q) (b : Q) : bool :=
  forallb (fun x => isclose x b) a.

(** [np.rint]: to the nearest integer, halves to the even neighbour. *)
Definition rint (x : Q) : Z :=
  let f := Qfloor x in
  match Qcompare (x - inject_Z f) (1 # 2) with
  | Lt => f
  | Gt => (f + 1)%Z
  | Eq => if Z.even f then f else (f + 1)%Z
  end.

Definition round (x : Q) : Q := inject_Z (rint x).

(** [np.around(x, 3)]. *)
Definition around3 (x : Q) : Q := inject_Z (rint (x * 1000)) / 1000.

(** [np.unique]: the sorted distinct values. *)
Fixpoint insert_unique (x : Q) (l : list Q) : list Q :=
  match l with
  | [] => [x]
  | y :: l' =>
      match Qcompare x y with
      | Lt => x :: l
      | Eq => l
      | Gt => y :: insert_unique x l'
      end
  end.

Definition unique (l : list Q) : list Q := fold_right insert_unique [] l.

(** [np.diff]. *)
Fixpoint diff (l : list Q) : list Q :=
  match l with
  | x :: (y :: _) as l' => (y - x) :: diff l'
  | _ => []
  end.

Definition Qmin (a b : Q) : Q := if Qle_bool a b then a else b.
Definition Qmax (a b : Q) : Q := if Qle_bool a b then b else a.

(** [np.min] and [np.max] raise [ValueError] on an empty array. *)
Definition min (l : list Q) : result Q :=
  match l with
  | [] => Raise ValueError
  | x :: l' => Ok (fold_left Qmin l' x)
  end.

Definition max (l : list Q) : result Q :=
  match l with
  | [] => Raise ValueError
  | x :: l' => Ok (fold_left Qmax l' x)
  end.

(** [np.vstack] of a list of N x 3 arrays; an empty list is a
    [ValueError]. *)
Definition vstack (arrays : list (list Vec3)) : result (list Vec3) :=
  match arrays with
  | [] => Raise ValueError
  | _ => Ok (concat arrays)
  end.

(** [np.mean(points.T, axis=1, keepdims=True)]. *)
Definition Qsum (l : list Q) : Q := fold_right Qplus 0 l.

Definition mean_axis1 (points : list Vec3) : Vec3 :=
  let n := inject_Z (Z.of_nat (length points)) in
  (Qsum (map c0 points) / n, Qsum (map c1 points) / n, Qsum (map c2 points) / n).

(** [int(np.ceil(num / den))]: a zero divisor gives an infinity or a NaN,
    which [int] refuses. *)
Definition int_ceil_div (num den : Q) : result Z :=
  if Qeq_bool den 0 then
    if Qeq_bool num 0 then Raise ValueError else Raise OverflowError
  else Ok (Qceiling (num / den)).

End np.

(** ** Data model *)

(** A rasterized slice and the boolean volume of a mask. *)
Definition Slice2D : Type := list (list bool).
Definition Volume : Type := list Slice2D.

(** An item of a Contour Image Sequence (3006,0016): the Referenced SOP
    Instance UID (0008,1155), when the item has one. *)
Record ContourImage : Type := {
  referenced_sop_instance_uid : option string
}.

(** An item of a Contour Sequence (3006,0040). *)
Record ContourItem : Type := {
  contour_geometric_type : option string;             (* (3006,0042) *)
  contour_data : option (list Q);                     (* (3006,0050) *)
  contour_offset_vector : option Vec3;                (* (3006,0045), of three values *)
  contour_image_sequence : option (list ContourImage) (* (3006,0016) *)
}.

(** An item of the ROI Contour Sequence (3006,0039). *)
Record ROIContour : Type := {
  referenced_roi_number : option Z;                   (* (3006,0084) *)
  contour_sequence : option (list ContourItem)        (* (3006,0040) *)
}.

(** An item of the Structure Set ROI Sequence (3006,0020). *)
Record StructureSetROI : Type := {
  roi_number : option Z;                              (* (3006,0022) *)
  roi_name_tag : option string                        (* (3006,0026) *)
}.

(** The Referenced Frame of Reference Sequence (3006,0010) and what hangs
    below it. *)
Record RTReferencedSeries : Type := {
  series_contour_image_sequence : option (list ContourImage) (* (3006,0016) *)
}.

Record RTReferencedStudy : Type := {
  rt_referenced_series_sequence : option (list RTReferencedSeries) (* (3006,0014) *)
}.

Record ReferencedFrameOfReference : Type := {
  rt_referenced_study_sequence : option (list RTReferencedStudy)   (* (3006,0012) *)
}.

Record Metadata : Type := {
  referenced_frame_of_reference_sequence :
    option (list ReferencedFrameOfReference);          (* (3006,0010) *)
  structure_set_roi_sequence : option (list StructureSetROI); (* (3006,0020) *)
  roi_contour_sequence : option (list ROIContour)      (* (3006,0039) *)
}.

(** The user's ROI selection, [self.roi_name]: nothing, one name, a list of
    names, or a dictionary from names to new names. *)
Inductive RoiName : Type :=
| RoiNone
| RoiStr (name : string)
| RoiList (names : list string)
| RoiDict (renaming : list (string * string)).

(** The attributes of [MaskDicomFileRTSTRUCT] that the methods read. *)
Record MaskDicomFileRTSTRUCT : Type := {
  file_path : string;
  sample_name : option string;
  modality : option string;
  series_instance_uid : option string;
  roi_name : RoiName;
  image_metadata : Metadata
}.

(** The class of the reference image, as [isinstance] sees it, with the
    [sop_instance_uid] attribute of the two DICOM classes. *)
Inductive ImageClass : Type :=
| ImageDicomFile (sop_instance_uid : option string)
| ImageDicomFileStack (sop_instance_uid : option (list string))
| ImageGenericFile.

(** The voxel grid of an image. *)
Record Grid : Type := {
  image_origin : Vec3;
  image_spacing : Vec3;
  image_dimension : Z * Z * Z;
  image_orientation : Mat3
}.

Record ImageFile : Type := {
  image_class : ImageClass;
  image_series_instance_uid : option string;
  grid : Grid
}.

(** [ContourClass]: the attribute [contour] is a list of N x 3 arrays. *)
Record ContourClass : Type := {
  contour : list (list Vec3)
}.

(** The mask object that [to_object] emits. *)
Record BaseMask : Type := {
  mask_roi_name : option string;
  mask_sample_name : option string;
  mask_image_modality : option string;
  mask_image_data : Volume;
  mask_grid : Grid
}.

(** ** Code outside the embedded file

    Methods of [ContourClass] and [ImageFile], the inherited completion of
    the file object and NumPy's SVD and determinant, taken as parameters:
    every theorem of the development holds for all of them. *)
Class Collaborators : Type := {
  (** [ContourClass.to_voxel_coordinates(image)] *)
  to_voxel_coordinates : ImageFile -> ContourClass -> ContourClass;
  (** [ImageFile.to_voxel_coordinates(x, origin, orientation, spacing)],
      on the points as rows *)
  image_to_voxel_coordinates :
    ImageFile -> list Vec3 -> Vec3 -> Mat3 -> Vec3 -> list Vec3;
  (** [ImageFile.get_slice_position()] *)
  get_slice_position : ImageFile -> list Q;
  (** [ContourClass.which_slice()] *)
  which_slice : ContourClass -> list Z;
  (** [ContourClass.merge(other_contours, slice_id)] *)
  merge : ContourClass -> option (list ContourClass) -> Z -> ContourClass;
  (** [ContourClass.contour_to_grid_ray_cast(image)]: slice positions and
      one mask per position *)
  contour_to_grid_ray_cast : ImageFile -> ContourClass -> list Q * list Slice2D;
  (** [np.linalg.svd(a).U] for a 3 x N array [a], given by its columns *)
  svd_U : list Vec3 -> Mat3;
  (** [np.linalg.det(m) == -1.0]: a determinant computed and compared in
      floating point, which need not hold of every matrix whose exact
      determinant is -1 *)
  det_is_minus_one : Mat3 -> bool;
  (** [temp_mask_object.complete()] followed by
      [temp_mask_object.update_image_data()], both inherited: from the file
      object, the image dimension assigned to the copy and its array, the
      image dimension of the copy afterwards, or an exception *)
  complete_dimension :
    MaskDicomFileRTSTRUCT -> Z * Z * Z -> Volume -> result (Z * Z * Z)
}.

Definition string_in (s : string) (l : list string) : bool :=
  existsb (String.eqb s) l.

Definition option_eqb {A : Type} (eqb : A -> A -> bool) (a b : option A) : bool :=
  match a, b with
  | Some x, Some y => eqb x y
  | None, None => true
  | _, _ => false
  end.

(** [set(reference) >= set(referenced)]. *)
Definition set_superset (reference referenced : list string) : bool :=
  forallb (fun u => string_in u reference) referenced.

(** [[x for x in l if x is not None]]. *)
Fixpoint drop_none {A : Type} (l : list (option A)) : list A :=
  match l with
  | [] => []
  | Some x :: l' => x :: drop_none l'
  | None :: l' => drop_none l'
  end.

(** ** [_collect_contours] *)

(** [np.array(data).reshape((-1, 3))]. *)
Fixpoint reshape3 (data : list Q) : result (list Vec3) :=
  match data with
  | [] => Ok []
  | x :: y :: z :: data' => ps <- reshape3 data' ;; Ok ((x, y, z) :: ps)
  | _ => Raise ValueError
  end.

(** [contour_data -= contour_offset]: NumPy takes the three values of the
    offset from every row of the N x 3 array. *)
Definition subtract_offset (data : list Vec3) (offset : Vec3) : list Vec3 :=
  map (fun p => vsub p offset) data.

(** Modelled from the spec: the constructor of [ContourClass] is not in the
    embedded file.  Section 3 has a contour hold the points of one polygon
    and has the slice coordinate come first in voxel space; the Contour Data
    of DICOM gives each point as (x, y, z), so the constructor keeps the
    polygon as the only entry of the attribute [contour], each point in the
    order (z, y, x) of the image axes. *)
Definition reverse_point (p : Vec3) : Vec3 := (c2 p, c1 p, c0 p).

Definition ContourClass_new (contour_data : list Vec3) : ContourClass :=
  {| contour := [map reverse_point contour_data] |}.

Definition closed_planar : string := "CLOSED_PLANAR".

(** One turn of the loop over the Contour Sequence: [None] for [continue]. *)
Definition collect_contour (item : ContourItem) : result (option ContourClass) :=
  match contour_geometric_type item with
  | None => Ok None
  | Some geometric_type =>
      if negb (String.eqb geometric_type closed_planar) then Ok None
      else
        match contour_data item with
        | None => Ok None
        | Some data =>
            contour_data <- reshape3 data ;;
            let contour_offset :=
              match contour_offset_vector item with
              | Some offset => offset
              | None => (0, 0, 0)
              end in
            let contour_data := subtract_offset contour_data contour_offset in
            Ok (Some (ContourClass_new contour_data))
        end
  end.

Definition _collect_contours (roi_contour_sequence : ROIContour)
  : result (option (list ContourClass)) :=
  items <- subscript (contour_sequence roi_contour_sequence) ;;
  collected <- mapM collect_contour items ;;
  let contour_objects := drop_none collected in
  match contour_objects with
  | [] => Ok None
  | _ => Ok (Some contour_objects)
  end.

(** ** [_convert_contour_using_image] *)

Definition reference_series_instance_uid (image : ImageFile) : option string :=
  match image_class image with
  | ImageDicomFile _ | ImageDicomFileStack _ => image_series_instance_uid image
  | ImageGenericFile => None
  end.

Definition series_uid_correct (self : MaskDicomFileRTSTRUCT) (image : ImageFile) : bool :=
  match reference_series_instance_uid image with
  | Some reference => option_eqb String.eqb (series_instance_uid self) (Some reference)
  | None => false
  end.

Definition reference_sop_instance_uid (image : ImageFile) : option (list string) :=
  match image_class image with
  | ImageDicomFile (Some uid) => Some [uid]
  | ImageDicomFileStack (Some uids) => Some uids
  | _ => None
  end.

(** The UIDs referenced from the contours of the ROI (first loop). *)
Definition contour_referenced_sop_uids (roi_contour_sequence : ROIContour)
  : result (list (option string)) :=
  items <- subscript (contour_sequence roi_contour_sequence) ;;
  Ok (flat_map
        (fun item =>
           match contour_image_sequence item with
           | Some images => map referenced_sop_instance_uid images
           | None => []
           end)
        items).

(** The UIDs referenced from the Referenced Frame of Reference Sequence
    (second loop); only the two outer tags are tested before they are read. *)
Definition frame_referenced_sop_uids (metadata : Metadata)
  : result (list (option string)) :=
  match referenced_frame_of_reference_sequence metadata with
  | None => Ok []
  | Some frames =>
      frame <- item0 frames ;;
      match rt_referenced_study_sequence frame with
      | None => Ok []
      | Some studies =>
          study <- item0 studies ;;
          series <- subscript (rt_referenced_series_sequence study) ;;
          uids <- mapM
                    (fun s =>
                       images <- subscript (series_contour_image_sequence s) ;;
                       Ok (map referenced_sop_instance_uid images))
                    series ;;
          Ok (concat uids)
      end
  end.

(** The list [referenced_sop_uids] after its [None] entries are removed. *)
Definition referenced_sop_uids (self : MaskDicomFileRTSTRUCT)
    (roi_contour_sequence : ROIContour) : result (list string) :=
  from_contours <- contour_referenced_sop_uids roi_contour_sequence ;;
  from_frame <- frame_referenced_sop_uids (image_metadata self) ;;
  Ok (drop_none (from_contours ++ from_frame)).

Definition sop_uid_correct (self : MaskDicomFileRTSTRUCT)
    (roi_contour_sequence : ROIContour) (image : ImageFile) : result bool :=
  match reference_sop_instance_uid image with
  | None => Ok false
  | Some reference =>
      referenced <- referenced_sop_uids self roi_contour_sequence ;;
      if (1 <? length referenced)%nat
      then Ok (set_superset reference referenced)
      else Ok false
  end.

(** The body of the double loop over contours and sub-contours: the state is
    [(orientation_correct, position_correct)]. *)
Definition check_sub_contour (state : bool * bool) (sub_contour : list Vec3)
  : result (bool * bool) :=
  first_point <- item0 sub_contour ;;
  let slice_position := c0 first_point in
  let orientation_correct :=
    if negb (np.allclose (map c0 sub_contour) slice_position)
    then false else fst state in
  let position_correct :=
    if negb (np.isclose (np.round slice_position) slice_position)
    then false else snd state in
  Ok (orientation_correct, position_correct).

Fixpoint check_sub_contours (state : bool * bool) (subs : list (list Vec3))
  : result (bool * bool) :=
  match subs with
  | [] => Ok state
  | sub_contour :: subs' =>
      state' <- check_sub_contour state sub_contour ;;
      check_sub_contours state' subs'
  end.

(** [[sub_contour for contour in contour_objects
      for sub_contour in contour.contour]]. *)
Definition sub_contours (contour_objects : list ContourClass) : list (list Vec3) :=
  flat_map contour contour_objects.

(** [[sub_contour[0, 0] for contour in contour_objects
      for sub_contour in contour.contour]]. *)
Definition slice_positions (contour_objects : list ContourClass) : result (list Q) :=
  mapM (fun sub_contour => p <- item0 sub_contour ;; Ok (c0 p))
       (sub_contours contour_objects).

(** An item of the Contour Sequence that the collection loop does not skip:
    its geometric type is "CLOSED_PLANAR" and it has contour data. *)
Definition usable_contour (item : ContourItem) : bool :=
  match contour_geometric_type item, contour_data item with
  | Some geometric_type, Some _ => String.eqb geometric_type closed_planar
  | _, _ => false
  end.

Section Methods.

Context {collaborators : Collaborators}.

Definition _convert_contour_using_image (self : MaskDicomFileRTSTRUCT)
    (roi_contour_sequence : ROIContour) (image : option ImageFile)
  : result (bool * bool * bool) :=
  match image with
  | None => Ok (false, false, false)
  | Some image =>
      let series_uid_correct := series_uid_correct self image in
      sop_uid_correct <- sop_uid_correct self roi_contour_sequence image ;;
      contour_objects <- _collect_contours roi_contour_sequence ;;
      match contour_objects with
      | None => Ok (true, true, true)
      | Some contour_objects =>
          let contour_objects := map (to_voxel_coordinates image) contour_objects in
          checks <- check_sub_contours (true, true) (sub_contours contour_objects) ;;
          let '(orientation_correct, position_correct) := checks in
          if negb orientation_correct
          then Ok (false, orientation_correct, position_correct)
          else if negb position_correct
          then Ok (false, orientation_correct, position_correct)
          else
            slice_position <- slice_positions contour_objects ;;
            let slice_position := np.unique slice_position in
            if (length slice_position =? 1)%nat then Ok (true, true, true)
            else
              gap <- np.min (np.diff slice_position) ;;
              if negb (np.isclose gap 1) && negb sop_uid_correct
                 && negb series_uid_correct
              then Ok (false, true, false)
              else Ok (true, true, true)
      end
  end.

(** *** [_create_image_from_contour] *)

(** [svd.U[:, (2, 1, 0)]] *)
Definition reverse_columns (u : Mat3) : Mat3 := of_cols (col2 u) (col1 u) (col0 u).

Definition column_sum (v : Vec3) : Q := c0 v + c1 v + c2 v.

Definition Qlt_bool (a b : Q) : bool := negb (Qle_bool b a).

(** [if np.sum(m[:, ii]) < 0.0: m[:, ii] *= -1.0] *)
Definition flip_if_negative (v : Vec3) : Vec3 :=
  if Qlt_bool (column_sum v) 0
  then (c0 v * (-1), c1 v * (-1), c2 v * (-1))
  else v.

(** The block under the comment "Check right-handedness". *)
Definition check_right_handedness (mask_orientation : Mat3) : Mat3 :=
  if det_is_minus_one mask_orientation
  then of_cols (flip_if_negative (col0 mask_orientation))
               (flip_if_negative (col1 mask_orientation))
               (flip_if_negative (col2 mask_orientation))
  else mask_orientation.

(** [points.T - np.mean(points.T, axis=1, keepdims=True)], by columns. *)
Definition centred (points : list Vec3) : list Vec3 :=
  map (fun p => vsub p (np.mean_axis1 points)) points.

(** The contour points normalised into the frame of [mask_orientation]. *)
Definition normalised_contours (image : ImageFile) (mask_orientation : Mat3)
    (contour_objects : list ContourClass) : list (list Vec3) :=
  map (fun sub_contour =>
         image_to_voxel_coordinates image sub_contour (0, 0, 0) mask_orientation (1, 1, 1))
      (sub_contours contour_objects).

Definition _create_image_from_contour (self : MaskDicomFileRTSTRUCT)
    (roi_contour_sequence : ROIContour) (image : ImageFile)
    (use_orientation use_position : bool) : result ImageFile :=
  contour_objects <- _collect_contours roi_contour_sequence ;;
  let use_orientation := false in
  mask_orientation <-
    (if negb use_orientation then
       contour_objects <- match contour_objects with
                          | Some l => Ok l
                          | None => Raise TypeError
                          end ;;
       first_contour <- item0 contour_objects ;;
       points <- np.vstack (contour first_contour) ;;
       let u := svd_U (centred points) in
       let mask_orientation := reverse_columns u in
       Ok (check_right_handedness mask_orientation)
     else Ok (image_orientation (grid image))) ;;
  new_grid <-
    (if negb use_position then
       contour_objects <- match contour_objects with
                          | Some l => Ok l
                          | None => Raise TypeError
                          end ;;
       let contours := normalised_contours image mask_orientation contour_objects in
       stacked <- np.vstack contours ;;
       let z := np.unique (map c0 stacked) in
       let y := np.unique (map c1 stacked) in
       let x := np.unique (map c2 stacked) in
       mask_z_spacing <- np.min (np.diff z) ;;
       let mask_y_spacing := c1 (image_spacing (grid image)) in
       let mask_x_spacing := c2 (image_spacing (grid image)) in
       min_z <- np.min z ;;
       min_y <- np.min y ;;
       min_x <- np.min x ;;
       let mask_z_origin := min_z in
       let mask_y_origin := min_y - mask_y_spacing in
       let mask_x_origin := min_x - mask_x_spacing in
       max_z <- np.max z ;;
       mask_z_dimension <- np.int_ceil_div (max_z - mask_z_origin) mask_z_spacing ;;
       max_y <- np.max y ;;
       ceil_y <- np.int_ceil_div (max_y - mask_y_origin) mask_y_spacing ;;
       let mask_y_dimension := (ceil_y + 1)%Z in
       max_x <- np.max x ;;
       ceil_x <- np.int_ceil_div (max_x - mask_x_origin) mask_x_spacing ;;
       let mask_x_dimension := (ceil_x + 1)%Z in
       Ok {| image_spacing := (mask_z_spacing, mask_y_spacing, mask_x_spacing);
             image_origin := (mask_z_origin, mask_y_origin, mask_x_origin);
             image_dimension := (mask_z_dimension, mask_y_dimension, mask_x_dimension);
             image_orientation := mask_orientation |}
     else
       Ok {| image_spacing := image_spacing (grid image);
             image_origin := image_origin (grid image);
             image_dimension := image_dimension (grid image);
             image_orientation := mask_orientation |}) ;;
  Ok {| image_class := image_class image;
        image_series_instance_uid := image_series_instance_uid image;
        grid := new_grid |}.

(** *** [_merge_contours] *)

Fixpoint insert_unique_Z (x : Z) (l : list Z) : list Z :=
  match l with
  | [] => [x]
  | y :: l' =>
      match (x ?= y)%Z with
      | Lt => x :: l
      | Eq => l
      | Gt => y :: insert_unique_Z x l'
      end
  end.

Definition unique_Z (l : list Z) : list Z := fold_right insert_unique_Z [] l.

Definition Z_in (x : Z) (l : list Z) : bool := existsb (Z.eqb x) l.

Definition _merge_contours (contour_objects : list ContourClass)
  : result (list ContourClass) :=
  let slice_ids := map which_slice contour_objects in
  unique_slice_ids <-
    match slice_ids with
    | [] => Raise ValueError
    | _ => Ok (unique_Z (concat slice_ids))
    end ;;
  mapM (fun slice_id =>
          match filter (fun c => Z_in slice_id (which_slice c)) contour_objects with
          | [] => Raise AttributeError
          | [parent_contour] => Ok (merge parent_contour None slice_id)
          | parent_contour :: merging_contours =>
              Ok (merge parent_contour (Some merging_contours) slice_id)
          end)
       unique_slice_ids.

(** *** [_match_slice_position] *)

(** [np.argwhere] on a one-dimensional array. *)
Fixpoint argwhere_from {A : Type} (p : A -> bool) (i : Z) (l : list A) : list Z :=
  match l with
  | [] => []
  | x :: l' =>
      if p x then i :: argwhere_from p (i + 1)%Z l'
      else argwhere_from p (i + 1)%Z l'
  end.

Definition argwhere {A : Type} (p : A -> bool) (l : list A) : list Z :=
  argwhere_from p 0%Z l.

Definition is_zero (d : Q) : bool := Qeq_bool d 0.

(** [int(a)] of the array that [np.argwhere] returns: only an array of one
    element converts, any other raises [TypeError]. *)
Definition int_of_array (a : list Z) : result Z :=
  match a with
  | [i] => Ok i
  | _ => Raise TypeError
  end.

Definition _match_slice_position (slice_position : Q) (known_position : list Q)
    (image_spacing_z : Q) : result (option Z) :=
  let img_slice_position := slice_position * image_spacing_z in
  let position_difference :=
    map (fun known => np.around3 (Qabs (img_slice_position - known))) known_position in
  if existsb is_zero position_difference then
    int_slice_position <- int_of_array (argwhere is_zero position_difference) ;;
    Ok (Some int_slice_position)
  else Ok None.

(** *** [convert_contour_to_mask] *)

(** [np.zeros(image.image_dimension, dtype=bool)] *)
Definition zeros (dimension : Z * Z * Z) : result Volume :=
  let '(dz, dy, dx) := dimension in
  if ((dz <? 0) || (dy <? 0) || (dx <? 0))%Z then Raise ValueError
  else Ok (repeat (repeat (repeat false (Z.to_nat dx)) (Z.to_nat dy)) (Z.to_nat dz)).

(** [[mask_list[ii] for ii, s in enumerate(slice_list) if keep(s)]]:
    [mask_list] is read only where the test holds. *)
Fixpoint masks_where {A B : Type} (keep : A -> bool) (slice_list : list A)
    (mask_list : list B) : result (list B) :=
  match slice_list with
  | [] => Ok []
  | s :: slice_list' =>
      if keep s then
        match mask_list with
        | [] => Raise IndexError
        | m :: mask_list' =>
            rest <- masks_where keep slice_list' mask_list' ;; Ok (m :: rest)
        end
      else masks_where keep slice_list' (tl mask_list)
  end.

(** [[mask_list[ii] for ii, _ in enumerate(mask_list) if keep(slice_list[ii])]]:
    [slice_list] is read at every index of [mask_list]. *)
Fixpoint masks_by_slice {A B : Type} (keep : A -> bool) (mask_list : list B)
    (slice_list : list A) : result (list B) :=
  match mask_list with
  | [] => Ok []
  | m :: mask_list' =>
      match slice_list with
      | [] => Raise IndexError
      | s :: slice_list' =>
          rest <- masks_by_slice keep mask_list' slice_list' ;;
          Ok (if keep s then m :: rest else rest)
      end
  end.

Definition is_some {A : Type} (o : option A) : bool :=
  match o with Some _ => true | None => false end.

(** [np.logical_or] of two slices; arrays of different shapes are not
    broadcast here (the rasterizer returns grids of the in-plane size). *)
Fixpoint logical_or_row (a b : list bool) : result (list bool) :=
  match a, b with
  | [], [] => Ok []
  | x :: a', y :: b' => r <- logical_or_row a' b' ;; Ok ((x || y) :: r)
  | _, _ => Raise ValueError
  end.

Fixpoint logical_or (a b : Slice2D) : result Slice2D :=
  match a, b with
  | [], [] => Ok []
  | x :: a', y :: b' =>
      r <- logical_or_row x y ;; rs <- logical_or a' b' ;; Ok (r :: rs)
  | _, _ => Raise ValueError
  end.

(** [roi_mask[slice_id, :, :] = np.logical_or(roi_mask[slice_id, :, :], mask)]
    for [0 <= slice_id]. *)
Fixpoint or_into (roi_mask : Volume) (slice_id : nat) (mask : Slice2D) : result Volume :=
  match roi_mask, slice_id with
  | [], _ => Raise IndexError
  | s :: roi_mask', O => s' <- logical_or s mask ;; Ok (s' :: roi_mask')
  | s :: roi_mask', S n => rest <- or_into roi_mask' n mask ;; Ok (s :: rest)
  end.

(** The loop "Iterate over the elements in the slice list to set the mask". *)
Fixpoint set_mask (roi_mask : Volume) (slice_list : list Z) (mask_list : list Slice2D)
  : result Volume :=
  match slice_list with
  | [] => Ok roi_mask
  | slice_id :: slice_list' =>
      match mask_list with
      | [] => Raise IndexError
      | mask :: mask_list' =>
          roi_mask' <- or_into roi_mask (Z.to_nat slice_id) mask ;;
          set_mask roi_mask' slice_list' mask_list'
      end
  end.

(** **** [skimage.measure.label], by its documented behaviour

    Two foreground voxels are neighbours under [connectivity] when they
    differ by at most one step along every axis and by at most
    [connectivity] steps in total; labels 1, 2, ... are given to the
    connected components in the raster order of their first voxel. *)
Definition Voxel : Type := (nat * nat * nat)%type.

Definition voxel_eqb (a b : Voxel) : bool :=
  let '(az, ay, ax) := a in
  let '(bz, b_y, bx) := b in
  (az =? bz)%nat && (ay =? b_y)%nat && (ax =? bx)%nat.

Definition voxel_in (v : Voxel) (l : list Voxel) : bool := existsb (voxel_eqb v) l.

Definition step (a b : nat) : nat := (a - b) + (b - a).

Definition neighbour (connectivity : nat) (a b : Voxel) : bool :=
  let '(az, ay, ax) := a in
  let '(bz, b_y, bx) := b in
  (step az bz <=? 1)%nat && (step ay b_y <=? 1)%nat && (step ax bx <=? 1)%nat
  && (1 <=? step az bz + step ay b_y + step ax bx)%nat
  && (step az bz + step ay b_y + step ax bx <=? connectivity)%nat.

Fixpoint enumerate_from {A : Type} (i : nat) (l : list A) : list (nat * A) :=
  match l with
  | [] => []
  | x :: l' => (i, x) :: enumerate_from (S i) l'
  end.

Definition enumerate {A : Type} (l : list A) : list (nat * A) := enumerate_from 0 l.

(** The true voxels of a volume in raster order. *)
Definition foreground (volume : Volume) : list Voxel :=
  flat_map
    (fun '(z, slice) =>
       flat_map
         (fun '(y, row) =>
            flat_map (fun '(x, b) => if b : bool then [(z, y, x)] else [])
                     (enumerate row))
         (enumerate slice))
    (enumerate volume).

Definition grow (connectivity : nat) (fg region : list Voxel) : list Voxel :=
  filter (fun v => voxel_in v region || existsb (neighbour connectivity v) region) fg.

Fixpoint grow_n (n connectivity : nat) (fg region : list Voxel) : list Voxel :=
  match n with
  | O => region
  | S n' => grow_n n' connectivity fg (grow connectivity fg region)
  end.

Definition component (connectivity : nat) (fg : list Voxel) (seed : Voxel) : list Voxel :=
  grow_n (length fg) connectivity fg [seed].

Fixpoint components (fuel connectivity : nat) (fg remaining : list Voxel)
  : list (list Voxel) :=
  match fuel, remaining with
  | S fuel', seed :: _ =>
      let region := component connectivity fg seed in
      region :: components fuel' connectivity fg
                  (filter (fun v => negb (voxel_in v region)) remaining)
  | _, _ => []
  end.

(** The regions of [label(volume, connectivity)], the one of label [k + 1]
    at index [k]. *)
Definition label (volume : Volume) (connectivity : nat) : list (list Voxel) :=
  let fg := foreground volume in
  components (length fg) connectivity fg fg.

(** [roi_label_mask == k + 1], where the regions are [regions]. *)
Definition label_equals (volume : Volume) (regions : list (list Voxel)) (k : nat) : Volume :=
  let region := nth k regions [] in
  map (fun '(z, slice) =>
         map (fun '(y, row) =>
                map (fun '(x, _) => voxel_in (z, y, x) region) (enumerate row))
             (enumerate slice))
      (enumerate volume).

(** [np.argmax]: the first index of the largest entry. *)
Fixpoint argmax_from (best_index best : nat) (i : nat) (l : list nat) : nat :=
  match l with
  | [] => best_index
  | x :: l' =>
      if (best <? x)%nat then argmax_from i x (S i) l'
      else argmax_from best_index best (S i) l'
  end.

Definition argmax (l : list nat) : result nat :=
  match l with
  | [] => Raise ValueError
  | x :: l' => Ok (argmax_from 0 x 1 l')
  end.

(** [np.sum] of a boolean volume: the number of its true voxels. *)
Definition sum (volume : Volume) : nat := length (foreground volume).

(** The block under [if disconnected_segments == "keep_largest"]. *)
Definition keep_largest (roi_mask : Volume) : result Volume :=
  let roi_label_mask := label roi_mask 2 in
  let n_regions := length roi_label_mask in
  let roi_sizes :=
    map (fun ii => sum (label_equals roi_mask roi_label_mask ii)) (seq 0 n_regions) in
  largest <- argmax roi_sizes ;;
  Ok (label_equals roi_mask roi_label_mask largest).

(** The rasterization loop: a draw method other than "ray_cast" raises at
    the first contour. *)
Fixpoint draw (draw_method : string) (image : ImageFile)
    (contour_objects : list ContourClass) : result (list Q * list Slice2D) :=
  match contour_objects with
  | [] => Ok ([], [])
  | contour :: contour_objects' =>
      if String.eqb draw_method "ray_cast" then
        let '(contour_slice_list, contour_mask_list) :=
          contour_to_grid_ray_cast image contour in
        rest <- draw draw_method image contour_objects' ;;
        Ok (contour_slice_list ++ fst rest, contour_mask_list ++ snd rest)
      else Raise NotImplementedError
  end.

Definition is_empty {A : Type} (l : list A) : bool :=
  match l with [] => true | _ => false end.

(** The part of [convert_contour_to_mask] from "Match slices in image" to
    the last test of [len(slice_list) == 0]: [None] where the method returns
    [None]. *)
Definition match_slices (image : ImageFile) (slice_list : list Q)
    (mask_list : list Slice2D) : result (option (list Z * list Slice2D)) :=
  let known_slice_positions := get_slice_position image in
  slice_list <-
    mapM (fun slice_position =>
            _match_slice_position slice_position known_slice_positions
              (c0 (image_spacing (grid image))))
         slice_list ;;
  mask_list <- masks_where is_some slice_list mask_list ;;
  let slice_list := drop_none slice_list in
  if is_empty slice_list then Ok None
  else
    mask_list <- masks_by_slice (fun s => (0 <=? s)%Z) mask_list slice_list ;;
    let slice_list := filter (fun s => (0 <=? s)%Z) slice_list in
    if is_empty slice_list then Ok None
    else
      let dimension_z := fst (fst (image_dimension (grid image))) in
      mask_list <-
        masks_by_slice (fun s => (Z.abs s <? dimension_z)%Z) mask_list slice_list ;;
      let slice_list := filter (fun s => (s <? dimension_z)%Z) slice_list in
      if is_empty slice_list then Ok None
      else Ok (Some (slice_list, mask_list)).

Definition convert_contour_to_mask (self : MaskDicomFileRTSTRUCT)
    (roi_contour_sequence : ROIContour) (image : option ImageFile)
    (draw_method disconnected_segments : string) : result (option Volume) :=
  match image with
  | None => Ok None
  | Some image =>
      contour_objects <- _collect_contours roi_contour_sequence ;;
      match contour_objects with
      | None => Ok None
      | Some contour_objects =>
          roi_mask <- zeros (image_dimension (grid image)) ;;
          let contour_objects := map (to_voxel_coordinates image) contour_objects in
          contour_objects <- _merge_contours contour_objects ;;
          drawn <- draw draw_method image contour_objects ;;
          let '(slice_list, mask_list) := drawn in
          if is_empty slice_list then Ok None
          else
            matched <- match_slices image slice_list mask_list ;;
            match matched with
            | None => Ok None
            | Some (slice_list, mask_list) =>
                roi_mask <- set_mask roi_mask slice_list mask_list ;;
                if String.eqb disconnected_segments "keep_largest" then
                  roi_mask <- keep_largest roi_mask ;;
                  Ok (Some roi_mask)
                else Ok (Some roi_mask)
            end
      end
  end.

(** *** [check_mask] and [to_object] *)

Definition is_none {A : Type} (o : option A) : bool :=
  match o with Some _ => false | None => true end.

(** [check_mask()] with [raise_error=True]; the warnings are not modelled. *)
Definition check_mask (self : MaskDicomFileRTSTRUCT) : bool :=
  match structure_set_roi_sequence (image_metadata self) with
  | None => false
  | Some rois =>
      let roi_name_present := map roi_name_tag rois in
      if is_empty roi_name_present then false
      else if existsb is_none roi_name_present then false
      else true
  end.

(** [np.any(image_data)] *)
Definition any (volume : Volume) : bool :=
  existsb (existsb (existsb (fun b : bool => b))) volume.

Definition provided_roi_names (self : MaskDicomFileRTSTRUCT) : option (list string) :=
  match roi_name self with
  | RoiNone => None
  | RoiStr name => Some [name]
  | RoiList names => Some names
  | RoiDict renaming => Some (map fst renaming)
  end.

(** [x in provided_roi_names] for a name read from the structure set. *)
Definition name_in (x : option string) (names : list string) : bool :=
  match x with
  | Some name => string_in name names
  | None => false
  end.

Definition number_in (x : option Z) (numbers : list (option Z)) : bool :=
  existsb (option_eqb Z.eqb x) numbers.

(** [dict.get] *)
Fixpoint dict_get (renaming : list (string * string)) (key : string) : option string :=
  match renaming with
  | [] => None
  | (k, v) :: renaming' => if String.eqb k key then Some v else dict_get renaming' key
  end.

(** The body of the loop over the ROI Contour Sequence: [None] where the
    source says [continue].  The class overrides [_complete_image_origin],
    [_complete_image_orientation], [_complete_image_spacing] and
    [_complete_image_dimensions] with empty bodies (lines 34 to 44), so
    origin, orientation and spacing of [temp_mask_object] stay as they are
    assigned at lines 202 to 205; what the inherited [complete()] and
    [update_image_data()] make of an array and an image dimension that
    need not agree is the parameter [complete_dimension]. *)
Definition roi_to_mask (self : MaskDicomFileRTSTRUCT) (image : ImageFile)
    (disconnected_segments : string)
    (roi_name_present : list (option string)) (roi_number_present : list (option Z))
    (roi_contour_sequence : ROIContour) : result (option BaseMask) :=
  let current_roi_number := referenced_roi_number roi_contour_sequence in
  if negb (number_in current_roi_number roi_number_present) then Ok None
  else
    strategy <- _convert_contour_using_image self roi_contour_sequence (Some image) ;;
    let '(use_reference_image, use_orientation, use_position) := strategy in
    image_data <-
      (if negb use_reference_image then
         temporary_image <-
           _create_image_from_contour self roi_contour_sequence image
             use_orientation use_position ;;
         convert_contour_to_mask self roi_contour_sequence (Some temporary_image)
           "ray_cast" disconnected_segments
       else
         convert_contour_to_mask self roi_contour_sequence (Some image)
           "ray_cast" disconnected_segments) ;;
    match image_data with
    | None => Ok None
    | Some image_data =>
        if negb (any image_data) then Ok None
        else
          (* temp_mask_object: the copy takes its grid from [image] *)
          let temp_image_origin := image_origin (grid image) in
          let temp_image_spacing := image_spacing (grid image) in
          let temp_image_dimension := image_dimension (grid image) in
          let temp_image_orientation := image_orientation (grid image) in
          temp_image_dimension <-
            complete_dimension self temp_image_dimension image_data ;;
          current_roi_name <-
            item0 (map fst
                     (filter (fun '(_, number) => option_eqb Z.eqb number current_roi_number)
                             (combine roi_name_present roi_number_present))) ;;
          let current_roi_name :=
            match roi_name self with
            | RoiDict renaming =>
                match current_roi_name with
                | Some name => dict_get renaming name
                | None => None
                end
            | _ => current_roi_name
            end in
          Ok (Some {| mask_roi_name := current_roi_name;
                      mask_sample_name := sample_name self;
                      mask_image_modality := modality self;
                      mask_image_data := image_data;
                      mask_grid := {| image_origin := temp_image_origin;
                                      image_spacing := temp_image_spacing;
                                      image_dimension := temp_image_dimension;
                                      image_orientation := temp_image_orientation |} |})
    end.

(** [self.image_metadata] is the metadata after [load_metadata()];
    [image.complete()] has filled the grid of [image]. *)
Definition to_object (self : MaskDicomFileRTSTRUCT) (image : option ImageFile)
    (disconnected_segments : string) : result (option (list BaseMask)) :=
  match image with
  | None => Raise TypeError
  | Some image =>
      if negb (check_mask self) then Ok None
      else
        rois <- subscript (structure_set_roi_sequence (image_metadata self)) ;;
        let roi_name_present := map roi_name_tag rois in
        let roi_number_present := map roi_number rois in
        let '(roi_number_present, roi_name_present) :=
          match provided_roi_names self with
          | Some names =>
              (map snd (filter (fun '(name, _) => name_in name names)
                               (combine roi_name_present roi_number_present)),
               filter (fun name => name_in name names) roi_name_present)
          | None => (roi_number_present, roi_name_present)
          end in
        if is_empty roi_number_present then Ok None
        else
          roi_contours <- subscript (roi_contour_sequence (image_metadata self)) ;;
          masks <- mapM (roi_to_mask self image disconnected_segments
                           roi_name_present roi_number_present)
                        roi_contours ;;
          let mask_list := drop_none masks in
          if is_empty mask_list then Ok None else Ok (Some mask_list)
  end.

(** Names for two intermediate values of [_create_image_from_contour]: the
    orientation it synthesizes and the points it normalises. *)
Definition synthesized_orientation (contour_objects : list ContourClass) : result Mat3 :=
  first_contour <- item0 contour_objects ;;
  points <- np.vstack (contour first_contour) ;;
  Ok (check_right_handedness (reverse_columns (svd_U (centred points)))).

Definition normalised_points (image : ImageFile) (mask_orientation : Mat3)
    (contour_objects : list ContourClass) : result (list Vec3) :=
  np.vstack (normalised_contours image mask_orientation contour_objects).

End Methods.

(** ** Slice matching, as the specification describes it

    The test that [_match_slice_position] applies to a known position, the
    indices that pass it, and the slices that survive matching and the range
    checks, each paired with its mask. *)
Definition position_matches (slice_position image_spacing_z known : Q) : bool :=
  is_zero (np.around3 (Qabs (slice_position * image_spacing_z - known))).

Definition matching_indices (slice_position : Q) (known_position : list Q)
    (image_spacing_z : Q) : list Z :=
  argwhere (position_matches slice_position image_spacing_z) known_position.

Definition matched_index (slice_position : Q) (known_position : list Q)
    (image_spacing_z : Q) : option Z :=
  match matching_indices slice_position known_position image_spacing_z with
  | [i] => Some i
  | _ => None
  end.

Definition pair_matched {A B C : Type} (g : A -> option B) (l : list (A * C))
  : list (B * C) :=
  flat_map (fun '(s, m) => match g s with
                           | Some i => [(i, m)]
                           | None => []
                           end) l.

Definition in_range (dimension_z : Z) (p : Z * Slice2D) : bool :=
  ((0 <=? fst p) && (fst p <? dimension_z))%Z.

Section Retained.

Context {collaborators : Collaborators}.

(** The slices that the specification keeps: matched to an index, and the
    index within the out-of-plane dimension of the grid. *)
Definition retained_slices (image : ImageFile) (slice_list : list Q)
    (mask_list : list Slice2D) : list (Z * Slice2D) :=
  filter (in_range (fst (fst (image_dimension (grid image)))))
    (pair_matched
       (fun slice_position =>
          matched_index slice_position (get_slice_position image)
            (c0 (image_spacing (grid image))))
       (combine slice_list mask_list)).

End Retained.

(** ** Connected components, as the specification describes them

    The value of a volume at a voxel, and the voxels that a chain of
    neighbouring true voxels connects to a seed. *)
Definition voxel_at (volume : Volume) (v : Voxel) : bool :=
  let '(z, y, x) := v in nth x (nth y (nth z volume []) []) false.

Inductive connected (connectivity : nat) (fg : list Voxel) (seed : Voxel)
  : Voxel -> Prop :=
| connected_seed :
    In seed fg -> connected connectivity fg seed seed
| connected_step (v w : Voxel) :
    connected connectivity fg seed v ->
    In w fg ->
    neighbour connectivity v w = true ->
    connected connectivity fg seed w.

(** A region is closed when growing it adds nothing; [covered] counts the
    true voxels that it holds. *)
Definition closedb (connectivity : nat) (fg region : list Voxel) : bool :=
  forallb (fun v => voxel_in v region) (grow connectivity fg region).

Definition covered (fg region : list Voxel) : nat :=
  length (filter (fun v => voxel_in v region) fg).

(** The shape of a volume: the lengths of its rows. *)
Definition shape (volume : Volume) : list (list nat) :=
  map (map (@length bool)) volume.

(** ** The contract of NumPy's SVD

    [u] is a matrix of left singular vectors of the 3 x N array with columns
    [a] when [u] is orthogonal and [u^T (a a^T) u] is diagonal with entries
    (the squared singular values) in descending order. *)
Definition gram (a : list Vec3) : Mat3 :=
  let s f g := np.Qsum (map (fun p : Vec3 => f p * g p) a) in
  ((s c0 c0, s c0 c1, s c0 c2),
   (s c1 c0, s c1 c1, s c1 c2),
   (s c2 c0, s c2 c1, s c2 c2)).

Definition descending_diagonal (d : Mat3) : bool :=
  let '((d00, d01, d02), (d10, d11, d12), (d20, d21, d22)) := d in
  Qeq_bool d01 0 && Qeq_bool d02 0 && Qeq_bool d10 0
  && Qeq_bool d12 0 && Qeq_bool d20 0 && Qeq_bool d21 0
  && Qle_bool d11 d00 && Qle_bool d22 d11.

Definition is_left_singular_basis (a : list Vec3) (u : Mat3) : bool :=
  meqb (mat_mul (transpose u) u) identity3
  && descending_diagonal (mat_mul (transpose u) (mat_mul (gram a) u)).

(** Negating some columns of a matrix: what "axis signs flipped" allows. *)
Definition negate_if (b : bool) (v : Vec3) : Vec3 :=
  if b then (- c0 v, - c1 v, - c2 v) else v.

Definition flip_columns (s : bool * bool * bool) (m : Mat3) : Mat3 :=
  let '(s0, s1, s2) := s in
  of_cols (negate_if s0 (col0 m)) (negate_if s1 (col1 m)) (negate_if s2 (col2 m)).

(** ** The orientation that the specification describes

    The statement of the specification, in its own words: the orientation is
    the matrix of left singular vectors, in reversed column order and with
    some axis signs flipped, of the mean-centred stack of ALL contour points
    of the ROI, and its determinant is 1.  Undoing the flips and the
    reversal must then give a matrix of left singular vectors. *)
Definition all_signs : list (bool * bool * bool) :=
  [(false, false, false); (false, false, true); (false, true, false);
   (false, true, true); (true, false, false); (true, false, true);
   (true, true, false); (true, true, true)].

Definition roi_points (contour_objects : list ContourClass) : list Vec3 :=
  concat (flat_map contour contour_objects).

Definition orientation_of_point_cloud (points : list Vec3) (orientation : Mat3) : bool :=
  existsb (fun s => is_left_singular_basis (centred points)
                      (reverse_columns (flip_columns s orientation)))
          all_signs.

Definition orientation_as_specified (contour_objects : list ContourClass)
    (orientation : Mat3) : bool :=
  orientation_of_point_cloud (roi_points contour_objects) orientation
  && Qeq_bool (det orientation) 1.

(** ** A concrete set of collaborators

    The repository's contour and image classes are not part of the embedded
    file; the instance below follows the specification's description of them
    and is used to run the methods on concrete inputs.  Points are triples
    in the order of the image axes, slice axis first. *)
Module SpecModel.

Definition inverse (m : Mat3) : Mat3 :=
  let '((a, b, c), (d, e, f), (g, h, i)) := m in
  let k := / det m in
  ((k * (e * i - f * h), k * (c * h - b * i), k * (b * f - c * e)),
   (k * (f * g - d * i), k * (a * i - c * g), k * (c * d - a * f)),
   (k * (d * h - e * g), k * (b * g - a * h), k * (a * e - b * d))).

(** Modelled from the spec: the body of the coordinate transformer is not
    in the embedded file; section 4.1 gives
    [voxel = orientation^-1 (point - origin) / spacing], the division
    taken component by component. *)
Definition to_voxel (origin : Vec3) (orientation : Mat3) (spacing : Vec3)
    (point : Vec3) : Vec3 :=
  let v := mat_vec (inverse orientation) (vsub point origin) in
  (c0 v / c0 spacing, c1 v / c1 spacing, c2 v / c2 spacing).

(** Modelled from the spec: [ContourClass.to_voxel_coordinates] is not in the
    embedded file; section 2 has a contour support the coordinate transform,
    applied here to every point with the grid of the image. *)
Definition contour_to_voxel (image : ImageFile) (c : ContourClass) : ContourClass :=
  {| contour :=
       map (map (to_voxel (image_origin (grid image)) (image_orientation (grid image))
                          (image_spacing (grid image))))
           (contour c) |}.

(** Modelled from the spec: [get_slice_position] is not in the embedded
    file; section 6 has the image expose the ordered world positions of
    its slices. *)
Definition slice_position_list (image : ImageFile) : list Q :=
  let dz := Z.to_nat (fst (fst (image_dimension (grid image)))) in
  map (fun k => c0 (image_origin (grid image))
                + inject_Z (Z.of_nat k) * c0 (image_spacing (grid image)))
      (seq 0 dz).

(** Modelled from the spec: [which_slice] is not in the embedded file;
    section 4.4 speaks of the integer slice index a contour occupies. *)
Definition slice_ids (c : ContourClass) : list Z :=
  unique_Z (flat_map (fun sub => match sub with
                                 | p :: _ => [np.rint (c0 p)]
                                 | [] => []
                                 end)
                     (contour c)).

(** Modelled from the spec: [merge] is not in the embedded file; section
    4.4 folds the other contours of a slice into the primary one as
    further polygons. *)
Definition merge_contours (parent : ContourClass) (others : option (list ContourClass))
    (slice_id : Z) : ContourClass :=
  {| contour := contour parent
                ++ match others with
                   | Some l => flat_map contour l
                   | None => []
                   end |}.

Definition polygon_edges (polygon : list Vec3) : list (Vec3 * Vec3) :=
  match polygon with
  | [] => []
  | p :: rest => combine polygon (rest ++ [p])
  end.

(** The horizontal ray from [(y, x)] crosses the edge [(p, q)]. *)
Definition crosses (y x : Q) (edge : Vec3 * Vec3) : bool :=
  let '(p, q) := edge in
  negb (Bool.eqb (Qlt_bool y (c1 p)) (Qlt_bool y (c1 q)))
  && Qlt_bool x (c2 p + (c2 q - c2 p) * (y - c1 p) / (c1 q - c1 p)).

Definition inside (polygons : list (list Vec3)) (y x : nat) : bool :=
  Nat.odd (length (filter (crosses (inject_Z (Z.of_nat y)) (inject_Z (Z.of_nat x)))
                          (flat_map polygon_edges polygons))).

(** Modelled from the spec: [contour_to_grid_ray_cast] is not in the
    embedded file; section 4.5 has it fill a grid of the image's in-plane
    size by the even-odd rule over all polygons of the slice, and return
    it with the position of the slice. *)
Definition ray_cast (image : ImageFile) (c : ContourClass) : list Q * list Slice2D :=
  match contour c with
  | (p :: _) :: _ =>
      let '(_, dy, dx) := image_dimension (grid image) in
      ([c0 p],
       [map (fun y => map (fun x => inside (contour c) y x) (seq 0 (Z.to_nat dx)))
            (seq 0 (Z.to_nat dy))])
  | _ => ([], [])
  end.

(** The coordinate axes, ordered by descending row norm: left singular
    vectors of an array whose rows are mutually orthogonal. *)
Definition unit_axis (k : nat) : Vec3 :=
  match k with
  | O => (1, 0, 0)
  | S O => (0, 1, 0)
  | _ => (0, 0, 1)
  end.

Fixpoint insert_descending (x : Q * nat) (l : list (Q * nat)) : list (Q * nat) :=
  match l with
  | [] => [x]
  | y :: l' =>
      if Qlt_bool (fst y) (fst x) then x :: l
      else y :: insert_descending x l'
  end.

Definition sorted_axes (a : list Vec3) : Mat3 :=
  let g := gram a in
  let order :=
    fold_right insert_descending []
      [(c0 (row0 g), 0%nat); (c1 (row1 g), 1%nat); (c2 (row2 g), 2%nat)] in
  of_cols (unit_axis (snd (nth 0 order (0, 0%nat))))
          (unit_axis (snd (nth 1 order (0, 1%nat))))
          (unit_axis (snd (nth 2 order (0, 2%nat)))).

(** Orthonormal bases with rational entries for planes that are tilted about
    the y axis with slope 3 : 4. *)
Definition tilted_axes : list Mat3 :=
  [of_cols (3 # 5, 0, 4 # 5) (0, 1, 0) (4 # 5, 0, - (3 # 5));
   of_cols (0, 1, 0) (3 # 5, 0, 4 # 5) (4 # 5, 0, - (3 # 5))].

(** Modelled from the spec: NumPy's SVD is not part of the embedded file;
    section 4.3 takes the left singular vectors of the mean-centred point
    cloud.  Singular vectors are fixed up to their signs only, and the signs
    that NumPy chooses are not modelled: the function returns one matrix
    that meets the contract [is_left_singular_basis], found among the sorted
    coordinate axes and [tilted_axes]; for other arrays, whose singular
    vectors need not be rational, it returns the sorted coordinate axes,
    which then do not meet the contract.  What is proved of a run with this
    function is stated so that it does not depend on the signs. *)
Definition axis_svd_U (a : list Vec3) : Mat3 :=
  if is_left_singular_basis a (sorted_axes a) then sorted_axes a
  else match find (is_left_singular_basis a) tilted_axes with
       | Some u => u
       | None => sorted_axes a
       end.

(** Modelled from the spec: NumPy's determinant and the comparison of
    floats are not part of the embedded file; section 3 speaks of an
    orientation of determinant -1, taken here exactly. *)
Definition exact_det_is_minus_one (m : Mat3) : bool := Qeq_bool (det m) (-1).

(** Modelled from the spec: [complete()] and [update_image_data()] are not
    in the embedded file; section 3 has the grid descriptor describe the
    array of the object that owns it, so a copy whose array has not the
    shape of the assigned image dimension is refused, and the dimension is
    kept otherwise. *)
Definition checked_dimension (self : MaskDicomFileRTSTRUCT) (dimension : Z * Z * Z)
    (image_data : Volume) : result (Z * Z * Z) :=
  let '(dz, dy, dx) := dimension in
  if list_eq_dec (list_eq_dec Nat.eq_dec) (shape image_data)
       (repeat (repeat (Z.to_nat dx) (Z.to_nat dy)) (Z.to_nat dz))
  then Ok dimension
  else Raise ValueError.

#[export] Instance collaborators : Collaborators := {|
  to_voxel_coordinates := contour_to_voxel;
  image_to_voxel_coordinates :=
    fun _ x origin orientation spacing => map (to_voxel origin orientation spacing) x;
  get_slice_position := slice_position_list;
  which_slice := slice_ids;
  merge := merge_contours;
  contour_to_grid_ray_cast := ray_cast;
  svd_U := axis_svd_U;
  det_is_minus_one := exact_det_is_minus_one;
  complete_dimension := checked_dimension
|}.

(** The same collaborators with the columns of the singular vectors negated
    as [s] says: the runs below are repeated for every [s], so that what
    they show holds whatever signs the SVD chooses. *)
Definition signed_collaborators (s : bool * bool * bool) : Collaborators := {|
  to_voxel_coordinates := contour_to_voxel;
  image_to_voxel_coordinates :=
    fun _ x origin orientation spacing => map (to_voxel origin orientation spacing) x;
  get_slice_position := slice_position_list;
  which_slice := slice_ids;
  merge := merge_contours;
  contour_to_grid_ray_cast := ray_cast;
  svd_U := fun a => flip_columns s (axis_svd_U a);
  det_is_minus_one := exact_det_is_minus_one;
  complete_dimension := checked_dimension
|}.

End SpecModel.

(** ** Concrete inputs *)
Module Examples.

Definition unit_grid (dimension : Z * Z * Z) : Grid :=
  {| image_origin := (0, 0, 0);
     image_spacing := (1, 1, 1);
     image_dimension := dimension;
     image_orientation := identity3 |}.

(** A stack of ten DICOM slices of 10 x 10 voxels. *)
Definition reference_image : ImageFile :=
  {| image_class :=
       ImageDicomFileStack
         (Some ["1.2.3.0"; "1.2.3.1"; "1.2.3.2"; "1.2.3.3"; "1.2.3.4";
                "1.2.3.5"; "1.2.3.6"; "1.2.3.7"; "1.2.3.8"; "1.2.3.9"]%string);
     image_series_instance_uid := Some "1.2.3"%string;
     grid := unit_grid (10, 10, 10)%Z |}.

(** A rectangle with corners (y, x) = (2, 2) and (4, 6) in the plane of
    the given slice-axis coordinate; the Contour Data lists (x, y, z). *)
Definition rectangle (z : Q) (references : option (list ContourImage)) : ContourItem :=
  {| contour_geometric_type := Some "CLOSED_PLANAR"%string;
     contour_data := Some [2; 2; z;  6; 2; z;  6; 4; z;  2; 4; z];
     contour_offset_vector := None;
     contour_image_sequence := references |}.

Definition roi_of (items : list ContourItem) : ROIContour :=
  {| referenced_roi_number := Some 1%Z; contour_sequence := Some items |}.

Definition structure_set (series : option string) (selection : RoiName)
    (rois : list ROIContour) : MaskDicomFileRTSTRUCT :=
  {| file_path := "rtstruct.dcm"%string;
     sample_name := Some "patient"%string;
     modality := Some "rtstruct"%string;
     series_instance_uid := series;
     roi_name := selection;
     image_metadata :=
       {| referenced_frame_of_reference_sequence := None;
          structure_set_roi_sequence :=
            Some [{| roi_number := Some 1%Z; roi_name_tag := Some "GTV"%string |}];
          roi_contour_sequence := Some rois |} |}.

(** The same structure set with a Referenced Frame of Reference Sequence
    that is present and has no item. *)
Definition empty_frame_sequence (rois : list ROIContour) : MaskDicomFileRTSTRUCT :=
  {| file_path := "rtstruct.dcm"%string;
     sample_name := Some "patient"%string;
     modality := Some "rtstruct"%string;
     series_instance_uid := Some "9.9.9"%string;
     roi_name := RoiNone;
     image_metadata :=
       {| referenced_frame_of_reference_sequence := Some [];
          structure_set_roi_sequence :=
            Some [{| roi_number := Some 1%Z; roi_name_tag := Some "GTV"%string |}];
          roi_contour_sequence := Some rois |} |}.

(** One contour on slice 2. *)
Definition roi_slice_2 : ROIContour := roi_of [rectangle 2 None].

(** One contour half way between slices 2 and 3. *)
Definition roi_between_slices : ROIContour := roi_of [rectangle (5 # 2) None].

(** Contours on slices 0 and 5, without image references. *)
Definition roi_slices_0_5 : ROIContour := roi_of [rectangle 0 None; rectangle 5 None].

(** Contours on slices 0 and 5; the first refers to the SOP instance of
    slice 0 of the reference image. *)
Definition roi_one_reference : ROIContour :=
  roi_of [rectangle 0 (Some [{| referenced_sop_instance_uid := Some "1.2.3.0"%string |}]);
          rectangle 5 None].

(** The same with a second reference, to slice 5. *)
Definition roi_two_references : ROIContour :=
  roi_of [rectangle 0 (Some [{| referenced_sop_instance_uid := Some "1.2.3.0"%string |}]);
          rectangle 5 (Some [{| referenced_sop_instance_uid := Some "1.2.3.5"%string |}])].

(** The contour objects collected from [roi_slices_0_5], and their points. *)
Definition contours_0_5 : list ContourClass :=
  [{| contour := [[(0, 2, 2); (0, 2, 6); (0, 4, 6); (0, 4, 2)]] |};
   {| contour := [[(5, 2, 2); (5, 2, 6); (5, 4, 6); (5, 4, 2)]] |}].

Definition points_0_5 : list Vec3 :=
  [(0, 2, 2); (0, 2, 6); (0, 4, 6); (0, 4, 2);
   (5, 2, 2); (5, 2, 6); (5, 4, 6); (5, 4, 2)].

(** A contour on slice 0 that is longer along y than along x. *)
Definition roi_tall : ROIContour :=
  roi_of [{| contour_geometric_type := Some "CLOSED_PLANAR"%string;
             contour_data := Some [2; 2; 0;  4; 2; 0;  4; 6; 0;  2; 6; 0];
             contour_offset_vector := None;
             contour_image_sequence := None |}].


(** A structure set of another series than the reference image. *)
Definition other_series (rois : list ROIContour) : MaskDicomFileRTSTRUCT :=
  structure_set (Some "9.9.9"%string) RoiNone rois.

(** A square of side 1 around the voxel centre (y, x) on slice z. *)
Definition square_around (z y x : Q) : ContourItem :=
  {| contour_geometric_type := Some "CLOSED_PLANAR"%string;
     contour_data := Some [x - (1 # 2); y - (1 # 2); z;  x + (1 # 2); y - (1 # 2); z;
                           x + (1 # 2); y + (1 # 2); z;  x - (1 # 2); y + (1 # 2); z];
     contour_offset_vector := None;
     contour_image_sequence := None |}.

(** Two voxels that touch at a corner only: (0, 1, 1) and (1, 2, 2). *)
Definition roi_corner_touch : ROIContour :=
  roi_of [square_around 0 1 1; square_around 1 2 2].

Definition small_image : ImageFile :=
  {| image_class := ImageGenericFile;
     image_series_instance_uid := None;
     grid := unit_grid (2, 4, 4)%Z |}.

(** An image whose slices are 1/4000 apart. *)
Definition fine_image : ImageFile :=
  {| image_class := ImageGenericFile;
     image_series_instance_uid := None;
     grid := {| image_origin := (0, 0, 0);
                image_spacing := (1 # 4000, 1, 1);
                image_dimension := (2, 4, 4)%Z;
                image_orientation := identity3 |} |}.

(** One voxel, (0, 1, 1). *)
Definition roi_single_voxel : ROIContour := roi_of [square_around 0 1 1].

(** Three slice positions with a mask each. *)
Definition three_positions : list Q := [3; 5 # 2; 12].
Definition three_masks : list Slice2D := [[[true]]; [[false]]; [[true]]].

(** The volume assembled from [roi_corner_touch] on [small_image]. *)
Definition corner_volume : Volume :=
  [[[false; false; false; false]; [false; true; false; false];
    [false; false; false; false]; [false; false; false; false]];
   [[false; false; false; false]; [false; false; false; false];
    [false; false; true; false]; [false; false; false; false]]].

(** A contour that is not parallel to the slices of the reference image. *)
Definition roi_tilted : ROIContour :=
  roi_of [{| contour_geometric_type := Some "CLOSED_PLANAR"%string;
             contour_data := Some [2; 2; 0;  6; 2; 3;  6; 4; 3;  2; 4; 0];
             contour_offset_vector := None;
             contour_image_sequence := None |}].

(** A rectangle drawn in the plane y = 0, at right angles to the slices of
    the reference image, with the corners (x, y, z) = (4, 0, 3), (-4, 0, 3),
    (-4, 0, -3) and (4, 0, -3): the rectangle is symmetric about the origin
    of the reference image along both of its sides. *)
Definition roi_coronal : ROIContour :=
  roi_of [{| contour_geometric_type := Some "CLOSED_PLANAR"%string;
             contour_data := Some [4; 0; 3;  -4; 0; 3;  -4; 0; -3;  4; 0; -3];
             contour_offset_vector := None;
             contour_image_sequence := None |}].

(** Its points, as the contour object holds them: (z, y, x). *)
Definition coronal_points : list Vec3 :=
  [(3, 0, 4); (3, 0, -4); (-3, 0, -4); (-3, 0, 4)].

(** Contours on the adjacent slices 2 and 3, without image references. *)
Definition roi_adjacent : ROIContour := roi_of [rectangle 2 None; rectangle 3 None].

(** A structure set with the ROIs GTV (number 1) and CTV (number 2). *)
Definition two_rois (selection : RoiName) (contours : option (list ROIContour)) :
    MaskDicomFileRTSTRUCT :=
  {| file_path := "rtstruct.dcm"%string;
     sample_name := Some "patient"%string;
     modality := Some "rtstruct"%string;
     series_instance_uid := None;
     roi_name := selection;
     image_metadata :=
       {| referenced_frame_of_reference_sequence := None;
          structure_set_roi_sequence :=
            Some [{| roi_number := Some 1%Z; roi_name_tag := Some "GTV"%string |};
                  {| roi_number := Some 2%Z; roi_name_tag := Some "CTV"%string |}];
          roi_contour_sequence := contours |} |}.

(** One voxel for each of the two ROIs. *)
Definition two_voxels : list ROIContour :=
  [roi_single_voxel;
   {| referenced_roi_number := Some 2%Z;
      contour_sequence := Some [square_around 1 2 2] |}].

(** A structure set whose second ROI has no name. *)
Definition unnamed_roi (selection : RoiName) : MaskDicomFileRTSTRUCT :=
  {| file_path := "rtstruct.dcm"%string;
     sample_name := Some "patient"%string;
     modality := Some "rtstruct"%string;
     series_instance_uid := None;
     roi_name := selection;
     image_metadata :=
       {| referenced_frame_of_reference_sequence := None;
          structure_set_roi_sequence :=
            Some [{| roi_number := Some 1%Z; roi_name_tag := Some "GTV"%string |};
                  {| roi_number := Some 2%Z; roi_name_tag := None |}];
          roi_contour_sequence := Some two_voxels |} |}.


End Examples.

(** A strictly increasing list of rationals. *)
Fixpoint increasing (l : list Q) : Prop :=
  match l with
  | x :: (y :: _) as l' => x < y /\ increasing l'
  | _ => True
  end.

(** ** The two tests of the selector's double loop, for one sub-contour *)
Definition constant_slice (sub_contour : list Vec3) : bool :=
  match sub_contour with
  | p :: _ => np.allclose (map c0 sub_contour) (c0 p)
  | [] => true
  end.

Definition integer_slice (sub_contour : list Vec3) : bool :=
  match sub_contour with
  | p :: _ => np.isclose (np.round (c0 p)) (c0 p)
  | [] => true
  end.


(** The offset that [_collect_contours] subtracts from the data of an item. *)
Definition contour_offset (item : ContourItem) : Vec3 :=
  match contour_offset_vector item with
  | Some offset => offset
  | None => (0, 0, 0)
  end.

(** Known slice positions any two of which differ by more than the rounding
    tolerance of [_match_slice_position]. *)
Definition well_separated (known_position : list Q) : Prop :=
  ForallOrdPairs (fun a b => (1 # 1000) < Qabs (a - b)) known_position.

(** ** The ROI selection and the label table *)

(** Whether the selection [self.roi_name] admits a name of the structure
    set: [x in provided_roi_names], or no selection at all. *)
Definition admits (selection : RoiName) (name : string) : bool :=
  match selection with
  | RoiNone => true
  | RoiStr selected => string_in name [selected]
  | RoiList names => string_in name names
  | RoiDict renaming => string_in name (map fst renaming)
  end.

(** The name a mask gets for a structure-set name: [self.roi_name.get(name)]
    for a dictionary, the name itself otherwise. *)
Definition emitted_name (selection : RoiName) (name : string) : option string :=
  match selection with
  | RoiDict renaming => dict_get renaming name
  | _ => Some name
  end.

(** The dictionary that [export_roi_labels] returns. *)
Record RoiLabels : Type := {
  labels_sample_name : list (option string);
  labels_dir_path : list (option string);
  labels_file_path : list (option string);
  labels_roi_label : list (option string)
}.

(** [export_roi_labels()]; the attributes [dir_path] and [file_name] of the
    file object are passed in. *)
Definition export_roi_labels (self : MaskDicomFileRTSTRUCT)
    (dir_path file_name : option string) : result RoiLabels :=
  rois <- subscript (structure_set_roi_sequence (image_metadata self)) ;;
  let labels := map roi_name_tag rois in
  let n_labels := Nat.max 1 (length labels) in
  let labels := if is_empty labels then [None] else labels in
  Ok {| labels_sample_name := repeat (sample_name self) n_labels;
        labels_dir_path := repeat dir_path n_labels;
        labels_file_path := repeat file_name n_labels;
        labels_roi_label := labels |}.


(** ** [importData/utilities.py] *)

Section Modalities.

(** [str.lower] *)
Variable lower : string -> string.

(** [supported_image_modalities(modality)] *)
Definition supported_image_modalities (modality : option string) : result (list string) :=
  let modality := option_map lower modality in
  match modality with
  | None => Ok ["ct"; "pt"; "mr"; "generic"]%string
  | Some modality =>
      if String.eqb modality "ct" then Ok ["ct"%string]
      else if string_in modality ["pt"; "pet"]%string then Ok ["pt"%string]
      else if string_in modality ["mr"; "mri"]%string then Ok ["mr"%string]
      else if String.eqb modality "generic" then Ok ["generic"%string]
      else Raise ValueError
  end.

(** [supported_mask_modalities(modality)] *)
Definition supported_mask_modalities (modality : option string) : result (list string) :=
  let modality := option_map lower modality in
  match modality with
  | None => Ok ["rtsruct"; "seg"; "generic_mask"]%string
  | Some modality =>
      if String.eqb modality "rtstruct" then Ok ["rtstruct"%string]
      else if string_in modality ["seg"%string] then Ok ["seg"%string]
      else if String.eqb modality "generic_mask" then Ok ["generic_mask"%string]
      else Raise ValueError
  end.

End Modalities.

(** A Python list whose entries are lists or other objects. *)
#[warnings="-register-all"] Inductive nested (A : Type) : Type :=
| Item (a : A)
| Nested (l : list (nested A)).

Arguments Item {A} a.
Arguments Nested {A} l.


(** [flatten_list(unflattened_list)].  The function calls itself once for
    the head, when the head is a list, and once for the tail, so the calls
    nest as deep as the list is long; the interpreter bounds the nesting of
    calls and raises [RecursionError] beyond it.  [depth] is the number of
    calls that may still be nested when the function is entered. *)
Fixpoint flatten_list {A : Type} (depth : nat) (unflattened_list : list (nested A))
  : result (list (nested A)) :=
  match depth with
  | O => Raise RecursionError
  | S depth =>
      match unflattened_list with
      | [] => Ok unflattened_list
      | Nested head :: tail =>
          flat_head <- flatten_list depth head ;;
          flat_tail <- flatten_list depth tail ;;
          Ok (flat_head ++ flat_tail)
      | head :: tail =>
          flat_tail <- flatten_list depth tail ;;
          Ok ([head] ++ flat_tail)
      end
  end.

(** [str.endswith] and [str.removesuffix] *)
Definition endswith (s suffix : string) : bool :=
  (String.length suffix <=? String.length s)%nat
  && String.eqb (substring (String.length s - String.length suffix)
                           (String.length suffix) s) suffix.

Definition removesuffix (s suffix : string) : string :=
  if endswith s suffix
  then substring 0 (String.length s - String.length suffix) s
  else s.

(** An argument that is a string or a list of strings. *)
Inductive StrOrList : Type :=
| Str (s : string)
| Lst (l : list string).

Section FileNames.

(** [os.path.basename] *)
Variable basename : string -> string.

(** The inner loop of [bare_file_name] over the extensions, with its
    [break]. *)
Fixpoint strip_extension (current_file_name : string) (file_extension : list string)
  : string :=
  match file_extension with
  | [] => current_file_name
  | extension :: file_extension' =>
      if endswith current_file_name extension
      then removesuffix current_file_name extension
      else strip_extension current_file_name file_extension'
  end.

(** [bare_file_name(x, file_extension)] *)
Definition bare_file_name (x file_extension : StrOrList) : result StrOrList :=
  let '(x, return_list) :=
    match x with
    | Str s => ([s], false)
    | Lst l => (l, true)
    end in
  let file_extension :=
    match file_extension with
    | Str s => [s]
    | Lst l => l
    end in
  let file_name := map basename x in
  let file_name := map (fun name => strip_extension name file_extension) file_name in
  if return_list then Ok (Lst file_name)
  else name <- item0 file_name ;; Ok (Str name).

End FileNames.

(** ** [imageProcess/utilities.py] *)

(** A float is a rational or NaN ([None]). *)
Definition isnan (x : option Q) : bool := is_none x.

Definition float_sub (a b : option Q) : option Q :=
  match a, b with Some a, Some b => Some (a - b) | _, _ => None end.

Definition float_add (a b : option Q) : option Q :=
  match a, b with Some a, Some b => Some (a + b) | _, _ => None end.

Definition float_mul (a b : option Q) : option Q :=
  match a, b with Some a, Some b => Some (a * b) | _, _ => None end.

(** [l[i]] *)
Definition index {A : Type} (l : list A) (i : nat) : result A :=
  match nth_error l i with
  | Some a => Ok a
  | None => Raise IndexError
  end.

(** [l[i] = a] for [i] in range *)
Fixpoint assign {A : Type} (l : list A) (i : nat) (a : A) : list A :=
  match l, i with
  | [], _ => []
  | _ :: l', O => a :: l'
  | b :: l', S i' => b :: assign l' i' a
  end.

(** [extend_intensity_range(intensity_range, extend_fraction)] *)
Definition extend_intensity_range (intensity_range : option (list (option Q)))
    (extend_fraction : option Q) : result (option (list (option Q))) :=
  match intensity_range with
  | None => Ok None
  | Some range =>
      if existsb isnan range then Ok (Some range)
      else if match extend_fraction with
              | Some fraction => Qle_bool fraction 0
              | None => false
              end
      then Ok (Some range)
      else
        upper <- index range 1 ;;
        lower <- index range 0 ;;
        let extension := float_mul (Some (1 # 10)) (float_sub upper lower) in
        let range := assign range 0 (float_sub lower extension) in
        upper <- index range 1 ;;
        let range := assign range 1 (float_add upper extension) in
        Ok (Some range)
  end.


(** * Properties *)

Lemma bind_Ok_inv {A B : Type} (r : result A) (k : A -> result B) (b : B) :
  bind r k = Ok b -> exists a, r = Ok a /\ k a = Ok b.
Proof. destruct r as [a|e]; simpl; intros H; [eauto | discriminate]. Qed.

Lemma mapM_Ok_Forall {A B : Type} (f : A -> result B) (g : A -> B) (l : list A) :
  Forall (fun x => f x = Ok (g x)) l -> mapM f l = Ok (map g l).
Proof.
  induction 1 as [|x l Hx _ IH]; simpl; [reflexivity|].
  now rewrite Hx, IH.
Qed.

(** ** The NumPy operations *)

Lemma insert_unique_increasing (x : Q) (l : list Q) :
  increasing l -> increasing (np.insert_unique x l).
Proof.
  induction l as [|y l IH]; simpl; [trivial|].
  intros Hl. destruct (Qcompare x y) eqn:Hxy.
  - exact Hl.
  - simpl. split; [now apply Qlt_alt | exact Hl].
  - apply Qgt_alt in Hxy.
    assert (increasing l) as Hl' by (destruct l; [exact I | apply Hl]).
    specialize (IH Hl').
    destruct l as [|z l]; simpl; [split; [exact Hxy | exact I]|].
    simpl in IH. destruct Hl as [Hyz _].
    destruct (Qcompare x z) eqn:Hxz.
    + split; [exact Hyz | exact IH].
    + split; [exact Hxy | exact IH].
    + split; [exact Hyz | exact IH].
Qed.

Lemma unique_increasing (l : list Q) : increasing (np.unique l).
Proof.
  induction l as [|x l IH]; simpl; [exact I|].
  now apply insert_unique_increasing.
Qed.

Lemma insert_unique_In (x y : Q) (l : list Q) :
  In y (np.insert_unique x l) -> y = x \/ In y l.
Proof.
  induction l as [|z l IH]; simpl.
  - intros [<-|[]]. now left.
  - destruct (Qcompare x z); simpl.
    + intros H. now right.
    + intros [<-|H]; [now left | now right].
    + intros [<-|H]; [right; now left|].
      destruct (IH H) as [->|Hin]; [now left | right; now right].
Qed.

Lemma unique_In (y : Q) (l : list Q) : In y (np.unique l) -> In y l.
Proof.
  induction l as [|x l IH]; simpl; [trivial|].
  intros H. destruct (insert_unique_In _ _ _ H) as [->|Hin]; [now left | right; auto].
Qed.

Lemma insert_unique_complete (x y : Q) (l : list Q) :
  y == x \/ In y l -> exists z, In z (np.insert_unique x l) /\ z == y.
Proof.
  induction l as [|w l IH]; simpl.
  - intros [H|[]]. exists x. split; [now left | now symmetry].
  - destruct (Qcompare x w) eqn:Hxw; simpl.
    + apply Qeq_alt in Hxw. intros [H|[<-|H]].
      * exists w. split; [now left | rewrite H; now symmetry].
      * exists w. split; [now left | reflexivity].
      * exists y. split; [now right | reflexivity].
    + intros [H|[<-|H]].
      * exists x. split; [now left | now symmetry].
      * exists w. split; [right; now left | reflexivity].
      * exists y. split; [right; now right | reflexivity].
    + intros [H|[<-|H]].
      * destruct (IH (or_introl H)) as (z & Hz & Hzy). exists z. split; [now right | exact Hzy].
      * exists w. split; [now left | reflexivity].
      * destruct (IH (or_intror H)) as (z & Hz & Hzy). exists z. split; [now right | exact Hzy].
Qed.

Lemma unique_complete (y : Q) (l : list Q) :
  In y l -> exists z, In z (np.unique l) /\ z == y.
Proof.
  induction l as [|x l IH]; simpl; [intros []|].
  intros [<-|H].
  - apply insert_unique_complete. left. reflexivity.
  - destruct (IH H) as (z & Hz & Hzy).
    destruct (insert_unique_complete x z (np.unique l) (or_intror Hz)) as (w & Hw & Hwz).
    exists w. split; [exact Hw | now rewrite Hwz].
Qed.

Lemma diff_positive (l : list Q) :
  increasing l -> Forall (fun d => 0 < d) (np.diff l).
Proof.
  induction l as [|x l IH]; [constructor|].
  destruct l as [|y l]; [constructor|].
  intros [Hxy Hl]. change (np.diff (x :: y :: l)) with ((y - x) :: np.diff (y :: l)).
  constructor; [|now apply IH].
  unfold Qminus. rewrite <- (Qplus_opp_r x). apply Qplus_lt_l. exact Hxy.
Qed.

Lemma fold_Qmin_In (l : list Q) (x : Q) : In (fold_left np.Qmin l x) (x :: l).
Proof.
  revert x. induction l as [|y l IH]; intros x; simpl; [now left|].
  destruct (IH (np.Qmin x y)) as [H|H].
  - unfold np.Qmin in H at 1. destruct (Qle_bool x y); [left | right; left]; exact H.
  - right. right. exact H.
Qed.

Lemma fold_Qmin_le (l : list Q) (x : Q) :
  fold_left np.Qmin l x <= x /\ Forall (Qle (fold_left np.Qmin l x)) l.
Proof.
  revert x. induction l as [|y l IH]; intros x; simpl.
  - split; [apply Qle_refl | constructor].
  - destruct (IH (np.Qmin x y)) as [Hle Hall].
    assert (np.Qmin x y <= x /\ np.Qmin x y <= y) as [Hx Hy].
    { unfold np.Qmin. destruct (Qle_bool x y) eqn:E.
      - apply Qle_bool_iff in E. split; [apply Qle_refl | exact E].
      - split; [|apply Qle_refl].
        destruct (Qlt_le_dec y x) as [H|H]; [now apply Qlt_le_weak|].
        apply Qle_bool_iff in H. congruence. }
    split; [eapply Qle_trans; eauto|].
    constructor; [eapply Qle_trans; eauto | exact Hall].
Qed.

(** [np.min] returns an element of the array that is below all of them. *)
Lemma min_spec (l : list Q) (m : Q) :
  np.min l = Ok m -> In m l /\ Forall (Qle m) l.
Proof.
  destruct l as [|x l]; simpl; [discriminate|].
  intros [= <-]. split; [apply fold_Qmin_In|].
  destruct (fold_Qmin_le l x) as [Hx Hall]. now constructor.
Qed.

Lemma fold_Qmax_In (l : list Q) (x : Q) : In (fold_left np.Qmax l x) (x :: l).
Proof.
  revert x. induction l as [|y l IH]; intros x; simpl; [now left|].
  destruct (IH (np.Qmax x y)) as [H|H].
  - unfold np.Qmax in H at 1. destruct (Qle_bool x y); [right; left | left]; exact H.
  - right. right. exact H.
Qed.

Lemma fold_Qmax_ge (l : list Q) (x : Q) :
  x <= fold_left np.Qmax l x /\ Forall (fun y => y <= fold_left np.Qmax l x) l.
Proof.
  revert x. induction l as [|y l IH]; intros x; simpl.
  - split; [apply Qle_refl | constructor].
  - destruct (IH (np.Qmax x y)) as [Hle Hall].
    assert (x <= np.Qmax x y /\ y <= np.Qmax x y) as [Hx Hy].
    { unfold np.Qmax. destruct (Qle_bool x y) eqn:E.
      - apply Qle_bool_iff in E. split; [exact E | apply Qle_refl].
      - split; [apply Qle_refl|].
        destruct (Qlt_le_dec y x) as [H|H]; [now apply Qlt_le_weak|].
        apply Qle_bool_iff in H. congruence. }
    split; [eapply Qle_trans; eauto|].
    constructor; [eapply Qle_trans; eauto | exact Hall].
Qed.

(** [np.max] returns an element of the array that is above all of them. *)
Lemma max_spec (l : list Q) (m : Q) :
  np.max l = Ok m -> In m l /\ Forall (fun y => y <= m) l.
Proof.
  destruct l as [|x l]; simpl; [discriminate|].
  intros [= <-]. split; [apply fold_Qmax_In|].
  destruct (fold_Qmax_ge l x) as [Hx Hall]. now constructor.
Qed.

(** Two distinct values or more have a smallest gap, and it is positive. *)
Lemma min_gap_positive (l : list Q) :
  (2 <= length (np.unique l))%nat ->
  exists gap, np.min (np.diff (np.unique l)) = Ok gap /\ 0 < gap.
Proof.
  intros Hlen. pose proof (diff_positive _ (unique_increasing l)) as Hpos.
  destruct (np.unique l) as [|x [|y u]]; simpl in Hlen; try lia.
  destruct (np.min (np.diff (x :: y :: u))) as [gap|e] eqn:Hmin; [|discriminate Hmin].
  exists gap. split; [reflexivity|].
  apply min_spec in Hmin. destruct Hmin as [Hin _].
  rewrite Forall_forall in Hpos. now apply Hpos.
Qed.

Lemma int_ceil_div_nonzero (num den : Q) :
  ~ den == 0 -> np.int_ceil_div num den = Ok (Qceiling (num / den)).
Proof.
  intros H. unfold np.int_ceil_div.
  destruct (Qeq_bool den 0) eqn:E; [|reflexivity].
  apply Qeq_bool_iff in E. contradiction.
Qed.

(** ** Contour collection *)



Lemma collect_has_sequence (roi : ROIContour) r :
  _collect_contours roi = Ok r -> exists items, contour_sequence roi = Some items.
Proof.
  unfold _collect_contours. destruct (contour_sequence roi) as [items|]; [eauto|discriminate].
Qed.

(** ** The SOP-UID identity check *)

Lemma sop_uid_correct_defined (self : MaskDicomFileRTSTRUCT) (roi : ROIContour)
    (image : ImageFile) items uids :
  contour_sequence roi = Some items ->
  frame_referenced_sop_uids (image_metadata self) = Ok uids ->
  exists b, sop_uid_correct self roi image = Ok b.
Proof.
  intros Hseq Hframe. unfold sop_uid_correct, referenced_sop_uids, contour_referenced_sop_uids.
  destruct (reference_sop_instance_uid image); [|eauto].
  rewrite Hseq, Hframe. simpl.
  destruct (1 <? _)%nat; eauto.
Qed.

(** What the check computes: it holds exactly when at least two UIDs are
    referenced (counted with repetitions) and all of them are UIDs of the
    reference image. *)
Lemma sop_uid_correct_true (self : MaskDicomFileRTSTRUCT) (roi : ROIContour)
    (image : ImageFile) :
  sop_uid_correct self roi image = Ok true <->
  exists reference referenced,
    reference_sop_instance_uid image = Some reference
    /\ referenced_sop_uids self roi = Ok referenced
    /\ (2 <= length referenced)%nat
    /\ set_superset reference referenced = true.
Proof.
  unfold sop_uid_correct. split.
  - destruct (reference_sop_instance_uid image) as [reference|]; [|discriminate].
    destruct (referenced_sop_uids self roi) as [referenced|e]; simpl; [|discriminate].
    destruct (1 <? length referenced)%nat eqn:Hlen; [|discriminate].
    intros H. exists reference, referenced. repeat split; try congruence.
    now apply Nat.ltb_lt in Hlen.
  - intros (reference & referenced & -> & -> & Hlen & Hsub). simpl.
    apply Nat.ltb_lt in Hlen. now rewrite Hlen, Hsub.
Qed.

Section Selector.

Context {collaborators : Collaborators}.


(** C2. When the contours of the ROI pass the orientation and position
    checks, lie on two or more distinct slice positions whose smallest gap
    is not close to 1, and neither the series-UID nor the SOP-UID check
    holds, the reference image is rejected: the result is
    [(False, True, False)]. *)
Theorem convert_rejects_unconfirmed_gaps
    (self : MaskDicomFileRTSTRUCT) (roi : ROIContour) (image : ImageFile)
    (contour_objects : list ContourClass) (positions : list Q) (gap : Q) :
  _collect_contours roi = Ok (Some contour_objects) ->
  check_sub_contours (true, true)
    (sub_contours (map (to_voxel_coordinates image) contour_objects)) = Ok (true, true) ->
  slice_positions (map (to_voxel_coordinates image) contour_objects) = Ok positions ->
  (2 <= length (np.unique positions))%nat ->
  np.min (np.diff (np.unique positions)) = Ok gap ->
  np.isclose gap 1 = false ->
  series_uid_correct self image = false ->
  sop_uid_correct self roi image = Ok false ->
  _convert_contour_using_image self roi (Some image) = Ok (false, true, false).
Proof.
  intros Hcollect Hchecks Hpositions Hlen Hgap Hfar Hseries Hsop.
  unfold _convert_contour_using_image.
  rewrite Hsop, Hcollect. simpl. rewrite Hchecks. simpl.
  rewrite Hpositions. simpl.
  destruct (length (np.unique positions) =? 1)%nat eqn:Hone.
  - apply Nat.eqb_eq in Hone. lia.
  - rewrite Hgap. simpl. now rewrite Hfar, Hseries.
Qed.

(** C3, as amended. When the contours of the ROI pass the orientation and
    position checks and lie on exactly one slice position, and the SOP-UID
    identity check yields an outcome, the reference image is accepted
    whatever that outcome and the outcome of the series-UID check are. *)
Theorem convert_accepts_single_slice
    (self : MaskDicomFileRTSTRUCT) (roi : ROIContour) (image : ImageFile)
    (contour_objects : list ContourClass) (positions : list Q)
    (sop_matched : bool) :
  _collect_contours roi = Ok (Some contour_objects) ->
  check_sub_contours (true, true)
    (sub_contours (map (to_voxel_coordinates image) contour_objects)) = Ok (true, true) ->
  slice_positions (map (to_voxel_coordinates image) contour_objects) = Ok positions ->
  length (np.unique positions) = 1%nat ->
  sop_uid_correct self roi image = Ok sop_matched ->
  _convert_contour_using_image self roi (Some image) = Ok (true, true, true).
Proof.
  intros Hcollect Hchecks Hpositions Hlen Hsop.
  unfold _convert_contour_using_image.
  rewrite Hsop, Hcollect. simpl. rewrite Hchecks. simpl.
  rewrite Hpositions. simpl. now rewrite Hlen.
Qed.

End Selector.

Section ToObject.

Context {collaborators : Collaborators}.

(** C9. [to_object] without an image raises [TypeError], for every
    structure set and every policy. *)
Theorem to_object_without_image_raises
    (self : MaskDicomFileRTSTRUCT) (disconnected_segments : string) :
  to_object self None disconnected_segments = Raise TypeError.
Proof. reflexivity. Qed.

End ToObject.

(** ** The synthetic grid *)

Lemma mapM_Ok_each {A B : Type} (f : A -> result B) (l : list A) (r : list B) :
  mapM f l = Ok r -> Forall (fun y => exists x, In x l /\ f x = Ok y) r.
Proof.
  revert r. induction l as [|x l IH]; simpl; intros r H.
  - injection H as <-. constructor.
  - apply bind_Ok_inv in H. destruct H as (y & Hy & H).
    apply bind_Ok_inv in H. destruct H as (ys & Hys & H).
    injection H as <-. constructor.
    + exists x. split; [now left | exact Hy].
    + specialize (IH ys Hys). eapply Forall_impl; [|exact IH].
      simpl. intros b (a & Ha & Hb). exists a. split; [now right | exact Hb].
Qed.

Lemma drop_none_In {A : Type} (l : list (option A)) (x : A) :
  In x (drop_none l) -> In (Some x) l.
Proof.
  induction l as [|[y|] l IH]; simpl; [trivial| |].
  - intros [->|H]; [now left | right; auto].
  - intros H. right. auto.
Qed.

Lemma collect_contour_single (item : ContourItem) (c : ContourClass) :
  collect_contour item = Ok (Some c) -> exists data, contour c = [data].
Proof.
  unfold collect_contour.
  destruct (contour_geometric_type item); [|discriminate].
  destruct (negb _); [discriminate|].
  destruct (contour_data item); [|discriminate].
  intros H. apply bind_Ok_inv in H. destruct H as (d & _ & H).
  injection H as <-. eexists. reflexivity.
Qed.

(** The contour objects that [_collect_contours] returns: at least one, each
    with a single polygon. *)
Lemma collect_contours_shape (roi : ROIContour) (contour_objects : list ContourClass) :
  _collect_contours roi = Ok (Some contour_objects) ->
  contour_objects <> []
  /\ Forall (fun c => exists data, contour c = [data]) contour_objects.
Proof.
  unfold _collect_contours. intros H.
  apply bind_Ok_inv in H. destruct H as (items & _ & H).
  apply bind_Ok_inv in H. destruct H as (collected & Hcollected & H).
  assert (drop_none collected = contour_objects) as Heq
    by (destruct (drop_none collected); [discriminate | now injection H]).
  split; [destruct (drop_none collected); [discriminate | congruence]|].
  subst contour_objects. apply Forall_forall. intros c Hc.
  apply drop_none_In in Hc.
  pose proof (mapM_Ok_each _ _ _ Hcollected) as Heach.
  rewrite Forall_forall in Heach. destruct (Heach _ Hc) as (item & _ & Hitem).
  now apply collect_contour_single in Hitem.
Qed.

Section SyntheticGrid.

Context {collaborators : Collaborators}.

(** For collected contours the orientation step and the normalisation step
    of [_create_image_from_contour] never raise. *)
Lemma synthesized_orientation_defined (roi : ROIContour)
    (contour_objects : list ContourClass) :
  _collect_contours roi = Ok (Some contour_objects) ->
  exists mask_orientation, synthesized_orientation contour_objects = Ok mask_orientation.
Proof.
  intros H. destruct (collect_contours_shape _ _ H) as [Hne Hall].
  destruct contour_objects as [|c l]; [contradiction|].
  inversion Hall as [|? ? (data & Hdata) _]; subst.
  unfold synthesized_orientation. simpl. rewrite Hdata. simpl. eauto.
Qed.

Lemma normalised_points_defined (roi : ROIContour) (image : ImageFile)
    (mask_orientation : Mat3) (contour_objects : list ContourClass) :
  _collect_contours roi = Ok (Some contour_objects) ->
  exists stacked, normalised_points image mask_orientation contour_objects = Ok stacked.
Proof.
  intros H. destruct (collect_contours_shape _ _ H) as [Hne Hall].
  destruct contour_objects as [|c l]; [contradiction|].
  inversion Hall as [|? ? (data & Hdata) _]; subst.
  unfold normalised_points, normalised_contours, sub_contours. simpl.
  rewrite Hdata. simpl. eauto.
Qed.

End SyntheticGrid.

(** ** The synthesized orientation *)

Lemma Qopp_mult_minus_one (x : Q) : - (x * (-1)) = x.
Proof.
  destruct x as [n d]. unfold Qopp, Qmult. simpl.
  f_equal; [lia | apply Pos.mul_1_r].
Qed.

Lemma of_cols_cols (m : Mat3) : of_cols (col0 m) (col1 m) (col2 m) = m.
Proof. now destruct m as [[[[a b] c] [[d e] f]] [[g h] i]]. Qed.

Lemma cols_of_cols (a b c : Vec3) :
  col0 (of_cols a b c) = a /\ col1 (of_cols a b c) = b /\ col2 (of_cols a b c) = c.
Proof. now destruct a as [[? ?] ?], b as [[? ?] ?], c as [[? ?] ?]. Qed.

Lemma reverse_columns_involutive (m : Mat3) : reverse_columns (reverse_columns m) = m.
Proof. now destruct m as [[[[a b] c] [[d e] f]] [[g h] i]]. Qed.

Lemma all_signs_complete (s : bool * bool * bool) : In s all_signs.
Proof. destruct s as [[[|] [|]] [|]]; simpl; tauto. Qed.

Section Orientation.

Context {collaborators : Collaborators}.

Lemma negate_flipped (v : Vec3) :
  negate_if (Qlt_bool (column_sum v) 0) (flip_if_negative v) = v.
Proof.
  unfold flip_if_negative, negate_if.
  destruct (Qlt_bool (column_sum v) 0); [|reflexivity].
  destruct v as [[a b] c]. unfold c0, c1, c2. simpl.
  now rewrite !Qopp_mult_minus_one.
Qed.

(** The handedness block only ever negates columns. *)
Lemma check_right_handedness_flips (m : Mat3) :
  exists s, flip_columns s (check_right_handedness m) = m.
Proof.
  unfold check_right_handedness. destruct (det_is_minus_one m).
  - exists (Qlt_bool (column_sum (col0 m)) 0,
            Qlt_bool (column_sum (col1 m)) 0,
            Qlt_bool (column_sum (col2 m)) 0).
    unfold flip_columns.
    destruct (cols_of_cols (flip_if_negative (col0 m)) (flip_if_negative (col1 m))
                (flip_if_negative (col2 m))) as (-> & -> & ->).
    rewrite !negate_flipped. apply of_cols_cols.
  - exists (false, false, false). apply of_cols_cols.
Qed.

(** C5, as amended. The orientation that [_create_image_from_contour]
    synthesizes is computed from the points of the FIRST contour object of
    the ROI only: with [u] the left singular vectors that NumPy's SVD returns
    for the mean-centred points of that contour, the orientation is [u] in
    reversed column order, up to the sign of each column.  It is the
    orientation of every image the method returns, and in mixed mode the
    method always returns. *)
Theorem orientation_from_first_contour
    (self : MaskDicomFileRTSTRUCT) (roi : ROIContour) (image : ImageFile)
    (use_orientation use_position : bool) (contour_objects : list ContourClass) :
  _collect_contours roi = Ok (Some contour_objects) ->
  exists first_contour rest polygon orientation,
    contour_objects = first_contour :: rest
    /\ contour first_contour = [polygon]
    /\ synthesized_orientation contour_objects = Ok orientation
    /\ (exists s,
          flip_columns s orientation = reverse_columns (svd_U (centred polygon)))
    /\ (is_left_singular_basis (centred polygon) (svd_U (centred polygon)) = true ->
        orientation_of_point_cloud polygon orientation = true)
    /\ (forall new_image,
           _create_image_from_contour self roi image use_orientation use_position
           = Ok new_image ->
           image_orientation (grid new_image) = orientation)
    /\ (exists new_image,
           _create_image_from_contour self roi image use_orientation true
           = Ok new_image).
Proof.
  intros Hcollect. destruct (collect_contours_shape _ _ Hcollect) as [Hne Hall].
  destruct contour_objects as [|first_contour rest]; [contradiction|].
  inversion Hall as [|? ? (polygon & Hpolygon) _]; subst.
  exists first_contour, rest, polygon,
    (check_right_handedness (reverse_columns (svd_U (centred polygon)))).
  split; [reflexivity|]. split; [exact Hpolygon|].
  assert (synthesized_orientation (first_contour :: rest)
          = Ok (check_right_handedness (reverse_columns (svd_U (centred polygon)))))
    as Hsynth.
  { unfold synthesized_orientation. simpl. rewrite Hpolygon. simpl.
    now rewrite app_nil_r. }
  split; [exact Hsynth|].
  split; [apply check_right_handedness_flips|].
  split.
  { intros Hbasis. unfold orientation_of_point_cloud. apply existsb_exists.
    destruct (check_right_handedness_flips (reverse_columns (svd_U (centred polygon))))
      as [s Hs].
    exists s. split; [apply all_signs_complete|].
    now rewrite Hs, reverse_columns_involutive. }
  unfold synthesized_orientation in Hsynth. simpl in Hsynth.
  destruct (np.vstack (contour first_contour)) as [points|e] eqn:Hpoints; [|discriminate].
  simpl in Hsynth. injection Hsynth as Hsynth.
  split.
  - intros new_image. unfold _create_image_from_contour.
    rewrite Hcollect. cbn [bind negb item0]. rewrite Hpoints. cbn [bind].
    rewrite Hsynth. intros H.
    apply bind_Ok_inv in H. destruct H as (new_grid & Hgrid & H).
    injection H as <-. cbn [grid].
    destruct use_position; cbn [negb] in Hgrid.
    + injection Hgrid as <-. reflexivity.
    + repeat (apply bind_Ok_inv in Hgrid; destruct Hgrid as (? & _ & Hgrid)).
      injection Hgrid as <-. reflexivity.
  - unfold _create_image_from_contour.
    rewrite Hcollect. cbn [bind negb item0]. rewrite Hpoints. cbn [bind]. eauto.
Qed.

End Orientation.

(** ** Slice matching *)

Lemma argwhere_from_map {A B : Type} (f : A -> B) (p : B -> bool) (i : Z) (l : list A) :
  argwhere_from p i (map f l) = argwhere_from (fun x => p (f x)) i l.
Proof.
  revert i. induction l as [|x l IH]; intros i; simpl; [reflexivity|].
  now rewrite IH.
Qed.

Lemma existsb_argwhere_from {A : Type} (p : A -> bool) (i : Z) (l : list A) :
  existsb p l = negb (is_empty (argwhere_from p i l)).
Proof.
  revert i. induction l as [|x l IH]; intros i; simpl; [reflexivity|].
  destruct (p x); simpl; [reflexivity | apply IH].
Qed.

(** The entries of [np.argwhere] are the indices at which the test holds. *)
Lemma argwhere_from_In {A : Type} (p : A -> bool) (i j : Z) (l : list A) :
  In j (argwhere_from p i l) <->
  (i <= j)%Z /\ exists x, nth_error l (Z.to_nat (j - i)) = Some x /\ p x = true.
Proof.
  revert i. induction l as [|x l IH]; intros i; simpl.
  - split; [intros [] | intros (_ & y & H & _)].
    now destruct (Z.to_nat (j - i)).
  - assert (In j (argwhere_from p (i + 1) l) <->
            (i < j)%Z /\ exists y, nth_error l (Z.to_nat (j - i) - 1) = Some y /\ p y = true)
      as Hrest.
    { rewrite IH. replace (Z.to_nat (j - (i + 1))) with (Z.to_nat (j - i) - 1)%nat by lia.
      split; intros [H H']; (split; [lia | exact H']). }
    destruct (p x) eqn:Hp; simpl; rewrite ?Hrest.
    + split.
      * intros [<-|(Hlt & y & Hy & Hpy)].
        -- split; [lia|]. exists x. rewrite Z.sub_diag. simpl. now split.
        -- split; [lia|]. exists y. split; [|exact Hpy].
           destruct (Z.to_nat (j - i)) eqn:E; [lia|]. simpl in *.
           now rewrite Nat.sub_0_r in Hy.
      * intros (Hle & y & Hy & Hpy).
        destruct (Z.eq_dec i j) as [->|Hne]; [now left|]. right.
        split; [lia|]. exists y. split; [|exact Hpy].
        destruct (Z.to_nat (j - i)) eqn:E; [lia|]. simpl in *.
        now rewrite Nat.sub_0_r.
    + split.
      * intros (Hlt & y & Hy & Hpy). split; [lia|]. exists y. split; [|exact Hpy].
        destruct (Z.to_nat (j - i)) eqn:E; [lia|]. simpl in *.
        now rewrite Nat.sub_0_r in Hy.
      * intros (Hle & y & Hy & Hpy).
        destruct (Z.to_nat (j - i)) eqn:E; simpl in Hy.
        -- injection Hy as ->. congruence.
        -- split; [lia|]. exists y. simpl. rewrite Nat.sub_0_r. now split.
Qed.

Lemma matching_indices_In (slice_position : Q) (known_position : list Q)
    (image_spacing_z : Q) (j : Z) :
  In j (matching_indices slice_position known_position image_spacing_z) <->
  (0 <= j)%Z
  /\ exists known, nth_error known_position (Z.to_nat j) = Some known
                   /\ position_matches slice_position image_spacing_z known = true.
Proof.
  unfold matching_indices, argwhere. rewrite argwhere_from_In.
  now rewrite Z.sub_0_r.
Qed.

Lemma match_slice_position_cases (slice_position : Q) (known_position : list Q)
    (image_spacing_z : Q) :
  _match_slice_position slice_position known_position image_spacing_z
  = match matching_indices slice_position known_position image_spacing_z with
    | [] => Ok None
    | [i] => Ok (Some i)
    | _ => Raise TypeError
    end.
Proof.
  unfold _match_slice_position, matching_indices, argwhere.
  rewrite (existsb_argwhere_from _ 0%Z), argwhere_from_map.
  fold (position_matches slice_position image_spacing_z).
  destruct (argwhere_from (position_matches slice_position image_spacing_z) 0 known_position)
    as [|i [|j l]]; reflexivity.
Qed.

(** A position that coincides with a known position matches it. *)
Lemma rint_zero (x : Q) : x == 0 -> np.rint x = 0%Z.
Proof.
  intros H. unfold np.rint.
  assert (Qfloor x = 0%Z) as -> by (rewrite H; reflexivity).
  assert (Qcompare (x - inject_Z 0) (1 # 2) = Lt) as ->; [|reflexivity].
  rewrite <- Qlt_alt. rewrite H. reflexivity.
Qed.

Lemma exact_position_matches (slice_position image_spacing_z known : Q) :
  slice_position * image_spacing_z == known ->
  position_matches slice_position image_spacing_z known = true.
Proof.
  intros H. unfold position_matches, is_zero, np.around3.
  rewrite rint_zero; [reflexivity|].
  rewrite H. unfold Qminus. rewrite Qplus_opp_r. reflexivity.
Qed.

(** The comprehensions over parallel lists, on lists of equal length. *)
Lemma masks_where_combine {A B : Type} (keep : A -> bool) (slice_list : list A)
    (mask_list : list B) :
  length mask_list = length slice_list ->
  masks_where keep slice_list mask_list
  = Ok (map snd (filter (fun p => keep (fst p)) (combine slice_list mask_list))).
Proof.
  revert mask_list. induction slice_list as [|s l IH]; intros [|m ml] Hlen;
    simpl in *; try discriminate; [reflexivity|].
  injection Hlen as Hlen. destruct (keep s); simpl; rewrite (IH ml Hlen); reflexivity.
Qed.

Lemma masks_by_slice_pairs {A B : Type} (keep : A -> bool) (pairs : list (A * B)) :
  masks_by_slice keep (map snd pairs) (map fst pairs)
  = Ok (map snd (filter (fun p => keep (fst p)) pairs)).
Proof.
  induction pairs as [|[s m] l IH]; simpl; [reflexivity|].
  rewrite IH. simpl. now destruct (keep s).
Qed.

Lemma filter_map_fst {A B : Type} (keep : A -> bool) (pairs : list (A * B)) :
  filter keep (map fst pairs) = map fst (filter (fun p => keep (fst p)) pairs).
Proof.
  induction pairs as [|[s m] l IH]; simpl; [reflexivity|].
  destruct (keep s); simpl; now rewrite IH.
Qed.

Lemma matched_pairs_stage {A B C : Type} (g : A -> option B) (slice_list : list A)
    (mask_list : list C) :
  length mask_list = length slice_list ->
  map snd (filter (fun p => is_some (fst p)) (combine (map g slice_list) mask_list))
  = map snd (pair_matched g (combine slice_list mask_list))
  /\ drop_none (map g slice_list) = map fst (pair_matched g (combine slice_list mask_list)).
Proof.
  revert mask_list. induction slice_list as [|s l IH]; intros [|m ml] Hlen;
    simpl in *; try discriminate; [now split|].
  injection Hlen as Hlen. destruct (IH ml Hlen) as [IH1 IH2].
  unfold pair_matched in *. simpl.
  destruct (g s); simpl; rewrite IH1, IH2; now split.
Qed.

Lemma is_empty_map {A B : Type} (f : A -> B) (l : list A) :
  is_empty (map f l) = is_empty l.
Proof. now destruct l. Qed.

Section SliceMatching.

Context {collaborators : Collaborators}.

(** When at most one known slice position lies within the rounding tolerance
    of the scaled slice position, [_match_slice_position] does not raise: it
    returns the one index whose rounded difference is zero, or [None] when
    there is none. *)
Lemma match_slice_position_unique_or_none
    (slice_position : Q) (known_position : list Q) (image_spacing_z : Q) :
  (length (matching_indices slice_position known_position image_spacing_z) <= 1)%nat ->
  (exists i,
      _match_slice_position slice_position known_position image_spacing_z = Ok (Some i)
      /\ forall j, In j (matching_indices slice_position known_position image_spacing_z)
                   <-> j = i)
  \/ (_match_slice_position slice_position known_position image_spacing_z = Ok None
      /\ forall j, ~ In j (matching_indices slice_position known_position image_spacing_z)).
Proof.
  intros Hlen. rewrite match_slice_position_cases.
  destruct (matching_indices slice_position known_position image_spacing_z)
    as [|i [|j l]]; simpl in Hlen; try lia.
  - right. split; [reflexivity | intros j []].
  - left. exists i. split; [reflexivity|].
    intros j. simpl. split; [intros [<-|[]]; reflexivity | intros ->; now left].
Qed.

(** Two or more matching known positions make the method raise. *)
Lemma match_slice_position_ambiguous
    (slice_position : Q) (known_position : list Q) (image_spacing_z : Q) :
  (2 <= length (matching_indices slice_position known_position image_spacing_z))%nat ->
  _match_slice_position slice_position known_position image_spacing_z = Raise TypeError.
Proof.
  intros Hlen. rewrite match_slice_position_cases.
  destruct (matching_indices slice_position known_position image_spacing_z)
    as [|i [|j l]]; simpl in Hlen; try lia. reflexivity.
Qed.

(** The matching and range-checking part of [convert_contour_to_mask] on as
    many masks as slice positions, none of which matches two known
    positions: it does not raise, and it keeps exactly the slices that are
    matched to an index from 0 up to the out-of-plane dimension, each with
    its mask; slices without a match or out of range are dropped. *)
Lemma match_slices_drops_silently
    (image : ImageFile) (slice_list : list Q) (mask_list : list Slice2D) :
  length mask_list = length slice_list ->
  Forall (fun slice_position =>
            (length (matching_indices slice_position (get_slice_position image)
                       (c0 (image_spacing (grid image)))) <= 1)%nat)
         slice_list ->
  match_slices image slice_list mask_list
  = Ok (let kept := retained_slices image slice_list mask_list in
        if is_empty kept then None else Some (map fst kept, map snd kept)).
Proof.
  intros Hlen Hunique. unfold match_slices, retained_slices.
  set (g := fun slice_position =>
              matched_index slice_position (get_slice_position image)
                (c0 (image_spacing (grid image)))).
  set (dimension_z := fst (fst (image_dimension (grid image)))).
  rewrite (mapM_Ok_Forall _ g).
  2:{ eapply Forall_impl; [|exact Hunique]. intros s Hs. subst g. cbv beta in Hs |- *.
      rewrite match_slice_position_cases. unfold matched_index. revert Hs.
      destruct (matching_indices s (get_slice_position image)
                  (c0 (image_spacing (grid image)))) as [|i [|j l]];
        simpl; intros Hs; try lia; reflexivity. }
  cbn [bind].
  rewrite masks_where_combine by (now rewrite length_map).
  cbn [bind].
  destruct (matched_pairs_stage g slice_list mask_list Hlen) as [-> ->].
  set (pairs := pair_matched g (combine slice_list mask_list)).
  rewrite is_empty_map.
  destruct (is_empty pairs) eqn:Hpairs.
  { destruct pairs; [reflexivity | discriminate]. }
  rewrite masks_by_slice_pairs. cbn [bind]. rewrite filter_map_fst.
  set (pairs2 := filter (fun p => (0 <=? fst p)%Z) pairs).
  assert (filter (in_range dimension_z) pairs
          = filter (fun p => (fst p <? dimension_z)%Z) pairs2) as Hfilter.
  { subst pairs2. clear. induction pairs as [|p l IH]; simpl; [reflexivity|].
    unfold in_range at 1. destruct (0 <=? fst p)%Z; simpl; rewrite IH; reflexivity. }
  assert (filter (fun p => (Z.abs (fst p) <? dimension_z)%Z) pairs2
          = filter (fun p => (fst p <? dimension_z)%Z) pairs2) as Habs.
  { apply filter_ext_in. intros p Hp. subst pairs2.
    apply filter_In in Hp. destruct Hp as [_ Hp]. apply Z.leb_le in Hp.
    now rewrite Z.abs_eq. }
  rewrite is_empty_map. rewrite Hfilter.
  destruct (is_empty pairs2) eqn:Hpairs2.
  { destruct pairs2; [reflexivity | discriminate]. }
  rewrite masks_by_slice_pairs. cbn [bind]. rewrite filter_map_fst, Habs.
  rewrite is_empty_map.
  now destruct (is_empty (filter (fun p => (fst p <? dimension_z)%Z) pairs2)).
Qed.

(** C7, as amended. Provided that no rasterized slice position has two or
    more known slice positions within the rounding tolerance, and that the
    rasterizer returned one mask per slice position, slice matching does not
    raise: every slice position is matched to the one index whose difference
    (scaled by the out-of-plane spacing, rounded to 3 decimals) is zero, or
    to [None]; and the slices without a match, with a negative index or with
    an index at or above the out-of-plane dimension are dropped without an
    error, the others being kept with their masks. *)
Theorem slice_matching_drops_without_raising
    (image : ImageFile) (slice_list : list Q) (mask_list : list Slice2D) :
  let known_position := get_slice_position image in
  let image_spacing_z := c0 (image_spacing (grid image)) in
  length mask_list = length slice_list ->
  Forall (fun slice_position =>
            (length (matching_indices slice_position known_position image_spacing_z)
             <= 1)%nat)
         slice_list ->
  Forall (fun slice_position =>
            (exists i,
                _match_slice_position slice_position known_position image_spacing_z
                = Ok (Some i)
                /\ forall j,
                     In j (matching_indices slice_position known_position image_spacing_z)
                     <-> j = i)
            \/ (_match_slice_position slice_position known_position image_spacing_z
                = Ok None
                /\ forall j,
                     ~ In j (matching_indices slice_position known_position
                               image_spacing_z)))
         slice_list
  /\ match_slices image slice_list mask_list
     = Ok (let kept := retained_slices image slice_list mask_list in
           if is_empty kept then None else Some (map fst kept, map snd kept)).
Proof.
  intros known_position image_spacing_z Hlen Hunique. split.
  - eapply Forall_impl; [|exact Hunique].
    intros s Hs. now apply match_slice_position_unique_or_none.
  - now apply match_slices_drops_silently.
Qed.

End SliceMatching.

(** ** Connected components *)

Lemma voxel_eqb_eq (a b : Voxel) : voxel_eqb a b = true <-> a = b.
Proof.
  destruct a as [[az ay] ax], b as [[bz b_y] bx]. unfold voxel_eqb.
  rewrite !andb_true_iff, !Nat.eqb_eq. split.
  - intros [[-> ->] ->]. reflexivity.
  - intros [= -> -> ->]. auto.
Qed.

Lemma voxel_in_In (v : Voxel) (l : list Voxel) : voxel_in v l = true <-> In v l.
Proof.
  unfold voxel_in. rewrite existsb_exists. split.
  - intros (u & Hu & Heq). apply voxel_eqb_eq in Heq. now subst.
  - intros H. exists v. split; [exact H | now apply voxel_eqb_eq].
Qed.

Lemma neighbour_sym (c : nat) (a b : Voxel) : neighbour c a b = neighbour c b a.
Proof.
  destruct a as [[az ay] ax], b as [[bz b_y] bx]. unfold neighbour, step.
  now rewrite (Nat.add_comm (az - bz)), (Nat.add_comm (ay - b_y)), (Nat.add_comm (ax - bx)).
Qed.

Lemma grow_In (c : nat) (fg region : list Voxel) (v : Voxel) :
  In v (grow c fg region) <->
  In v fg /\ (In v region \/ exists u, In u region /\ neighbour c v u = true).
Proof.
  unfold grow. rewrite filter_In, orb_true_iff, voxel_in_In, existsb_exists.
  reflexivity.
Qed.

Lemma filter_length_le_length {A : Type} (p : A -> bool) (l : list A) :
  (length (filter p l) <= length l)%nat.
Proof. induction l as [|x l IH]; simpl; [lia|]. destruct (p x); simpl; lia. Qed.

Lemma filter_length_all {A : Type} (p : A -> bool) (l : list A) :
  (length l <= length (filter p l))%nat -> forall x, In x l -> p x = true.
Proof.
  induction l as [|y l IH]; simpl; [intros _ x []|].
  pose proof (filter_length_le_length p l) as Hle.
  destruct (p y) eqn:Hy; simpl; intros Hlen x [<-|Hx]; auto; try lia.
  apply IH; [lia | exact Hx].
Qed.

Lemma filter_length_mono {A : Type} (p q : A -> bool) (l : list A) :
  (forall x, In x l -> p x = true -> q x = true) ->
  (length (filter p l) <= length (filter q l))%nat.
Proof.
  induction l as [|y l IH]; simpl; intros H; [lia|].
  assert (length (filter p l) <= length (filter q l))%nat as IH' by (apply IH; auto).
  destruct (p y) eqn:Hp.
  - rewrite (H y (or_introl eq_refl) Hp). simpl. lia.
  - destruct (q y); simpl; lia.
Qed.

Lemma filter_length_strict {A : Type} (p q : A -> bool) (l : list A) (w : A) :
  (forall x, In x l -> p x = true -> q x = true) ->
  In w l -> p w = false -> q w = true ->
  (length (filter p l) < length (filter q l))%nat.
Proof.
  induction l as [|y l IH]; simpl; intros H Hw Hpw Hqw; [destruct Hw|].
  assert (length (filter p l) <= length (filter q l))%nat as Hle
    by (apply filter_length_mono; auto).
  destruct Hw as [->|Hw].
  - rewrite Hpw, Hqw. simpl. lia.
  - assert (length (filter p l) < length (filter q l))%nat as IH' by (apply IH; auto).
    destruct (p y) eqn:Hp.
    + rewrite (H y (or_introl eq_refl) Hp). simpl. lia.
    + destruct (q y); simpl; lia.
Qed.

Lemma filter_length_seed (seed : Voxel) (l : list Voxel) :
  In seed l -> (1 <= length (filter (fun v => voxel_in v [seed]) l))%nat.
Proof.
  induction l as [|y l IH]; [intros []|].
  intros Hseed. cbn [filter].
  destruct (voxel_in y [seed]) eqn:Hy; cbn [length]; [lia|].
  destruct Hseed as [->|Hs]; [|now apply IH].
  assert (voxel_in seed [seed] = true) by (apply voxel_in_In; now left). congruence.
Qed.

Section Regions.

Variable c : nat.
Variable fg : list Voxel.

Let inside (region : list Voxel) : Prop := forall v, In v region -> In v fg.


Lemma grow_inside (region : list Voxel) : inside (grow c fg region).
Proof. intros v Hv. now apply grow_In in Hv. Qed.

Lemma grow_extends (region : list Voxel) :
  inside region -> forall v, In v region -> In v (grow c fg region).
Proof. intros Hin v Hv. apply grow_In. split; [now apply Hin | now left]. Qed.

Lemma grow_n_inside (n : nat) (region : list Voxel) :
  inside region -> inside (grow_n n c fg region).
Proof.
  revert region. induction n as [|n IH]; intros region Hin; simpl; [exact Hin|].
  apply IH, grow_inside.
Qed.

Lemma grow_n_extends (n : nat) (region : list Voxel) :
  inside region -> forall v, In v region -> In v (grow_n n c fg region).
Proof.
  revert region. induction n as [|n IH]; intros region Hin v Hv; simpl; [exact Hv|].
  apply IH; [apply grow_inside | now apply grow_extends].
Qed.

Lemma closedb_grow (region : list Voxel) :
  inside region -> closedb c fg region = true -> closedb c fg (grow c fg region) = true.
Proof.
  intros Hin Hclosed. unfold closedb in *. rewrite forallb_forall in *.
  intros v Hv. apply voxel_in_In. apply grow_In in Hv. destruct Hv as [Hfg Hv].
  apply grow_In. split; [exact Hfg|].
  destruct Hv as [Hv|(u & Hu & Hnb)].
  - left. apply voxel_in_In. now apply Hclosed.
  - right. exists u. split; [|exact Hnb]. apply voxel_in_In. now apply Hclosed.
Qed.

Lemma covered_grows (region : list Voxel) :
  inside region -> closedb c fg region = false ->
  (covered fg region < covered fg (grow c fg region))%nat.
Proof.
  intros Hin Hopen. unfold closedb in Hopen.
  assert (exists w, In w (grow c fg region) /\ voxel_in w region = false) as (w & Hw & Hout).
  { clear Hin. induction (grow c fg region) as [|y l IH]; simpl in Hopen; [discriminate|].
    destruct (voxel_in y region) eqn:Hy; simpl in Hopen.
    - destruct (IH Hopen) as (w & Hw & Hout). exists w. split; [now right | exact Hout].
    - exists y. split; [now left | exact Hy]. }
  unfold covered. apply (filter_length_strict _ _ fg w).
  - intros x Hx Hxr. apply voxel_in_In. apply grow_extends; [exact Hin|].
    now apply voxel_in_In.
  - now apply grow_inside in Hw.
  - exact Hout.
  - now apply voxel_in_In.
Qed.

Lemma grow_n_closed (n : nat) (region : list Voxel) :
  inside region -> (length fg <= covered fg region + n)%nat ->
  closedb c fg (grow_n n c fg region) = true.
Proof.
  revert region. induction n as [|n IH]; intros region Hin Hlen; simpl.
  - unfold closedb. rewrite forallb_forall. intros v Hv.
    apply grow_inside in Hv.
    apply (filter_length_all (fun v => voxel_in v region) fg); [|exact Hv].
    unfold covered in Hlen. lia.
  - destruct (closedb c fg region) eqn:Hclosed.
    + assert (forall m r, inside r -> closedb c fg r = true ->
                          closedb c fg (grow_n m c fg r) = true) as Hkeep.
      { clear. intros m. induction m as [|m IHm]; intros r Hr Hc; simpl; [exact Hc|].
        apply IHm; [apply grow_inside | now apply closedb_grow]. }
      apply Hkeep; [apply grow_inside | now apply closedb_grow].
    + apply IH; [apply grow_inside|].
      pose proof (covered_grows region Hin Hclosed). lia.
Qed.

Lemma grow_n_sound (seed : Voxel) (n : nat) (region : list Voxel) :
  (forall v, In v region -> connected c fg seed v) ->
  forall v, In v (grow_n n c fg region) -> connected c fg seed v.
Proof.
  revert region. induction n as [|n IH]; intros region Hregion v Hv; simpl in Hv;
    [now apply Hregion|].
  apply (IH (grow c fg region)); [|exact Hv].
  intros w Hw. apply grow_In in Hw. destruct Hw as [Hfg [Hw|(u & Hu & Hnb)]].
  - now apply Hregion.
  - apply (connected_step c fg seed u w); [now apply Hregion | exact Hfg|].
    now rewrite neighbour_sym.
Qed.

(** The region grown from a seed is the set of voxels connected to it. *)
Lemma component_connected (seed v : Voxel) :
  In seed fg -> (In v (component c fg seed) <-> connected c fg seed v).
Proof.
  intros Hseed. unfold component.
  assert (inside [seed]) as Hin by (intros w [<-|[]]; exact Hseed).
  split.
  - apply grow_n_sound. intros w [<-|[]]. now constructor.
  - assert (closedb c fg (grow_n (length fg) c fg [seed]) = true) as Hclosed.
    { apply grow_n_closed; [exact Hin|]. unfold covered.
      pose proof (filter_length_seed seed fg Hseed). lia. }
    unfold closedb in Hclosed. rewrite forallb_forall in Hclosed.
    induction 1 as [Hs|u w Hu IH Hw Hnb].
    + apply grow_n_extends; [exact Hin | now left].
    + apply voxel_in_In, Hclosed, grow_In. split; [exact Hw|].
      right. exists u. split; [exact IH | now rewrite neighbour_sym].
Qed.

Lemma connected_inside (seed v : Voxel) : connected c fg seed v -> In v fg.
Proof. now destruct 1. Qed.

Lemma connected_trans (u v w : Voxel) :
  connected c fg u v -> connected c fg v w -> connected c fg u w.
Proof.
  intros Huv Hvw. induction Hvw as [Hv|x y Hx IH Hy Hnb]; [exact Huv|].
  now apply (connected_step c fg u x y).
Qed.

Lemma connected_sym (u v : Voxel) : connected c fg u v -> connected c fg v u.
Proof.
  induction 1 as [Hu|x y Hx IH Hy Hnb]; [now constructor|].
  apply (connected_trans y x u); [|exact IH].
  apply (connected_step c fg y y x); [now constructor | now apply connected_inside in Hx|].
  now rewrite neighbour_sym.
Qed.

End Regions.

(** The regions of [label]: each is the component of one of the true voxels,
    they cover the true voxels, and no two of them share a voxel. *)
Lemma components_are_components (c : nat) (fg : list Voxel) (fuel : nat)
    (remaining : list Voxel) (r : list Voxel) :
  (forall v, In v remaining -> In v fg) ->
  In r (components fuel c fg remaining) ->
  exists seed, In seed remaining /\ r = component c fg seed.
Proof.
  revert remaining. induction fuel as [|fuel IH]; intros remaining Hin Hr;
    [destruct Hr|].
  destruct remaining as [|seed rest]; [destruct Hr|].
  cbn [components] in Hr. destruct Hr as [<-|Hr].
  - exists seed. split; [now left | reflexivity].
  - apply IH in Hr.
    + destruct Hr as (s & Hs & ->). exists s. split; [|reflexivity].
      now apply filter_In in Hs.
    + intros v Hv. apply filter_In in Hv. now apply Hin.
Qed.

Lemma components_cover (c : nat) (fg : list Voxel) (fuel : nat)
    (remaining : list Voxel) (v : Voxel) :
  (length remaining <= fuel)%nat ->
  (forall u, In u remaining -> In u fg) ->
  In v remaining ->
  exists r, In r (components fuel c fg remaining) /\ In v r.
Proof.
  revert remaining. induction fuel as [|fuel IH]; intros remaining Hlen Hin Hv.
  - destruct remaining; [destruct Hv | simpl in Hlen; lia].
  - destruct remaining as [|seed rest]; [destruct Hv|].
    cbn [components].
    set (region := component c fg seed).
    destruct (voxel_in v region) eqn:Hvr.
    + exists region. split; [now left | now apply voxel_in_In].
    + assert (In seed region) as Hseed.
      { apply component_connected; [apply Hin; now left|].
        constructor. apply Hin. now left. }
      destruct (IH (filter (fun u => negb (voxel_in u region)) (seed :: rest)))
        as (r & Hr & Hvr').
      * cbn [filter]. apply voxel_in_In in Hseed. rewrite Hseed. cbn [negb].
        pose proof (filter_length_le_length (fun u => negb (voxel_in u region)) rest).
        simpl in Hlen. lia.
      * intros u Hu. apply filter_In in Hu. now apply Hin.
      * apply filter_In. split; [exact Hv | now rewrite Hvr].
      * exists r. split; [now right | exact Hvr'].
Qed.

Lemma components_disjoint (c : nat) (fg : list Voxel) (fuel : nat)
    (remaining : list Voxel) :
  (forall v, In v remaining -> In v fg) ->
  ForallOrdPairs (fun r r' => forall v, In v r -> In v r' -> False)
                 (components fuel c fg remaining).
Proof.
  revert remaining. induction fuel as [|fuel IH]; intros remaining Hin; [constructor|].
  destruct remaining as [|seed rest]; [constructor|].
  cbn [components]. set (region := component c fg seed).
  assert (forall v, In v (filter (fun u => negb (voxel_in u region)) (seed :: rest)) ->
                    In v fg) as Hin'
    by (intros v Hv; apply filter_In in Hv; now apply Hin).
  constructor; [|now apply IH].
  apply Forall_forall. intros r Hr v Hv Hv'.
  apply components_are_components in Hr; [|exact Hin'].
  destruct Hr as (s & Hs & ->). apply filter_In in Hs. destruct Hs as [Hs Hout].
  assert (In seed fg) as Hseed by (apply Hin; now left).
  assert (In s fg) as Hsfg by now apply Hin.
  apply component_connected in Hv; [|exact Hseed].
  apply component_connected in Hv'; [|exact Hsfg].
  assert (In s region) as Hcontra.
  { apply component_connected; [exact Hseed|].
    apply (connected_trans c fg seed v s); [exact Hv | now apply connected_sym]. }
  apply voxel_in_In in Hcontra. rewrite Hcontra in Hout. discriminate.
Qed.

(** [np.argmax]: an index of the largest entry, and the first of them. *)
Lemma argmax_from_spec (l : list nat) (best_index best i : nat) :
  let k := argmax_from best_index best i l in
  (k = best_index /\ Forall (fun x => x <= best)%nat l)
  \/ ((i <= k < i + length l)%nat
      /\ (best < nth (k - i) l 0)%nat
      /\ (forall j, (j < k - i)%nat -> (nth j l 0 < nth (k - i) l 0)%nat)
      /\ Forall (fun x => x <= nth (k - i) l 0)%nat l).
Proof.
  revert best_index best i. induction l as [|x l IH]; intros best_index best i; simpl.
  - left. split; [reflexivity | constructor].
  - destruct (best <? x)%nat eqn:Hlt.
    + apply Nat.ltb_lt in Hlt. right.
      destruct (IH i x (S i)) as [[Hk Hall]|(Hk & Hbest & Hfirst & Hall)].
      * rewrite Hk, Nat.sub_diag. simpl.
        repeat split; try lia. constructor; [lia | exact Hall].
      * set (k := argmax_from i x (S i) l) in *.
        replace (k - i)%nat with (S (k - S i)) by lia. simpl.
        repeat split; try lia.
        -- intros [|j] Hj; [lia|]. apply Hfirst. lia.
        -- constructor; [lia | exact Hall].
    + apply Nat.ltb_ge in Hlt.
      destruct (IH best_index best (S i)) as [[Hk Hall]|(Hk & Hbest & Hfirst & Hall)].
      * left. split; [exact Hk|]. constructor; [exact Hlt | exact Hall].
      * right. set (k := argmax_from best_index best (S i) l) in *.
        replace (k - i)%nat with (S (k - S i)) by lia. simpl.
        repeat split; try lia.
        -- intros [|j] Hj; [lia|]. apply Hfirst. lia.
        -- constructor; [lia | exact Hall].
Qed.

Lemma argmax_spec (l : list nat) (k : nat) :
  argmax l = Ok k ->
  (k < length l)%nat
  /\ (forall j, (nth j l 0 <= nth k l 0)%nat)
  /\ (forall j, (j < k)%nat -> (nth j l 0 < nth k l 0)%nat).
Proof.
  destruct l as [|x l]; [discriminate|]. simpl. intros [= <-].
  assert (forall (m : list nat) (b : nat), Forall (fun y => y <= b)%nat m ->
                                           forall j, (nth j m 0 <= b)%nat) as Hnth.
  { intros m b Hm j. destruct (Nat.lt_ge_cases j (length m)) as [Hj|Hj].
    - rewrite Forall_forall in Hm. apply Hm, nth_In, Hj.
    - rewrite nth_overflow by exact Hj. lia. }
  destruct (argmax_from_spec l 0 x 1) as [[Hk Hall]|(Hk & Hbest & Hfirst & Hall)].
  - rewrite Hk. repeat split; try lia.
    intros [|j]; [lia | now apply Hnth].
  - set (k := argmax_from 0 x 1 l) in *.
    destruct k as [|k]; [lia|]. simpl in *. rewrite Nat.sub_0_r in *.
    repeat split; try lia.
    + intros [|j]; [lia | now apply Hnth].
    + intros [|j] Hj; [exact Hbest | apply Hfirst; lia].
Qed.

(** Volumes, voxel by voxel. *)
Lemma nth_true_nth_error (row : list bool) (x : nat) :
  nth x row false = true <-> nth_error row x = Some true.
Proof.
  revert x. induction row as [|b row IH]; intros [|x]; simpl;
    try (split; discriminate).
  - split; [now intros -> | now intros [= ->]].
  - apply IH.
Qed.

Lemma voxel_at_true (volume : Volume) (z y x : nat) :
  voxel_at volume (z, y, x) = true <->
  exists slice row,
    nth_error volume z = Some slice /\ nth_error slice y = Some row
    /\ nth_error row x = Some true.
Proof.
  unfold voxel_at. rewrite nth_true_nth_error. split.
  - intros H.
    destruct (nth_error volume z) as [slice|] eqn:Hz.
    + rewrite (nth_error_nth _ _ _ Hz) in H.
      destruct (nth_error slice y) as [row|] eqn:Hy.
      * rewrite (nth_error_nth _ _ _ Hy) in H. eauto.
      * apply nth_error_None in Hy. rewrite (nth_overflow slice [] Hy) in H.
        now destruct x.
    + apply nth_error_None in Hz. rewrite (nth_overflow volume [] Hz) in H.
      destruct y, x; discriminate.
  - intros (slice & row & Hz & Hy & Hx).
    now rewrite (nth_error_nth _ _ _ Hz), (nth_error_nth _ _ _ Hy).
Qed.

Lemma enumerate_from_In {A : Type} (k i : nat) (a : A) (l : list A) :
  In (i, a) (enumerate_from k l) <-> (k <= i)%nat /\ nth_error l (i - k) = Some a.
Proof.
  revert k. induction l as [|b l IH]; intros k; simpl.
  - split; [intros [] | intros [_ H]; now destruct (i - k)%nat].
  - rewrite IH. split.
    + intros [[= <- <-]|[Hle H]].
      * rewrite Nat.sub_diag. split; [lia | reflexivity].
      * split; [lia|]. replace (i - k)%nat with (S (i - S k)) by lia. exact H.
    + intros [Hle H]. destruct (i - k)%nat as [|n] eqn:E.
      * left. injection H as ->. f_equal. lia.
      * right. split; [lia|]. replace (i - S k)%nat with n by lia. exact H.
Qed.

Lemma enumerate_In {A : Type} (i : nat) (a : A) (l : list A) :
  In (i, a) (enumerate l) <-> nth_error l i = Some a.
Proof.
  unfold enumerate. rewrite enumerate_from_In, Nat.sub_0_r.
  split; [now intros [_ H] | intros H; split; [lia | exact H]].
Qed.

(** The list [foreground] holds the true voxels. *)
Lemma foreground_In (volume : Volume) (v : Voxel) :
  In v (foreground volume) <-> voxel_at volume v = true.
Proof.
  destruct v as [[z y] x]. rewrite voxel_at_true. unfold foreground. split.
  - intros H. apply in_flat_map in H. destruct H as ([z' slice] & Hz & H).
    apply in_flat_map in H. destruct H as ([y' row] & Hy & H).
    apply in_flat_map in H. destruct H as ([x' b] & Hx & H).
    destruct b; [|destruct H]. destruct H as [[= <- <- <-]|[]].
    apply enumerate_In in Hz, Hy, Hx. eauto.
  - intros (slice & row & Hz & Hy & Hx).
    apply in_flat_map. exists (z, slice). split; [now apply enumerate_In|].
    apply in_flat_map. exists (y, row). split; [now apply enumerate_In|].
    apply in_flat_map. exists (x, true). split; [now apply enumerate_In | now left].
Qed.

Lemma nth_error_map_enumerate_from {A B : Type} (f : nat * A -> B) (k i : nat)
    (l : list A) :
  nth_error (map f (enumerate_from k l)) i
  = option_map (fun a => f ((k + i)%nat, a)) (nth_error l i).
Proof.
  revert k i. induction l as [|a l IH]; intros k [|i]; simpl; try reflexivity.
  - now rewrite Nat.add_0_r.
  - rewrite IH. now replace (S k + i)%nat with (k + S i)%nat by lia.
Qed.

Lemma nth_error_map_enumerate {A B : Type} (f : nat * A -> B) (i : nat) (l : list A) :
  nth_error (map f (enumerate l)) i = option_map (fun a => f (i, a)) (nth_error l i).
Proof. unfold enumerate. now rewrite nth_error_map_enumerate_from. Qed.

Lemma label_equals_true (volume : Volume) (regions : list (list Voxel)) (k : nat)
    (v : Voxel) :
  (forall u, In u (nth k regions []) -> voxel_at volume u = true) ->
  (voxel_at (label_equals volume regions k) v = true <-> In v (nth k regions [])).
Proof.
  intros Hregion. destruct v as [[z y] x]. rewrite voxel_at_true.
  unfold label_equals. split.
  - intros (slice & row & Hz & Hy & Hx).
    rewrite nth_error_map_enumerate in Hz. revert Hz.
    destruct (@nth_error (list (list bool)) volume z) as [slice0|]; [|cbn [option_map]; discriminate].
    cbn [option_map]. intros [= <-].
    rewrite nth_error_map_enumerate in Hy. revert Hy.
    destruct (@nth_error (list bool) slice0 y) as [row0|]; [|cbn [option_map]; discriminate].
    cbn [option_map]. intros [= <-].
    rewrite nth_error_map_enumerate in Hx. revert Hx.
    destruct (nth_error row0 x) as [b|]; [|cbn [option_map]; discriminate].
    cbn [option_map]. intros [= Hx].
    now apply voxel_in_In.
  - intros Hv. pose proof (Hregion _ Hv) as Hat. apply voxel_at_true in Hat.
    destruct Hat as (slice & row & Hz & Hy & Hx). unfold Slice2D in *.
    eexists. eexists. rewrite nth_error_map_enumerate, Hz. cbn [option_map].
    split; [reflexivity|]. rewrite nth_error_map_enumerate, Hy. cbn [option_map].
    split; [reflexivity|]. rewrite nth_error_map_enumerate, Hx. cbn [option_map].
    f_equal. now apply voxel_in_In.
Qed.

Lemma length_map_enumerate_from {A B : Type} (f : nat * A -> B) (k : nat) (l : list A) :
  length (map f (enumerate_from k l)) = length l.
Proof. revert k. induction l as [|a l IH]; intros k; simpl; [reflexivity | now rewrite IH]. Qed.

Lemma label_equals_shape (volume : Volume) (regions : list (list Voxel)) (k : nat) :
  shape (label_equals volume regions k) = shape volume.
Proof.
  unfold shape, label_equals.
  assert (forall (g : nat -> nat * bool -> bool) (slice : Slice2D) (ky : nat),
             map (@length bool)
               (map (fun '(y, row) => map (g y) (enumerate row)) (enumerate_from ky slice))
             = map (@length bool) slice) as Hrows.
  { intros g slice. induction slice as [|row slice IH]; intros ky; simpl; [reflexivity|].
    rewrite IH. f_equal. apply length_map_enumerate_from. }
  assert (forall kz,
             map (map (@length bool))
               (map (fun '(z, slice) =>
                       map (fun '(y, row) =>
                              map (fun '(x, _) => voxel_in (z, y, x) (nth k regions []))
                                  (enumerate row))
                           (enumerate slice))
                    (enumerate_from kz volume))
             = map (map (@length bool)) volume) as H; [|apply H].
  induction volume as [|slice volume IH]; intros kz; simpl; [reflexivity|].
  rewrite IH. f_equal.
  apply (Hrows (fun y '(x, _) => voxel_in (kz, y, x) (nth k regions []))).
Qed.

(** What [label] returns. *)
Lemma label_regions (volume : Volume) (c : nat) (r : list Voxel) :
  In r (label volume c) ->
  exists seed,
    voxel_at volume seed = true
    /\ forall v, In v r <-> connected c (foreground volume) seed v.
Proof.
  unfold label. intros Hr.
  apply components_are_components in Hr; [|auto].
  destruct Hr as (seed & Hseed & ->). exists seed. split; [now apply foreground_In|].
  intros v. now apply component_connected.
Qed.

Lemma label_covers (volume : Volume) (c : nat) (v : Voxel) :
  voxel_at volume v = true -> exists r, In r (label volume c) /\ In v r.
Proof.
  intros Hv. unfold label. apply components_cover; auto.
  now apply foreground_In.
Qed.

Lemma label_disjoint (volume : Volume) (c : nat) :
  ForallOrdPairs (fun r r' => forall v, In v r -> In v r' -> False) (label volume c).
Proof. unfold label. now apply components_disjoint. Qed.

Lemma label_nonempty (volume : Volume) (c : nat) :
  any volume = true -> label volume c <> [].
Proof.
  intros Hany Hnil.
  assert (exists v, voxel_at volume v = true) as (v & Hv).
  { unfold any in Hany. apply existsb_exists in Hany. destruct Hany as (slice & Hs & Hany).
    apply existsb_exists in Hany. destruct Hany as (row & Hr & Hany).
    apply existsb_exists in Hany. destruct Hany as (b & Hb & ->).
    apply In_nth_error in Hs, Hr, Hb.
    destruct Hs as [z Hz], Hr as [y Hy], Hb as [x Hx].
    exists (z, y, x). apply voxel_at_true. eauto. }
  destruct (label_covers volume c v Hv) as (r & Hr & _). rewrite Hnil in Hr. destruct Hr.
Qed.

Section ConnectivityFilter.

Context {collaborators : Collaborators}.

(** The policy only decides what is done to the assembled volume, which is
    what the method returns under "keep_as_is". *)
Lemma convert_by_policy (self : MaskDicomFileRTSTRUCT) (roi : ROIContour)
    (image : option ImageFile) (draw_method policy : string) :
  convert_contour_to_mask self roi image draw_method policy
  = match convert_contour_to_mask self roi image draw_method "keep_as_is" with
    | Ok (Some roi_mask) =>
        if String.eqb policy "keep_largest"
        then roi_mask' <- keep_largest roi_mask ;; Ok (Some roi_mask')
        else Ok (Some roi_mask)
    | other => other
    end.
Proof.
  unfold convert_contour_to_mask.
  destruct image as [image|]; [|reflexivity].
  destruct (_collect_contours roi) as [[contour_objects|]|e]; cbn [bind]; try reflexivity.
  destruct (zeros _) as [roi_mask|e]; cbn [bind]; [|reflexivity].
  destruct (_merge_contours _) as [merged|e]; cbn [bind]; [|reflexivity].
  destruct (draw _ _ _) as [[slice_list mask_list]|e]; cbn [bind]; [|reflexivity].
  destruct (is_empty slice_list); [reflexivity|].
  destruct (match_slices _ _ _) as [[[slice_list' mask_list']|]|e]; cbn [bind];
    try reflexivity.
  destruct (set_mask _ _ _) as [roi_mask'|e]; cbn [bind]; [|reflexivity].
  change (String.eqb "keep_as_is" "keep_largest") with false. cbn iota.
  reflexivity.
Qed.

(** What the block under "keep_largest" returns for a volume with a true
    voxel. *)
Lemma keep_largest_spec (roi_mask : Volume) :
  any roi_mask = true ->
  let regions := label roi_mask 2 in
  exists k region roi_mask',
    keep_largest roi_mask = Ok roi_mask'
    /\ nth_error regions k = Some region
    /\ (forall j, (j < length regions)%nat ->
                  (sum (label_equals roi_mask regions j) <= sum roi_mask')%nat
                  /\ ((j < k)%nat ->
                      (sum (label_equals roi_mask regions j) < sum roi_mask')%nat))
    /\ shape roi_mask' = shape roi_mask
    /\ forall v, voxel_at roi_mask' v = true <-> In v region.
Proof.
  intros Hany regions. unfold keep_largest. fold regions.
  pose proof (label_nonempty roi_mask 2 Hany) as Hne. fold regions in Hne.
  set (size := fun ii => sum (label_equals roi_mask regions ii)).
  destruct (argmax (map size (seq 0 (length regions)))) as [k|e] eqn:Hargmax.
  2:{ destruct regions; [contradiction | discriminate]. }
  apply argmax_spec in Hargmax. destruct Hargmax as (Hk & Hmax & Hfirst).
  rewrite length_map, length_seq in Hk.
  destruct (nth_error regions k) as [region|] eqn:Hregion;
    [|apply nth_error_None in Hregion; lia].
  assert (nth k regions [] = region) as Hnth by now apply nth_error_nth.
  assert (forall j, (j < length regions)%nat ->
                    nth j (map size (seq 0 (length regions))) 0%nat = size j) as Hsize.
  { intros j Hj. rewrite (nth_indep _ 0%nat (size 0%nat))
      by (now rewrite length_map, length_seq).
    rewrite map_nth. now rewrite seq_nth. }
  exists k, region, (label_equals roi_mask regions k). cbn [bind].
  split; [reflexivity|]. split; [exact Hregion|]. split; [|split].
  - intros j Hj. fold (size j). fold (size k).
    rewrite <- (Hsize j Hj), <- (Hsize k Hk). split; [apply Hmax | apply Hfirst].
  - apply label_equals_shape.
  - intros v. rewrite <- Hnth. apply label_equals_true.
    rewrite Hnth. intros u Hu.
    destruct (label_regions roi_mask 2 region) as (seed & _ & Hseed).
    { eapply nth_error_In. exact Hregion. }
    apply foreground_In. apply Hseed in Hu. now apply connected_inside in Hu.
Qed.

(** C8, as amended. When the assembled volume (the result under the default
    policy "keep_as_is", returned as it is) has a true voxel, the policy
    "keep_largest" returns a volume of the same shape whose true voxels are
    exactly those of one region of the labelling with [connectivity=2]: the
    voxels that chains of true voxels sharing a face or an edge (not only a
    corner) connect to a seed; no label has more voxels, and every lower
    label has fewer.  Any policy other than "keep_largest" returns the
    assembled volume. *)
Theorem convert_keep_largest_face_edge_component
    (self : MaskDicomFileRTSTRUCT) (roi : ROIContour) (image : option ImageFile)
    (draw_method : string) (roi_mask : Volume) :
  convert_contour_to_mask self roi image draw_method "keep_as_is" = Ok (Some roi_mask) ->
  any roi_mask = true ->
  let regions := label roi_mask 2 in
  (forall policy,
      String.eqb policy "keep_largest" = false ->
      convert_contour_to_mask self roi image draw_method policy = Ok (Some roi_mask))
  /\ exists k region seed roi_mask',
       convert_contour_to_mask self roi image draw_method "keep_largest"
       = Ok (Some roi_mask')
       /\ nth_error regions k = Some region
       /\ voxel_at roi_mask seed = true
       /\ (forall v, In v region <-> connected 2 (foreground roi_mask) seed v)
       /\ shape roi_mask' = shape roi_mask
       /\ (forall v, voxel_at roi_mask' v = true <-> In v region)
       /\ (forall j, (j < length regions)%nat ->
                     (sum (label_equals roi_mask regions j) <= sum roi_mask')%nat
                     /\ ((j < k)%nat ->
                         (sum (label_equals roi_mask regions j) < sum roi_mask')%nat)).
Proof.
  intros Hassembled Hany regions. split.
  - intros policy Hpolicy. rewrite convert_by_policy, Hassembled. now rewrite Hpolicy.
  - destruct (keep_largest_spec roi_mask Hany)
      as (k & region & roi_mask' & Hkeep & Hregion & Hlargest & Hshape & Hvoxels).
    destruct (label_regions roi_mask 2 region) as (seed & Hseed & Hconnected).
    { eapply nth_error_In. exact Hregion. }
    exists k, region, seed, roi_mask'.
    rewrite convert_by_policy, Hassembled.
    change (String.eqb "keep_largest" "keep_largest") with true. cbn iota.
    rewrite Hkeep. cbn [bind].
    split; [reflexivity|]. split; [exact Hregion|].
    split; [exact Hseed|]. split; [exact Hconnected|].
    split; [exact Hshape|]. split; [exact Hvoxels | exact Hlargest].
Qed.

(** Without a true voxel in the assembled volume there is no region, and
    "keep_largest" raises the [ValueError] of [np.argmax]. *)
Lemma keep_largest_raises_on_empty (roi_mask : Volume) :
  foreground roi_mask = [] -> keep_largest roi_mask = Raise ValueError.
Proof. intros H. unfold keep_largest, label. now rewrite H. Qed.

End ConnectivityFilter.

Section EmittedMasks.

Context {collaborators : Collaborators}.

Lemma grid_eta (g : Grid) :
  {| image_origin := image_origin g;
     image_spacing := image_spacing g;
     image_dimension := image_dimension g;
     image_orientation := image_orientation g |} = g.
Proof. now destruct g. Qed.

(** Every mask that [roi_to_mask] builds carries origin, spacing and
    orientation of the reference image, whether the mask was drawn on that
    image or on a temporary one; its dimension is what the completion of the
    copy makes of the dimension of the reference image and the array. *)
Lemma roi_to_mask_grid (self : MaskDicomFileRTSTRUCT) (image : ImageFile)
    (policy : string) (names : list (option string)) (numbers : list (option Z))
    (roi : ROIContour) (mask : BaseMask) :
  roi_to_mask self image policy names numbers roi = Ok (Some mask) ->
  image_origin (mask_grid mask) = image_origin (grid image)
  /\ image_spacing (mask_grid mask) = image_spacing (grid image)
  /\ image_orientation (mask_grid mask) = image_orientation (grid image)
  /\ complete_dimension self (image_dimension (grid image)) (mask_image_data mask)
     = Ok (image_dimension (mask_grid mask)).
Proof.
  unfold roi_to_mask. destruct (negb (number_in _ _)); [discriminate|].
  intros H. apply bind_Ok_inv in H. destruct H as ([[use_reference uo] up] & _ & H).
  apply bind_Ok_inv in H. destruct H as ([image_data|] & _ & H); [|discriminate].
  destruct (negb (any image_data)); [discriminate|].
  apply bind_Ok_inv in H. destruct H as (dimension & Hdimension & H).
  apply bind_Ok_inv in H. destruct H as (name & _ & H).
  injection H as <-. cbn [mask_grid mask_image_data image_origin image_spacing
                          image_orientation image_dimension].
  repeat split. exact Hdimension.
Qed.

(** The masks that [to_object] emits all carry origin, spacing and
    orientation of the reference image. *)
Lemma to_object_masks_carry_reference_grid (self : MaskDicomFileRTSTRUCT)
    (image : ImageFile) (policy : string) (masks : list BaseMask) :
  to_object self (Some image) policy = Ok (Some masks) ->
  Forall (fun mask =>
            image_origin (mask_grid mask) = image_origin (grid image)
            /\ image_spacing (mask_grid mask) = image_spacing (grid image)
            /\ image_orientation (mask_grid mask) = image_orientation (grid image)
            /\ complete_dimension self (image_dimension (grid image))
                 (mask_image_data mask)
               = Ok (image_dimension (mask_grid mask))) masks.
Proof.
  unfold to_object. destruct (negb (check_mask self)); [discriminate|].
  intros H. apply bind_Ok_inv in H. destruct H as (rois & _ & H).
  destruct (match provided_roi_names self with
            | Some names => _
            | None => _
            end) as [numbers names].
  destruct (is_empty numbers); [discriminate|].
  apply bind_Ok_inv in H. destruct H as (roi_contours & _ & H).
  apply bind_Ok_inv in H. destruct H as (results & Hresults & H).
  destruct (is_empty (drop_none results)) eqn:E; [discriminate|].
  injection H as <-. apply Forall_forall. intros mask Hmask.
  apply drop_none_In in Hmask.
  pose proof (mapM_Ok_each _ _ _ Hresults) as Heach.
  rewrite Forall_forall in Heach. destruct (Heach _ Hmask) as (roi & _ & Hroi).
  now apply roi_to_mask_grid in Hroi.
Qed.

(** The image on which the array of a mask was drawn: the reference image
    when the selector accepts it, the temporary image otherwise. *)
Lemma roi_to_mask_drawn (self : MaskDicomFileRTSTRUCT) (image : ImageFile)
    (policy : string) (names : list (option string)) (numbers : list (option Z))
    (roi : ROIContour) (mask : BaseMask) :
  roi_to_mask self image policy names numbers roi = Ok (Some mask) ->
  exists use_reference_image use_orientation use_position drawing_image,
    _convert_contour_using_image self roi (Some image)
    = Ok (use_reference_image, use_orientation, use_position)
    /\ (if use_reference_image then drawing_image = image
        else _create_image_from_contour self roi image use_orientation use_position
             = Ok drawing_image)
    /\ convert_contour_to_mask self roi (Some drawing_image) "ray_cast" policy
       = Ok (Some (mask_image_data mask)).
Proof.
  unfold roi_to_mask. destruct (negb (number_in _ _)); [discriminate|].
  intros H. apply bind_Ok_inv in H.
  destruct H as ([[use_reference uo] up] & Hstrategy & H).
  apply bind_Ok_inv in H. destruct H as ([image_data|] & Hdata & H); [|discriminate].
  destruct (negb (any image_data)); [discriminate|].
  apply bind_Ok_inv in H. destruct H as (dimension & _ & H).
  apply bind_Ok_inv in H. destruct H as (name & _ & H).
  injection H as <-. cbn [mask_image_data].
  exists use_reference, uo, up.
  destruct use_reference; cbn [negb] in Hdata.
  - exists image. repeat split; assumption.
  - apply bind_Ok_inv in Hdata. destruct Hdata as (temporary_image & Hcreate & Hdata).
    exists temporary_image. repeat split; assumption.
Qed.

(** C1. Every mask that [to_object] emits holds the array that was drawn on
    the reference image when the selector accepted that image, and on the
    temporary image made by [_create_image_from_contour] when the selector
    rejected it; in both cases the mask carries the origin, the spacing and
    the orientation of the REFERENCE image.  Origin, spacing and orientation
    of the temporary image do not reach the mask. *)
Theorem to_object_emits_reference_grid_for_synthetic_mask
    (self : MaskDicomFileRTSTRUCT) (image : ImageFile) (policy : string)
    (masks : list BaseMask) :
  to_object self (Some image) policy = Ok (Some masks) ->
  exists items,
    roi_contour_sequence (image_metadata self) = Some items
    /\ Forall
         (fun mask =>
            exists roi use_reference_image use_orientation use_position drawing_image,
              In roi items
              /\ _convert_contour_using_image self roi (Some image)
                 = Ok (use_reference_image, use_orientation, use_position)
              /\ (if use_reference_image then drawing_image = image
                  else _create_image_from_contour self roi image
                         use_orientation use_position = Ok drawing_image)
              /\ convert_contour_to_mask self roi (Some drawing_image) "ray_cast" policy
                 = Ok (Some (mask_image_data mask))
              /\ image_origin (mask_grid mask) = image_origin (grid image)
              /\ image_spacing (mask_grid mask) = image_spacing (grid image)
              /\ image_orientation (mask_grid mask) = image_orientation (grid image))
         masks.
Proof.
  unfold to_object. destruct (negb (check_mask self)); [discriminate|].
  intros H. apply bind_Ok_inv in H. destruct H as (rois & _ & H).
  destruct (match provided_roi_names self with
            | Some names => _
            | None => _
            end) as [numbers names].
  destruct (is_empty numbers); [discriminate|].
  destruct (roi_contour_sequence (image_metadata self)) as [items|]; [|discriminate].
  cbn [subscript bind] in H.
  apply bind_Ok_inv in H. destruct H as (results & Hresults & H).
  destruct (is_empty (drop_none results)) eqn:E; [discriminate|].
  injection H as <-. exists items. split; [reflexivity|].
  apply Forall_forall. intros mask Hmask.
  apply drop_none_In in Hmask.
  pose proof (mapM_Ok_each _ _ _ Hresults) as Heach.
  rewrite Forall_forall in Heach. destruct (Heach _ Hmask) as (roi & Hroi & Hmade).
  destruct (roi_to_mask_drawn _ _ _ _ _ _ _ Hmade)
    as (use_reference & uo & up & drawing_image & Hstrategy & Hdrawing & Hdrawn).
  destruct (roi_to_mask_grid _ _ _ _ _ _ _ Hmade) as (Ho & Hs & Hr & _).
  exists roi, use_reference, uo, up, drawing_image.
  repeat split; assumption.
Qed.

(** Whatever signs the singular vectors of the SVD carry, the orientation
    synthesized for the rectangle [Examples.roi_coronal] is not the
    orientation of the reference image [Examples.reference_image], the
    identity: its slice axis is the normal of the rectangle, the y axis. *)
Lemma coronal_orientation_is_not_reference (orientation : Mat3) :
  is_left_singular_basis (centred Examples.coronal_points)
    (svd_U (centred Examples.coronal_points)) = true ->
  synthesized_orientation [ContourClass_new (map reverse_point Examples.coronal_points)]
  = Ok orientation ->
  orientation <> identity3.
Proof.
  intros Hbasis Hsynth ->.
  unfold synthesized_orientation in Hsynth.
  cbn [item0 bind ContourClass_new contour] in Hsynth.
  rewrite map_map in Hsynth.
  assert (map (fun p => reverse_point (reverse_point p)) Examples.coronal_points
          = Examples.coronal_points) as Hpoints by reflexivity.
  rewrite Hpoints in Hsynth. cbn [np.vstack concat bind] in Hsynth.
  rewrite app_nil_r in Hsynth. injection Hsynth as Hsynth.
  destruct (check_right_handedness_flips
              (reverse_columns (svd_U (centred Examples.coronal_points))))
    as [s Hs].
  rewrite Hsynth in Hs.
  apply (f_equal reverse_columns) in Hs. rewrite reverse_columns_involutive in Hs.
  rewrite <- Hs in Hbasis.
  destruct s as [[[|] [|]] [|]]; vm_compute in Hbasis; discriminate.
Qed.

End EmittedMasks.

(** ** More on the selector *)

Lemma check_sub_contours_spec (state : bool * bool) (subs : list (list Vec3)) :
  Forall (fun sub_contour => sub_contour <> []) subs ->
  check_sub_contours state subs
  = Ok (fst state && forallb constant_slice subs,
        snd state && forallb integer_slice subs).
Proof.
  intros Hsubs. revert state.
  induction Hsubs as [|sub subs Hsub _ IH]; intros [o p]; simpl.
  - now rewrite !andb_true_r.
  - destruct sub as [|q sub]; [contradiction|].
    unfold check_sub_contour. cbn [item0 bind fst snd].
    rewrite IH. cbn [fst snd constant_slice integer_slice].
    destruct (np.allclose (map c0 (q :: sub)) (c0 q)),
      (np.isclose (np.round (c0 q)) (c0 q)), o, p; reflexivity.
Qed.

Section SelectorBranches.

Context {collaborators : Collaborators}.

(** X1. Whatever [_convert_contour_using_image] returns, the reference image
    is to be used exactly when both the orientation and the position are
    reported usable. *)
Theorem convert_reference_iff_orientation_and_position
    (self : MaskDicomFileRTSTRUCT) (roi : ROIContour) (image : option ImageFile)
    (use_reference_image use_orientation use_position : bool) :
  _convert_contour_using_image self roi image
  = Ok (use_reference_image, use_orientation, use_position) ->
  use_reference_image = use_orientation && use_position.
Proof.
  unfold _convert_contour_using_image.
  destruct image as [image|]; [|now intros [= <- <- <-]].
  destruct (sop_uid_correct self roi image) as [sop|e]; cbn [bind]; [|discriminate].
  destruct (_collect_contours roi) as [[contour_objects|]|e]; cbn [bind];
    [| now intros [= <- <- <-] | discriminate].
  destruct (check_sub_contours _ _) as [[o p]|e]; cbn [bind]; [|discriminate].
  destruct o; cbn [negb]; [|now intros [= <- <- <-]].
  destruct p; cbn [negb]; [|now intros [= <- <- <-]].
  destruct (slice_positions _) as [positions|e]; cbn [bind]; [|discriminate].
  destruct (length (np.unique positions) =? 1)%nat; [now intros [= <- <- <-]|].
  destruct (np.min _) as [gap|e]; cbn [bind]; [|discriminate].
  destruct (negb (np.isclose gap 1) && negb sop && negb (series_uid_correct self image));
    now intros [= <- <- <-].
Qed.

(** X2. For contours that pass both checks and lie on two or more slice
    positions, the reference image is accepted exactly when the smallest gap
    is close to 1, or the SOP-UID check holds, or the series-UID check
    holds; otherwise the result is [(False, True, False)]. *)
Theorem convert_multi_slice_decision
    (self : MaskDicomFileRTSTRUCT) (roi : ROIContour) (image : ImageFile)
    (contour_objects : list ContourClass) (positions : list Q) (gap : Q) (sop : bool) :
  _collect_contours roi = Ok (Some contour_objects) ->
  check_sub_contours (true, true)
    (sub_contours (map (to_voxel_coordinates image) contour_objects)) = Ok (true, true) ->
  slice_positions (map (to_voxel_coordinates image) contour_objects) = Ok positions ->
  (2 <= length (np.unique positions))%nat ->
  np.min (np.diff (np.unique positions)) = Ok gap ->
  sop_uid_correct self roi image = Ok sop ->
  _convert_contour_using_image self roi (Some image)
  = Ok (if np.isclose gap 1 || sop || series_uid_correct self image
        then (true, true, true)
        else (false, true, false)).
Proof.
  intros Hcollect Hchecks Hpositions Hlen Hgap Hsop.
  unfold _convert_contour_using_image.
  rewrite Hsop, Hcollect. cbn [bind]. rewrite Hchecks. cbn [bind negb].
  rewrite Hpositions. cbn [bind].
  destruct (length (np.unique positions) =? 1)%nat eqn:Hone;
    [apply Nat.eqb_eq in Hone; lia|].
  rewrite Hgap. cbn [bind].
  now destruct (np.isclose gap 1), sop, (series_uid_correct self image).
Qed.

(** X3. When the SOP-UID identity check yields an outcome, every
    sub-contour has a point and some sub-contour fails a check, the
    reference image is rejected and the result tells which check failed:
    the second component holds when every sub-contour keeps to one slice
    coordinate, the third when every sub-contour starts on an integer slice
    coordinate. *)
Theorem convert_reports_failed_checks
    (self : MaskDicomFileRTSTRUCT) (roi : ROIContour) (image : ImageFile)
    (contour_objects : list ContourClass) (sop_matched : bool) :
  let voxel := sub_contours (map (to_voxel_coordinates image) contour_objects) in
  let orientation_correct := forallb constant_slice voxel in
  let position_correct := forallb integer_slice voxel in
  _collect_contours roi = Ok (Some contour_objects) ->
  sop_uid_correct self roi image = Ok sop_matched ->
  Forall (fun sub_contour => sub_contour <> []) voxel ->
  orientation_correct && position_correct = false ->
  _convert_contour_using_image self roi (Some image)
  = Ok (false, orientation_correct, position_correct).
Proof.
  intros voxel o p Hcollect Hsop Hvoxel Hfail.
  unfold _convert_contour_using_image.
  rewrite Hsop, Hcollect. cbn [bind]. fold voxel.
  rewrite (check_sub_contours_spec _ _ Hvoxel). cbn [bind fst snd andb].
  fold o p. destruct o, p; try discriminate; reflexivity.
Qed.

End SelectorBranches.

(** ** More on contour collection *)

Lemma reshape3_rows (data : list Q) (points : list Vec3) :
  reshape3 data = Ok points ->
  data = flat_map (fun p : Vec3 => [c0 p; c1 p; c2 p]) points.
Proof.
  revert data points. fix IH 1. intros [|x [|y [|z data]]] points; cbn [reshape3];
    try discriminate.
  - intros H. now injection H as <-.
  - destruct (reshape3 data) as [ps|e] eqn:E; cbn [bind]; [|discriminate].
    intros H. injection H as <-. cbn [flat_map app c0 c1 c2 fst snd].
    now rewrite <- (IH data ps E).
Qed.

Lemma collect_contour_usable (item : ContourItem) (c : ContourClass) :
  collect_contour item = Ok (Some c) ->
  usable_contour item = true
  /\ exists points,
       contour_data item = Some (flat_map (fun p : Vec3 => [c0 p; c1 p; c2 p]) points)
       /\ contour c
          = [map (fun p : Vec3 =>
                    (c2 p - c2 (contour_offset item),
                     c1 p - c1 (contour_offset item),
                     c0 p - c0 (contour_offset item))) points].
Proof.
  unfold collect_contour, usable_contour, contour_offset.
  destruct (contour_geometric_type item) as [t|]; [|discriminate].
  destruct (String.eqb t closed_planar); cbn [negb]; [|discriminate].
  destruct (contour_data item) as [data|]; [|discriminate].
  intros H. apply bind_Ok_inv in H. destruct H as (points & Hpoints & H).
  injection H as <-. split; [reflexivity|].
  exists points. split; [now rewrite (reshape3_rows _ _ Hpoints)|].
  unfold ContourClass_new, subtract_offset. cbn [contour]. now rewrite map_map.
Qed.

Lemma collect_contour_skipped (item : ContourItem) :
  collect_contour item = Ok None -> usable_contour item = false.
Proof.
  unfold collect_contour, usable_contour.
  destruct (contour_geometric_type item) as [t|]; [|reflexivity].
  destruct (String.eqb t closed_planar); cbn [negb];
    [|now destruct (contour_data item)].
  destruct (contour_data item) as [data|]; [|reflexivity].
  intros H. apply bind_Ok_inv in H. destruct H as (points & _ & H).
  discriminate.
Qed.

Lemma collect_contour_raises (item : ContourItem) (e : exn) :
  collect_contour item = Raise e -> e = ValueError.
Proof.
  unfold collect_contour.
  destruct (contour_geometric_type item) as [t|]; [|discriminate].
  destruct (negb _); [discriminate|].
  destruct (contour_data item) as [data|]; [|discriminate].
  assert (forall l e', reshape3 l = Raise e' -> e' = ValueError) as Hreshape.
  { fix IH 1. intros [|x [|y [|z l]]] e'; simpl; try discriminate;
      try (now intros [= <-]).
    destruct (reshape3 l) as [ps|e''] eqn:E; simpl; [discriminate|].
    intros [= <-]. now apply (IH l). }
  destruct (reshape3 data) as [points|e'] eqn:E; cbn [bind]; [discriminate|].
  intros [= <-]. now apply (Hreshape data).
Qed.

Lemma mapM_raises {A B : Type} (f : A -> result B) (l : list A) (e : exn) :
  mapM f l = Raise e -> exists x, In x l /\ f x = Raise e.
Proof.
  induction l as [|x l IH]; simpl; [discriminate|].
  destruct (f x) as [y|e'] eqn:Hx; cbn [bind].
  - destruct (mapM f l) as [ys|e'] eqn:Hl; cbn [bind]; [discriminate|].
    intros [= <-]. destruct (IH eq_refl) as (x' & Hin & Hx'). eauto.
  - intros [= <-]. eauto.
Qed.

Lemma mapM_raises_at {A B : Type} (f : A -> result B) (l : list A) (x : A) (e : exn) :
  In x l -> f x = Raise e -> exists e', mapM f l = Raise e'.
Proof.
  induction l as [|y l IH]; simpl; [intros []|].
  intros [->|Hin] Hx.
  - rewrite Hx. cbn [bind]. eauto.
  - destruct (f y); cbn [bind]; [|eauto].
    destruct (IH Hin Hx) as [e' ->]. cbn [bind]. eauto.
Qed.

Lemma reshape3_raises (data : list Q) :
  (length data mod 3 <> 0)%nat -> reshape3 data = Raise ValueError.
Proof.
  revert data. fix IH 1. intros data Hlen.
  destruct data as [|x [|y [|z data]]]; cbn [reshape3].
  - exfalso. apply Hlen. reflexivity.
  - reflexivity.
  - reflexivity.
  - rewrite (IH data); [reflexivity|].
    intros H. apply Hlen. cbn [length].
    change (S (S (S (length data)))) with (3 + length data)%nat.
    rewrite Nat.Div0.add_mod, H. reflexivity.
Qed.

(** X4. What [_collect_contours] returns: one contour object for every item
    of the Contour Sequence that has the geometric type CLOSED_PLANAR and
    contour data, in the order of the sequence.  The contour data of such an
    item lists its points as (x, y, z); the contour object holds, as its
    only polygon, these points with the Contour Offset Vector of the item
    (when it has one) subtracted, each stored as (z, y, x).  The other
    items are skipped without an error, and the result is [None] when
    every item is skipped. *)
Theorem collect_contours_usable_items (roi : ROIContour)
    (r : option (list ContourClass)) :
  _collect_contours roi = Ok r ->
  exists items,
    contour_sequence roi = Some items
    /\ match r with
       | None => filter usable_contour items = []
       | Some contour_objects =>
           contour_objects <> []
           /\ Forall2
                (fun item c =>
                   let offset := match contour_offset_vector item with
                                 | Some offset => offset
                                 | None => (0, 0, 0)
                                 end in
                   exists points,
                     contour_data item
                     = Some (flat_map (fun p : Vec3 => [c0 p; c1 p; c2 p]) points)
                     /\ contour c
                        = [map (fun p : Vec3 =>
                                  (c2 p - c2 offset, c1 p - c1 offset, c0 p - c0 offset))
                               points])
                (filter usable_contour items) contour_objects
       end.
Proof.
  unfold _collect_contours. intros H.
  apply bind_Ok_inv in H. destruct H as (items & Hitems & H).
  apply bind_Ok_inv in H. destruct H as (collected & Hcollected & H).
  exists items. split.
  { destruct (contour_sequence roi); [now injection Hitems as -> | discriminate]. }
  assert (Forall2
            (fun item c =>
               exists points,
                 contour_data item
                 = Some (flat_map (fun p : Vec3 => [c0 p; c1 p; c2 p]) points)
                 /\ contour c
                    = [map (fun p : Vec3 =>
                              (c2 p - c2 (contour_offset item),
                               c1 p - c1 (contour_offset item),
                               c0 p - c0 (contour_offset item))) points])
            (filter usable_contour items) (drop_none collected)) as Hall.
  { clear H Hitems. revert collected Hcollected.
    induction items as [|item items IH]; simpl; intros collected H.
    - injection H as <-. constructor.
    - apply bind_Ok_inv in H. destruct H as (c & Hc & H).
      apply bind_Ok_inv in H. destruct H as (cs & Hcs & H). injection H as <-.
      destruct c as [c|]; simpl.
      + apply collect_contour_usable in Hc. destruct Hc as [-> Hc].
        constructor; [exact Hc | now apply IH].
      + apply collect_contour_skipped in Hc. rewrite Hc. now apply IH. }
  destruct (drop_none collected) as [|c cs] eqn:E.
  - injection H as <-. now inversion Hall.
  - injection H as <-. split; [discriminate | exact Hall].
Qed.

(** X5. A usable item whose contour data is not a whole number of
    coordinate triples makes [_collect_contours] raise [ValueError],
    whatever the other items of the sequence are. *)
Theorem collect_contours_malformed_data (roi : ROIContour)
    (items : list ContourItem) (item : ContourItem) (data : list Q) :
  contour_sequence roi = Some items ->
  In item items ->
  usable_contour item = true ->
  contour_data item = Some data ->
  (length data mod 3 <> 0)%nat ->
  _collect_contours roi = Raise ValueError.
Proof.
  intros Hseq Hin Husable Hdata Hlen.
  assert (collect_contour item = Raise ValueError) as Hitem.
  { unfold collect_contour. unfold usable_contour in Husable.
    destruct (contour_geometric_type item) as [t|]; [|discriminate].
    rewrite Hdata in *. rewrite Husable. cbn [negb].
    now rewrite (reshape3_raises data Hlen). }
  unfold _collect_contours. rewrite Hseq. cbn [subscript bind].
  destruct (mapM_raises_at _ _ _ _ Hin Hitem) as [e He]. rewrite He. cbn [bind].
  destruct (mapM_raises _ _ _ He) as (x & _ & Hx).
  now rewrite (collect_contour_raises _ _ Hx).
Qed.

(** ** Merging contours *)

Lemma insert_unique_Z_In (x y : Z) (l : list Z) :
  In y (insert_unique_Z x l) <-> y = x \/ In y l.
Proof.
  induction l as [|z l IH]; simpl.
  - split; [intros [<-|[]]; now left | intros [->|[]]; now left].
  - destruct (Z.compare_spec x z) as [->|Hlt|Hgt]; simpl.
    + split; [now right | intros [->|H]; [now left | exact H]].
    + split; [intros [<-|H]; [now left | now right]
             | intros [->|H]; [now left | now right]].
    + rewrite IH. split.
      * intros [<-|[->|H]]; [right; now left | now left | right; now right].
      * intros [->|[<-|H]]; [right; now left | now left | right; now right].
Qed.

Lemma unique_Z_In (y : Z) (l : list Z) : In y (unique_Z l) <-> In y l.
Proof.
  induction l as [|x l IH]; simpl; [reflexivity|].
  rewrite insert_unique_Z_In, IH. split; intros [H|H]; auto.
Qed.

Lemma insert_unique_Z_sorted (x : Z) (l : list Z) :
  StronglySorted Z.lt l -> StronglySorted Z.lt (insert_unique_Z x l).
Proof.
  induction 1 as [|z l Hl IH Hz]; simpl.
  - constructor; constructor.
  - destruct (Z.compare_spec x z) as [->|Hlt|Hgt].
    + now constructor.
    + constructor; [now constructor|].
      constructor; [exact Hlt|].
      eapply Forall_impl; [|exact Hz]. intros a Ha. lia.
    + constructor; [exact IH|].
      apply Forall_forall. intros a Ha. apply insert_unique_Z_In in Ha.
      destruct Ha as [->|Ha]; [lia|]. rewrite Forall_forall in Hz. now apply Hz.
Qed.

Lemma unique_Z_sorted (l : list Z) : StronglySorted Z.lt (unique_Z l).
Proof.
  induction l as [|x l IH]; simpl; [constructor|].
  now apply insert_unique_Z_sorted.
Qed.

Lemma Z_in_In (x : Z) (l : list Z) : Z_in x l = true <-> In x l.
Proof.
  unfold Z_in. rewrite existsb_exists. split.
  - intros (y & Hy & Heq). apply Z.eqb_eq in Heq. now subst.
  - intros H. exists x. split; [exact H | apply Z.eqb_refl].
Qed.

Lemma mapM_Ok_Forall2 {A B : Type} (f : A -> result B) (l : list A) (r : list B) :
  mapM f l = Ok r -> Forall2 (fun x y => f x = Ok y) l r.
Proof.
  revert r. induction l as [|x l IH]; simpl; intros r H.
  - injection H as <-. constructor.
  - apply bind_Ok_inv in H. destruct H as (y & Hy & H).
    apply bind_Ok_inv in H. destruct H as (ys & Hys & H).
    injection H as <-. constructor; [exact Hy | now apply IH].
Qed.

Section Merging.

Context {collaborators : Collaborators}.

(** X6. For one contour object or more, [_merge_contours] does not raise
    and returns one merged contour for every slice that some contour
    occupies, in increasing order of the slice index and without
    repetition; the contour merged for a slice has as parent the first
    contour object on that slice and folds in the later ones, in their
    order. *)
Theorem merge_contours_one_per_slice (contour_objects : list ContourClass) :
  let slice_ids := unique_Z (concat (map which_slice contour_objects)) in
  contour_objects <> [] ->
  exists merged,
    _merge_contours contour_objects = Ok merged
    /\ StronglySorted Z.lt slice_ids
    /\ (forall slice_id,
           In slice_id slice_ids <->
           exists c, In c contour_objects /\ In slice_id (which_slice c))
    /\ Forall2
         (fun slice_id m =>
            exists parent others,
              filter (fun c => Z_in slice_id (which_slice c)) contour_objects
              = parent :: others
              /\ m = merge parent
                       (match others with [] => None | _ => Some others end)
                       slice_id)
         slice_ids merged.
Proof.
  intros slice_ids Hne.
  assert (forall slice_id,
             In slice_id slice_ids <->
             exists c, In c contour_objects /\ In slice_id (which_slice c)) as Hids.
  { intros slice_id. unfold slice_ids. rewrite unique_Z_In, in_concat. split.
    - intros (l & Hl & Hin). apply in_map_iff in Hl. destruct Hl as (c & <- & Hc). eauto.
    - intros (c & Hc & Hin). exists (which_slice c). split; [now apply in_map | exact Hin]. }
  assert (forall X : result (list Z),
             match map which_slice contour_objects with
             | [] => Raise ValueError
             | _ :: _ => X
             end = X) as Hfirst
    by (intros X; destruct contour_objects; [contradiction | reflexivity]).
  unfold _merge_contours. rewrite Hfirst. cbn [bind]. fold slice_ids.
  match goal with
  | |- context [mapM ?f slice_ids] =>
      destruct (mapM f slice_ids) as [merged|e] eqn:Hmerged
  end.
  - exists merged. split; [reflexivity|]. split; [apply unique_Z_sorted|].
    split; [exact Hids|].
    apply mapM_Ok_Forall2 in Hmerged.
    eapply Forall2_impl; [|exact Hmerged]. cbv beta. intros slice_id m Hm.
    destruct (filter _ contour_objects) as [|parent [|other others]];
      [discriminate | |]; injection Hm as <-; eauto.
  - exfalso. apply mapM_raises in Hmerged. destruct Hmerged as (slice_id & Hin & Hraise).
    apply Hids in Hin. destruct Hin as (c & Hc & Hin).
    assert (In c (filter (fun c => Z_in slice_id (which_slice c)) contour_objects)) as Hf
      by (apply filter_In; split; [exact Hc | now apply Z_in_In]).
    destruct (filter _ contour_objects) as [|parent [|other others]];
      [destruct Hf | discriminate | discriminate].
Qed.

End Merging.

(** ** Matching against well separated slice positions *)

Lemma rint_zero_bound (y : Q) : 0 <= y -> np.rint y = 0%Z -> y <= 1 # 2.
Proof.
  intros Hy. unfold np.rint.
  pose proof (Qfloor_le y) as Hfloor.
  assert (0 <= Qfloor y)%Z as Hnonneg
    by (change 0%Z with (Qfloor 0); now apply Qfloor_resp_le).
  destruct (Qcompare (y - inject_Z (Qfloor y)) (1 # 2)) eqn:Hcmp.
  - apply Qeq_alt in Hcmp. destruct (Z.even (Qfloor y)); intros H; [|lia].
    rewrite H in Hcmp. unfold inject_Z in Hcmp. lra.
  - apply Qlt_alt in Hcmp. intros H. rewrite H in Hcmp. unfold inject_Z in Hcmp. lra.
  - intros H. lia.
Qed.

Lemma position_matches_bound (slice_position image_spacing_z known : Q) :
  position_matches slice_position image_spacing_z known = true ->
  Qabs (slice_position * image_spacing_z - known) <= 1 # 2000.
Proof.
  unfold position_matches, is_zero, np.around3. intros H.
  apply Qeq_bool_iff in H.
  set (d := Qabs (slice_position * image_spacing_z - known)) in *.
  assert (0 <= d) as Hd by apply Qabs_nonneg.
  assert (np.rint (d * 1000) = 0%Z) as Hrint.
  { destruct (np.rint (d * 1000)) as [|n|n]; [reflexivity| |];
      exfalso; unfold Qeq, Qdiv, Qmult, Qinv, inject_Z in H; simpl in H; lia. }
  apply rint_zero_bound in Hrint; lra.
Qed.

Lemma well_separated_matches_once (slice_position image_spacing_z : Q)
    (known_position : list Q) :
  well_separated known_position ->
  (length (matching_indices slice_position known_position image_spacing_z) <= 1)%nat.
Proof.
  unfold matching_indices, argwhere. intros Hsep. generalize 0%Z as i.
  induction Hsep as [|a l Ha Hl IH]; intros i; simpl; [lia|].
  destruct (position_matches slice_position image_spacing_z a) eqn:Hmatch; [|apply IH].
  assert (argwhere_from (position_matches slice_position image_spacing_z) (i + 1) l = [])
    as ->; [|simpl; lia].
  clear IH Hl. generalize (i + 1)%Z as j.
  induction Ha as [|b l Hab _ IH]; intros j; simpl; [reflexivity|].
  destruct (position_matches slice_position image_spacing_z b) eqn:Hb; [|apply IH].
  exfalso. apply position_matches_bound in Hmatch, Hb.
  revert Hab Hmatch Hb.
  set (x := slice_position * image_spacing_z).
  intros Hab Ha Hb.
  assert (Qabs (a - b) <= Qabs (x - a) + Qabs (x - b)) as Htri.
  { setoid_replace (a - b) with ((x - b) + - (x - a)) by ring.
    eapply Qle_trans; [apply Qabs_triangle|].
    rewrite Qabs_opp. lra. }
  lra.
Qed.

(** X7. Against known slice positions that are pairwise more than 0.001
    apart, [_match_slice_position] never raises, and a slice position that,
    scaled by the out-of-plane spacing, coincides with the known position
    of index [i] is matched to [i]. *)
Theorem match_slice_position_well_separated
    (slice_position image_spacing_z : Q) (known_position : list Q) :
  well_separated known_position ->
  (exists r, _match_slice_position slice_position known_position image_spacing_z = Ok r)
  /\ forall (i : nat) (known : Q),
       nth_error known_position i = Some known ->
       slice_position * image_spacing_z == known ->
       _match_slice_position slice_position known_position image_spacing_z
       = Ok (Some (Z.of_nat i)).
Proof.
  intros Hsep.
  pose proof (well_separated_matches_once slice_position image_spacing_z known_position Hsep)
    as Hlen.
  rewrite match_slice_position_cases. split.
  - destruct (matching_indices _ _ _) as [|j [|k l]]; simpl in Hlen; try lia; eauto.
  - intros i known Hi Heq.
    assert (In (Z.of_nat i)
              (matching_indices slice_position known_position image_spacing_z)) as Hin.
    { apply matching_indices_In. split; [lia|]. exists known.
      rewrite Nat2Z.id. split; [exact Hi | now apply exact_position_matches]. }
    destruct (matching_indices _ _ _) as [|j [|k l]]; simpl in Hlen; try lia.
    + destruct Hin.
    + destruct Hin as [->|[]]. reflexivity.
Qed.

(** ** The volume that [convert_contour_to_mask] assembles *)

Lemma masks_where_length {A B : Type} (keep : A -> bool) (slice_list : list A)
    (mask_list r : list B) :
  masks_where keep slice_list mask_list = Ok r ->
  length r = length (filter keep slice_list).
Proof.
  revert mask_list r. induction slice_list as [|s l IH]; intros ml r; simpl.
  - now intros [= <-].
  - destruct (keep s).
    + destruct ml as [|m ml]; [discriminate|].
      intros H. apply bind_Ok_inv in H. destruct H as (rest & Hrest & H).
      injection H as <-. simpl. f_equal. now apply (IH ml).
    + apply IH.
Qed.

Lemma masks_by_slice_length {A B : Type} (keep : A -> bool) (mask_list : list B)
    (slice_list : list A) (r : list B) :
  length mask_list = length slice_list ->
  masks_by_slice keep mask_list slice_list = Ok r ->
  length r = length (filter keep slice_list).
Proof.
  revert slice_list r. induction mask_list as [|m ml IH]; intros [|s sl] r Hlen;
    simpl in *; try discriminate.
  - now intros [= <-].
  - intros H. apply bind_Ok_inv in H. destruct H as (rest & Hrest & H).
    injection Hlen as Hlen. injection H as <-.
    pose proof (IH sl rest Hlen Hrest). destruct (keep s); simpl; lia.
Qed.

Lemma drop_none_length {A : Type} (l : list (option A)) :
  length (drop_none l) = length (filter is_some l).
Proof. induction l as [|[x|] l IH]; simpl; lia. Qed.

Lemma zeros_shape (dimension : Z * Z * Z) (volume : Volume) :
  zeros dimension = Ok volume ->
  let '(dz, dy, dx) := dimension in
  (0 <= dz)%Z /\ (0 <= dy)%Z /\ (0 <= dx)%Z
  /\ shape volume = repeat (repeat (Z.to_nat dx) (Z.to_nat dy)) (Z.to_nat dz).
Proof.
  destruct dimension as [[dz dy] dx]. unfold zeros.
  destruct ((dz <? 0)%Z || (dy <? 0)%Z || (dx <? 0)%Z) eqn:E; [discriminate|].
  intros [= <-]. apply orb_false_iff in E. destruct E as [E Ex].
  apply orb_false_iff in E. destruct E as [Ez Ey].
  apply Z.ltb_ge in Ez, Ey, Ex. repeat split; try assumption.
  unfold shape. rewrite !map_repeat. now rewrite repeat_length.
Qed.

Lemma zeros_voxel (dimension : Z * Z * Z) (volume : Volume) (v : Voxel) :
  zeros dimension = Ok volume -> voxel_at volume v = false.
Proof.
  destruct dimension as [[dz dy] dx]. unfold zeros.
  destruct (_ || _); [discriminate|]. intros [= <-].
  destruct (voxel_at _ v) eqn:E; [|reflexivity]. exfalso.
  destruct v as [[z y] x]. apply voxel_at_true in E.
  destruct E as (slice & row & Hz & Hy & Hx).
  apply nth_error_In, repeat_spec in Hz. subst slice.
  apply nth_error_In, repeat_spec in Hy. subst row.
  apply nth_error_In, repeat_spec in Hx. discriminate.
Qed.

Lemma logical_or_row_spec (a b c : list bool) :
  logical_or_row a b = Ok c ->
  length c = length a /\ forall x, nth x c false = nth x a false || nth x b false.
Proof.
  revert b c. induction a as [|p a IH]; intros [|q b] c; simpl; try discriminate.
  - intros [= <-]. split; [reflexivity | now intros [|x]].
  - intros H. apply bind_Ok_inv in H. destruct H as (r & Hr & H). injection H as <-.
    destruct (IH b r Hr) as [Hlen Hnth]. split; [simpl; now rewrite Hlen|].
    intros [|x]; simpl; [reflexivity | apply Hnth].
Qed.

Lemma logical_or_spec (a b c : Slice2D) :
  logical_or a b = Ok c ->
  map (@length bool) c = map (@length bool) a
  /\ forall y x, nth x (nth y c []) false
                 = nth x (nth y a []) false || nth x (nth y b []) false.
Proof.
  revert b c. induction a as [|p a IH]; intros [|q b] c; simpl; try discriminate.
  - intros [= <-]. split; [reflexivity | now intros [|y] [|x]].
  - intros H. apply bind_Ok_inv in H. destruct H as (r & Hr & H).
    apply bind_Ok_inv in H. destruct H as (rs & Hrs & H). injection H as <-.
    destruct (IH b rs Hrs) as [Hshape Hnth].
    destruct (logical_or_row_spec p q r Hr) as [Hlen Hrow].
    split; [simpl; now rewrite Hlen, Hshape|].
    intros [|y] x; simpl; [apply Hrow | apply Hnth].
Qed.

Lemma or_into_spec (volume : Volume) (slice_id : nat) (mask : Slice2D)
    (volume' : Volume) :
  or_into volume slice_id mask = Ok volume' ->
  shape volume' = shape volume
  /\ forall z y x,
       voxel_at volume' (z, y, x)
       = voxel_at volume (z, y, x)
         || ((z =? slice_id)%nat && nth x (nth y mask []) false).
Proof.
  revert slice_id volume'. induction volume as [|s volume IH];
    intros [|n] volume'; simpl; try discriminate.
  - intros H. apply bind_Ok_inv in H. destruct H as (s' & Hs' & H). injection H as <-.
    destruct (logical_or_spec s mask s' Hs') as [Hshape Hnth].
    split; [unfold shape; simpl; now rewrite Hshape|].
    intros [|z] y x; simpl; [apply Hnth | now rewrite orb_false_r].
  - intros H. apply bind_Ok_inv in H. destruct H as (rest & Hrest & H). injection H as <-.
    destruct (IH n rest Hrest) as [Hshape Hnth].
    split; [unfold shape in *; simpl; now rewrite Hshape|].
    intros [|z] y x; simpl; [now rewrite orb_false_r | apply (Hnth z y x)].
Qed.

Lemma set_mask_spec (volume : Volume) (slice_list : list Z) (mask_list : list Slice2D)
    (volume' : Volume) :
  set_mask volume slice_list mask_list = Ok volume' ->
  Forall (fun i => (0 <= i)%Z) slice_list ->
  shape volume' = shape volume
  /\ forall z y x,
       voxel_at volume' (z, y, x)
       = voxel_at volume (z, y, x)
         || existsb (fun p => (Z.of_nat z =? fst p)%Z && nth x (nth y (snd p) []) false)
                    (combine slice_list mask_list).
Proof.
  revert volume mask_list volume'. induction slice_list as [|i l IH];
    intros volume [|m ml] volume'; cbn [set_mask combine existsb]; try discriminate.
  - intros [= <-] _. split; [reflexivity | intros; now rewrite orb_false_r].
  - intros [= <-] _. split; [reflexivity | intros; now rewrite orb_false_r].
  - intros H Hall. apply bind_Ok_inv in H. destruct H as (v1 & Hv1 & H).
    inversion Hall as [|? ? Hi Hl]; subst.
    destruct (or_into_spec _ _ _ _ Hv1) as [Hshape1 Hnth1].
    destruct (IH v1 ml volume' H Hl) as [Hshape Hnth].
    split; [now rewrite Hshape|].
    intros z y x. rewrite Hnth, Hnth1. cbn [fst snd].
    replace (z =? Z.to_nat i)%nat with (Z.of_nat z =? i)%Z.
    + now rewrite orb_assoc.
    + destruct (Z.eqb_spec (Z.of_nat z) i) as [E|E];
        destruct (Nat.eqb_spec z (Z.to_nat i)) as [E'|E']; try reflexivity; lia.
Qed.

Section Assembly.

Context {collaborators : Collaborators}.

(** The slices that pass matching and the range tests are within the grid,
    and each has its mask. *)
Lemma match_slices_in_range (image : ImageFile) (slice_list : list Q)
    (mask_list : list Slice2D) (ids : list Z) (masks : list Slice2D) :
  match_slices image slice_list mask_list = Ok (Some (ids, masks)) ->
  ids <> []
  /\ Forall (fun i => (0 <= i < fst (fst (image_dimension (grid image))))%Z) ids
  /\ length masks = length ids.
Proof.
  unfold match_slices. intros H.
  apply bind_Ok_inv in H. destruct H as (matched & _ & H).
  apply bind_Ok_inv in H. destruct H as (m1 & Hm1 & H).
  apply masks_where_length in Hm1. rewrite <- drop_none_length in Hm1.
  destruct (is_empty (drop_none matched)); [discriminate|].
  apply bind_Ok_inv in H. destruct H as (m2 & Hm2 & H).
  apply (masks_by_slice_length _ _ _ _ Hm1) in Hm2.
  destruct (is_empty (filter _ (drop_none matched))); [discriminate|].
  apply bind_Ok_inv in H. destruct H as (m3 & Hm3 & H).
  apply (masks_by_slice_length _ _ _ _ Hm2) in Hm3.
  set (l2 := filter (fun s => (0 <=? s)%Z) (drop_none matched)) in *.
  set (dz := fst (fst (image_dimension (grid image)))) in *.
  destruct (is_empty (filter (fun s => (s <? dz)%Z) l2)) eqn:E; [discriminate|].
  injection H as <- <-.
  split; [intros Hnil; rewrite Hnil in E; discriminate|]. split.
  - apply Forall_forall. intros i Hi. apply filter_In in Hi. destruct Hi as [Hi Hlt].
    apply filter_In in Hi. destruct Hi as [_ Hle].
    apply Z.ltb_lt in Hlt. apply Z.leb_le in Hle. lia.
  - rewrite Hm3. f_equal. apply filter_ext_in. intros i Hi.
    apply filter_In in Hi. destruct Hi as [_ Hle]. apply Z.leb_le in Hle.
    now rewrite Z.abs_eq.
Qed.

(** X8. Every volume that [convert_contour_to_mask] returns, under either
    policy, has exactly the dimension of the image it was given, and that
    dimension has at least one slice. *)
Theorem convert_returns_volume_of_image_dimension
    (self : MaskDicomFileRTSTRUCT) (roi : ROIContour) (image : ImageFile)
    (draw_method policy : string) (roi_mask : Volume) :
  convert_contour_to_mask self roi (Some image) draw_method policy = Ok (Some roi_mask) ->
  let '(dz, dy, dx) := image_dimension (grid image) in
  (1 <= dz)%Z /\ (0 <= dy)%Z /\ (0 <= dx)%Z
  /\ shape roi_mask = repeat (repeat (Z.to_nat dx) (Z.to_nat dy)) (Z.to_nat dz).
Proof.
  unfold convert_contour_to_mask. intros H.
  apply bind_Ok_inv in H. destruct H as ([contour_objects|] & _ & H); [|discriminate].
  apply bind_Ok_inv in H. destruct H as (empty & Hzeros & H).
  apply bind_Ok_inv in H. destruct H as (merged & _ & H).
  apply bind_Ok_inv in H. destruct H as ([slice_list mask_list] & _ & H).
  destruct (is_empty slice_list); [discriminate|].
  apply bind_Ok_inv in H. destruct H as ([[ids masks]|] & Hmatched & H); [|discriminate].
  apply bind_Ok_inv in H. destruct H as (assembled & Hset & H).
  apply match_slices_in_range in Hmatched. destruct Hmatched as (Hne & Hrange & _).
  apply zeros_shape in Hzeros.
  destruct (image_dimension (grid image)) as [[dz dy] dx]. cbn [fst] in Hrange.
  destruct Hzeros as (_ & Hy & Hx & Hshape).
  assert (1 <= dz)%Z as Hz.
  { destruct ids as [|i ids]; [contradiction|]. inversion Hrange; subst. lia. }
  assert (shape assembled = repeat (repeat (Z.to_nat dx) (Z.to_nat dy)) (Z.to_nat dz))
    as Hassembled.
  { apply set_mask_spec in Hset;
      [destruct Hset as [-> _]; exact Hshape|].
    eapply Forall_impl; [|exact Hrange]. intros i Hi. cbv beta in Hi. lia. }
  repeat split; try assumption.
  destruct (String.eqb policy "keep_largest").
  - apply bind_Ok_inv in H. destruct H as (largest & Hlargest & H). injection H as <-.
    unfold keep_largest in Hlargest.
    apply bind_Ok_inv in Hlargest. destruct Hlargest as (k & _ & Hlargest).
    injection Hlargest as <-. now rewrite label_equals_shape.
  - now injection H as <-.
Qed.

(** X9. Under the policy "keep_as_is" the returned volume is the union of
    the rasterized slices that passed matching and the range tests: a voxel
    is true exactly when one of the masks kept for its slice index is true
    at its row and column.  Nothing else sets a voxel, and no mask clears
    one. *)
Theorem convert_assembles_union_of_slices
    (self : MaskDicomFileRTSTRUCT) (roi : ROIContour) (image : ImageFile)
    (draw_method : string) (roi_mask : Volume) :
  convert_contour_to_mask self roi (Some image) draw_method "keep_as_is"
  = Ok (Some roi_mask) ->
  exists contour_objects merged slice_list mask_list ids masks,
    _collect_contours roi = Ok (Some contour_objects)
    /\ _merge_contours (map (to_voxel_coordinates image) contour_objects) = Ok merged
    /\ draw draw_method image merged = Ok (slice_list, mask_list)
    /\ match_slices image slice_list mask_list = Ok (Some (ids, masks))
    /\ length masks = length ids
    /\ forall z y x,
         voxel_at roi_mask (z, y, x) = true <->
         exists k mask,
           nth_error ids k = Some (Z.of_nat z)
           /\ nth_error masks k = Some mask
           /\ nth x (nth y mask []) false = true.
Proof.
  unfold convert_contour_to_mask. intros H.
  apply bind_Ok_inv in H. destruct H as ([contour_objects|] & Hcollect & H); [|discriminate].
  apply bind_Ok_inv in H. destruct H as (empty & Hzeros & H).
  apply bind_Ok_inv in H. destruct H as (merged & Hmerged & H).
  apply bind_Ok_inv in H. destruct H as ([slice_list mask_list] & Hdraw & H).
  destruct (is_empty slice_list); [discriminate|].
  apply bind_Ok_inv in H. destruct H as ([[ids masks]|] & Hmatched & H); [|discriminate].
  apply bind_Ok_inv in H. destruct H as (assembled & Hset & H).
  change (String.eqb "keep_as_is" "keep_largest") with false in H. cbn iota in H.
  injection H as <-.
  exists contour_objects, merged, slice_list, mask_list, ids, masks.
  destruct (match_slices_in_range _ _ _ _ _ Hmatched) as (_ & Hrange & Hlen).
  repeat (split; [assumption|]).
  apply set_mask_spec in Hset.
  2:{ eapply Forall_impl; [|exact Hrange]. intros i Hi. cbv beta in Hi. lia. }
  destruct Hset as [_ Hvoxel]. intros z y x.
  rewrite Hvoxel, (zeros_voxel _ _ _ Hzeros). cbn [orb].
  rewrite existsb_exists. unfold Slice2D in *. split.
  - intros ([i mask] & Hin & Htrue). cbn [fst snd] in Htrue.
    apply andb_true_iff in Htrue. destruct Htrue as [Hi Hmask].
    apply Z.eqb_eq in Hi. subst i.
    apply In_nth_error in Hin. destruct Hin as [k Hk].
    exists k, mask.
    assert (k < length (combine ids masks))%nat as Hbound
      by (apply nth_error_Some; rewrite Hk; discriminate).
    rewrite length_combine in Hbound.
    destruct (nth_error ids k) as [i|] eqn:Ei; [|apply nth_error_None in Ei; lia].
    destruct (nth_error masks k) as [m|] eqn:Em; [|apply nth_error_None in Em; lia].
    assert (nth_error (combine ids masks) k = Some (i, m)) as Hpair.
    { clear -Ei Em. revert ids masks Ei Em. induction k as [|k IH];
        intros [|i' ids] [|m' masks]; simpl; try discriminate.
      - now intros [= ->] [= ->].
      - apply IH. }
    rewrite Hpair in Hk. injection Hk as -> ->. auto.
  - intros (k & mask & Hi & Hm & Htrue).
    exists (Z.of_nat z, mask). split.
    + clear -Hi Hm. revert ids masks Hi Hm. induction k as [|k IH];
        intros [|i' ids] [|m' masks]; simpl; try discriminate.
      * intros [= ->] [= ->]. now left.
      * intros Hi Hm. right. now apply IH.
    + cbn [fst snd]. now rewrite Z.eqb_refl, Htrue.
Qed.

(** X10. A draw method other than "ray_cast" makes the method raise
    [NotImplementedError] as soon as there is a merged contour to draw; an
    ROI without usable contours still gives [None]. *)
Theorem convert_unknown_draw_method
    (self : MaskDicomFileRTSTRUCT) (roi : ROIContour) (image : ImageFile)
    (draw_method policy : string) :
  String.eqb draw_method "ray_cast" = false ->
  (_collect_contours roi = Ok None ->
   convert_contour_to_mask self roi (Some image) draw_method policy = Ok None)
  /\ (forall contour_objects empty c merged,
         _collect_contours roi = Ok (Some contour_objects) ->
         zeros (image_dimension (grid image)) = Ok empty ->
         _merge_contours (map (to_voxel_coordinates image) contour_objects)
         = Ok (c :: merged) ->
         convert_contour_to_mask self roi (Some image) draw_method policy
         = Raise NotImplementedError).
Proof.
  intros Hmethod. unfold convert_contour_to_mask. split.
  - now intros ->.
  - intros contour_objects empty c merged H1 H2 H3.
    rewrite H1. cbn [bind]. rewrite H2. cbn [bind]. rewrite H3. cbn [bind draw].
    now rewrite Hmethod.
Qed.

End Assembly.

(** ** More on the synthetic grid *)

Lemma In_unique_bounds (f : Vec3 -> Q) (stacked : list Vec3) (lo hi : Q) (p : Vec3) :
  np.min (np.unique (map f stacked)) = Ok lo ->
  np.max (np.unique (map f stacked)) = Ok hi ->
  In p stacked -> lo <= f p /\ f p <= hi.
Proof.
  intros Hlo Hhi Hp.
  destruct (unique_complete (f p) (map f stacked) (in_map f _ _ Hp)) as (w & Hw & Heq).
  apply min_spec in Hlo. apply max_spec in Hhi.
  destruct Hlo as [_ Hlo], Hhi as [_ Hhi].
  rewrite Forall_forall in Hlo, Hhi.
  rewrite <- Heq. split; [now apply Hlo | now apply Hhi].
Qed.

Lemma Qle_div_mult (a s c : Q) : 0 < s -> a / s <= c -> a <= c * s.
Proof.
  intros Hs H.
  assert (a / s * s == a) as Heq by (field; lra).
  rewrite <- Heq. apply Qmult_le_compat_r; lra.
Qed.

Section SyntheticGridBounds.

Context {collaborators : Collaborators}.

(** The grid of full synthetic mode, from the extreme values of the
    normalised points. *)
Lemma full_mode_grid
    (self : MaskDicomFileRTSTRUCT) (roi : ROIContour) (image : ImageFile)
    (use_orientation : bool) (contour_objects : list ContourClass)
    (mask_orientation : Mat3) (stacked : list Vec3)
    (gap min_z min_y min_x max_z max_y max_x : Q) :
  let z := np.unique (map c0 stacked) in
  let y := np.unique (map c1 stacked) in
  let x := np.unique (map c2 stacked) in
  let spacing_y := c1 (image_spacing (grid image)) in
  let spacing_x := c2 (image_spacing (grid image)) in
  _collect_contours roi = Ok (Some contour_objects) ->
  synthesized_orientation contour_objects = Ok mask_orientation ->
  normalised_points image mask_orientation contour_objects = Ok stacked ->
  np.min (np.diff z) = Ok gap ->
  np.min z = Ok min_z -> np.min y = Ok min_y -> np.min x = Ok min_x ->
  np.max z = Ok max_z -> np.max y = Ok max_y -> np.max x = Ok max_x ->
  ~ gap == 0 -> ~ spacing_y == 0 -> ~ spacing_x == 0 ->
  _create_image_from_contour self roi image use_orientation false
  = Ok {| image_class := image_class image;
          image_series_instance_uid := image_series_instance_uid image;
          grid :=
            {| image_spacing := (gap, spacing_y, spacing_x);
               image_origin := (min_z, min_y - spacing_y, min_x - spacing_x);
               image_dimension :=
                 (Qceiling ((max_z - min_z) / gap),
                  (Qceiling ((max_y - (min_y - spacing_y)) / spacing_y) + 1)%Z,
                  (Qceiling ((max_x - (min_x - spacing_x)) / spacing_x) + 1)%Z);
               image_orientation := mask_orientation |} |}.
Proof.
  intros z y x spacing_y spacing_x Hcollect Horientation Hstacked Hgap
    Hmin_z Hmin_y Hmin_x Hmax_z Hmax_y Hmax_x Hgap0 Hsy Hsx.
  unfold _create_image_from_contour. rewrite Hcollect. cbn [bind negb].
  unfold synthesized_orientation in Horientation.
  destruct (item0 contour_objects) as [first_contour|e]; [|discriminate].
  cbn [bind] in Horientation |- *.
  destruct (np.vstack (contour first_contour)) as [points|e]; [|discriminate].
  cbn [bind] in Horientation |- *. injection Horientation as Horientation.
  rewrite Horientation. unfold normalised_points in Hstacked. rewrite Hstacked.
  cbn [bind]. fold z y x.
  rewrite Hgap. cbn [bind]. rewrite Hmin_z, Hmin_y, Hmin_x. cbn [bind].
  rewrite Hmax_z. cbn [bind]. rewrite (int_ceil_div_nonzero _ _ Hgap0). cbn [bind].
  rewrite Hmax_y. cbn [bind]. fold spacing_y.
  rewrite (int_ceil_div_nonzero _ _ Hsy). cbn [bind].
  rewrite Hmax_x. cbn [bind]. fold spacing_x.
  rewrite (int_ceil_div_nonzero _ _ Hsx). reflexivity.
Qed.

Lemma extremes_defined (f : Vec3 -> Q) (stacked : list Vec3) :
  stacked <> [] ->
  exists lo hi,
    np.min (np.unique (map f stacked)) = Ok lo
    /\ np.max (np.unique (map f stacked)) = Ok hi.
Proof.
  intros Hne. destruct stacked as [|p rest]; [contradiction|].
  destruct (unique_complete (f p) (map f (p :: rest)) (or_introl eq_refl)) as (w & Hw & _).
  destruct (np.unique (map f (p :: rest))); [destruct Hw | simpl; eauto].
Qed.



(** X11. Full synthetic mode needs two distinct slice-axis values: when the
    normalised points of the ROI share one value, the method raises
    [ValueError]. *)
Theorem create_image_single_slice_raises
    (self : MaskDicomFileRTSTRUCT) (roi : ROIContour) (image : ImageFile)
    (use_orientation : bool) (contour_objects : list ContourClass)
    (mask_orientation : Mat3) (stacked : list Vec3) :
  _collect_contours roi = Ok (Some contour_objects) ->
  synthesized_orientation contour_objects = Ok mask_orientation ->
  normalised_points image mask_orientation contour_objects = Ok stacked ->
  (length (np.unique (map c0 stacked)) <= 1)%nat ->
  _create_image_from_contour self roi image use_orientation false = Raise ValueError.
Proof.
  intros Hcollect Horientation Hstacked Hlen.
  unfold _create_image_from_contour. rewrite Hcollect. cbn [bind negb].
  unfold synthesized_orientation in Horientation.
  destruct (item0 contour_objects) as [first_contour|e]; [|discriminate].
  cbn [bind] in Horientation |- *.
  destruct (np.vstack (contour first_contour)) as [points|e]; [|discriminate].
  cbn [bind] in Horientation |- *. injection Horientation as Horientation.
  rewrite Horientation. unfold normalised_points in Hstacked. rewrite Hstacked.
  cbn [bind].
  destruct (np.unique (map c0 stacked)) as [|a [|b l]]; simpl in Hlen; try lia;
    reflexivity.
Qed.

(** X12. In full synthetic mode with positive in-plane spacings of the
    template, every normalised contour point lies within the new grid: along
    the slice axis between the origin and the origin plus dimension times
    spacing, and in the plane at least one spacing above the origin and at
    most (dimension - 1) spacings above it. *)
Theorem create_image_grid_contains_points
    (self : MaskDicomFileRTSTRUCT) (roi : ROIContour) (image : ImageFile)
    (use_orientation : bool) (contour_objects : list ContourClass)
    (mask_orientation : Mat3) (stacked : list Vec3) :
  _collect_contours roi = Ok (Some contour_objects) ->
  synthesized_orientation contour_objects = Ok mask_orientation ->
  normalised_points image mask_orientation contour_objects = Ok stacked ->
  (2 <= length (np.unique (map c0 stacked)))%nat ->
  0 < c1 (image_spacing (grid image)) ->
  0 < c2 (image_spacing (grid image)) ->
  exists new_image,
    _create_image_from_contour self roi image use_orientation false = Ok new_image
    /\ let '(oz, oy, ox) := image_origin (grid new_image) in
       let '(sz, sy, sx) := image_spacing (grid new_image) in
       let '(dz, dy, dx) := image_dimension (grid new_image) in
       forall p, In p stacked ->
         oz <= c0 p /\ c0 p <= oz + inject_Z dz * sz
         /\ oy + sy <= c1 p /\ c1 p <= oy + (inject_Z dy - 1) * sy
         /\ ox + sx <= c2 p /\ c2 p <= ox + (inject_Z dx - 1) * sx.
Proof.
  intros Hcollect Horientation Hstacked Hlen Hsy Hsx.
  destruct (min_gap_positive (map c0 stacked) Hlen) as (gap & Hgap & Hpos).
  assert (stacked <> []) as Hne by (intros ->; simpl in Hlen; lia).
  destruct (extremes_defined c0 stacked Hne) as (min_z & max_z & Hmin_z & Hmax_z).
  destruct (extremes_defined c1 stacked Hne) as (min_y & max_y & Hmin_y & Hmax_y).
  destruct (extremes_defined c2 stacked Hne) as (min_x & max_x & Hmin_x & Hmax_x).
  eexists. split.
  - apply (full_mode_grid self roi image use_orientation contour_objects
             mask_orientation stacked gap min_z min_y min_x max_z max_y max_x);
      try assumption; lra.
  - cbn [grid image_origin image_spacing image_dimension].
    set (sy := c1 (image_spacing (grid image))) in *.
    set (sx := c2 (image_spacing (grid image))) in *.
    intros p Hp.
    destruct (In_unique_bounds c0 stacked min_z max_z p Hmin_z Hmax_z Hp) as [Hz1 Hz2].
    destruct (In_unique_bounds c1 stacked min_y max_y p Hmin_y Hmax_y Hp) as [Hy1 Hy2].
    destruct (In_unique_bounds c2 stacked min_x max_x p Hmin_x Hmax_x Hp) as [Hx1 Hx2].
    pose proof (Qle_div_mult _ _ _ Hpos (Qle_ceiling ((max_z - min_z) / gap))) as Hdz.
    pose proof (Qle_div_mult _ _ _ Hsy
                  (Qle_ceiling ((max_y - (min_y - sy)) / sy))) as Hdy.
    pose proof (Qle_div_mult _ _ _ Hsx
                  (Qle_ceiling ((max_x - (min_x - sx)) / sx))) as Hdx.
    rewrite !inject_Z_plus. change (inject_Z 1) with 1.
    repeat split; lra.
Qed.

(** X13. In full synthetic mode the out-of-plane dimension counts gaps, not
    slices: when the distance between the smallest and the largest
    slice-axis value is [n] times the smallest gap, the new grid has [n]
    slices, and the largest value lies [n] spacings above the origin, which
    is the index just past the last slice. *)
Theorem create_image_dimension_counts_gaps
    (self : MaskDicomFileRTSTRUCT) (roi : ROIContour) (image : ImageFile)
    (use_orientation : bool) (contour_objects : list ContourClass)
    (mask_orientation : Mat3) (stacked : list Vec3)
    (gap min_z max_z : Q) (n : Z) :
  let z := np.unique (map c0 stacked) in
  _collect_contours roi = Ok (Some contour_objects) ->
  synthesized_orientation contour_objects = Ok mask_orientation ->
  normalised_points image mask_orientation contour_objects = Ok stacked ->
  np.min (np.diff z) = Ok gap ->
  np.min z = Ok min_z ->
  np.max z = Ok max_z ->
  max_z - min_z == inject_Z n * gap ->
  ~ c1 (image_spacing (grid image)) == 0 ->
  ~ c2 (image_spacing (grid image)) == 0 ->
  exists new_image,
    _create_image_from_contour self roi image use_orientation false = Ok new_image
    /\ fst (fst (image_dimension (grid new_image))) = n
    /\ (max_z - c0 (image_origin (grid new_image))) / c0 (image_spacing (grid new_image))
       == inject_Z n.
Proof.
  intros z Hcollect Horientation Hstacked Hgap Hmin_z Hmax_z Hn Hsy Hsx.
  assert (2 <= length z)%nat as Hlen.
  { destruct z as [|a [|b l]]; simpl in *; try discriminate; lia. }
  destruct (min_gap_positive (map c0 stacked) Hlen) as (gap' & Hgap' & Hpos).
  fold z in Hgap'. rewrite Hgap in Hgap'. injection Hgap' as <-.
  assert (stacked <> []) as Hne by (intros ->; simpl in Hlen; lia).
  destruct (extremes_defined c1 stacked Hne) as (min_y & max_y & Hmin_y & Hmax_y).
  destruct (extremes_defined c2 stacked Hne) as (min_x & max_x & Hmin_x & Hmax_x).
  assert ((max_z - min_z) / gap == inject_Z n) as Hdiv.
  { rewrite Hn. apply Qdiv_mult_l. lra. }
  eexists. split.
  - apply (full_mode_grid self roi image use_orientation contour_objects
             mask_orientation stacked gap min_z min_y min_x max_z max_y max_x);
      try assumption; lra.
  - cbn [grid image_origin image_spacing image_dimension fst c0].
    split; [|exact Hdiv].
    rewrite Hdiv. apply Qceiling_Z.
Qed.

(** X14. In mixed mode ([use_position] true) the method returns, for every
    collected ROI, a copy of the template image that keeps its class, its
    series UID, its origin, its spacing and its dimension, and takes the
    synthesized orientation; the orientation of the template is never
    used, whatever [use_orientation] says. *)
Theorem create_image_mixed_mode
    (self : MaskDicomFileRTSTRUCT) (roi : ROIContour) (image : ImageFile)
    (use_orientation : bool) (contour_objects : list ContourClass) :
  _collect_contours roi = Ok (Some contour_objects) ->
  exists mask_orientation,
    synthesized_orientation contour_objects = Ok mask_orientation
    /\ _create_image_from_contour self roi image use_orientation true
       = Ok {| image_class := image_class image;
               image_series_instance_uid := image_series_instance_uid image;
               grid := {| image_origin := image_origin (grid image);
                          image_spacing := image_spacing (grid image);
                          image_dimension := image_dimension (grid image);
                          image_orientation := mask_orientation |} |}.
Proof.
  intros Hcollect.
  destruct (synthesized_orientation_defined roi contour_objects Hcollect) as [R HR].
  exists R. split; [exact HR|].
  unfold _create_image_from_contour. rewrite Hcollect. cbn [bind negb].
  unfold synthesized_orientation in HR.
  destruct (item0 contour_objects) as [first_contour|e]; [|discriminate].
  cbn [bind] in HR |- *.
  destruct (np.vstack (contour first_contour)) as [points|e]; [|discriminate].
  cbn [bind] in HR |- *. injection HR as HR. now rewrite HR.
Qed.

End SyntheticGridBounds.

(** ** The masks of [to_object] *)

Lemma combine_filter_fst {A B : Type} (p : A -> bool) (names : list A) (numbers : list B) :
  combine (filter p names)
          (map snd (filter (fun '(name, _) => p name) (combine names numbers)))
  = filter (fun '(name, _) => p name) (combine names numbers).
Proof.
  revert numbers. induction names as [|a names IH]; intros numbers; [reflexivity|].
  destruct numbers as [|b numbers].
  - cbn [combine]. now destruct (filter p (a :: names)).
  - simpl. destruct (p a); simpl; now rewrite IH.
Qed.

Lemma In_combine_map {A B C : Type} (f : A -> B) (g : A -> C) (l : list A) (b : B) (c : C) :
  In (b, c) (combine (map f l) (map g l)) -> exists a, In a l /\ f a = b /\ g a = c.
Proof.
  induction l as [|a l IH]; simpl; [tauto|].
  intros [H|H].
  - injection H as <- <-. eauto.
  - destruct (IH H) as (a' & Ha' & Hf & Hg). eauto.
Qed.

Lemma item0_Ok {A : Type} (l : list A) (a : A) : item0 l = Ok a -> In a l.
Proof. destruct l; simpl; [discriminate|]. intros H. injection H as <-. now left. Qed.

Lemma string_in_dict_get (renaming : list (string * string)) (name : string) :
  string_in name (map fst renaming) = true ->
  exists new_name, dict_get renaming name = Some new_name.
Proof.
  unfold string_in. induction renaming as [|[k v] renaming IH]; simpl; [discriminate|].
  rewrite String.eqb_sym. destruct (String.eqb k name); simpl; eauto.
Qed.

Lemma is_empty_false {A : Type} (l : list A) : is_empty l = false -> l <> [].
Proof. now destruct l. Qed.

Lemma drop_none_length_le {A : Type} (l : list (option A)) :
  (length (drop_none l) <= length l)%nat.
Proof. induction l as [|[a|] l IH]; simpl; lia. Qed.

Lemma mapM_Ok_length {A B : Type} (f : A -> result B) (l : list A) (r : list B) :
  mapM f l = Ok r -> length r = length l.
Proof.
  revert r. induction l as [|a l IH]; intros r; simpl.
  - intros H. now injection H as <-.
  - destruct (f a); [|discriminate]. cbn [bind].
    destruct (mapM f l); [|discriminate]. cbn [bind].
    intros H. injection H as <-. simpl. now rewrite (IH _ eq_refl).
Qed.

Section NamedMasks.

Context {collaborators : Collaborators}.

(** What one pass of the loop of [to_object] puts into a mask. *)
Lemma roi_to_mask_fields (self : MaskDicomFileRTSTRUCT) (image : ImageFile)
    (policy : string) (names : list (option string)) (numbers : list (option Z))
    (item : ROIContour) (mask : BaseMask) :
  roi_to_mask self image policy names numbers item = Ok (Some mask) ->
  any (mask_image_data mask) = true
  /\ mask_sample_name mask = sample_name self
  /\ mask_image_modality mask = modality self
  /\ exists name number,
       In (name, number) (combine names numbers)
       /\ option_eqb Z.eqb number (referenced_roi_number item) = true
       /\ mask_roi_name mask
          = match roi_name self with
            | RoiDict renaming =>
                match name with
                | Some name => dict_get renaming name
                | None => None
                end
            | _ => name
            end.
Proof.
  unfold roi_to_mask. destruct (negb (number_in _ _)); [discriminate|].
  intros H. apply bind_Ok_inv in H. destruct H as ([[use_reference uo] up] & _ & H).
  apply bind_Ok_inv in H. destruct H as ([image_data|] & _ & H); [|discriminate].
  destruct (any image_data) eqn:Hany; [|discriminate]. cbn [negb] in H.
  apply bind_Ok_inv in H. destruct H as (dimension & _ & H).
  apply bind_Ok_inv in H. destruct H as (name & Hname & H).
  injection H as <-. cbn [mask_image_data mask_sample_name mask_image_modality mask_roi_name].
  repeat split; try assumption.
  apply item0_Ok, in_map_iff in Hname. destruct Hname as ([name' number] & <- & Hin).
  apply filter_In in Hin. destruct Hin as [Hin Heq].
  exists name', number. cbn [fst]. repeat split; assumption.
Qed.

(** X15. Every mask that [to_object] returns is named after a ROI of the
    Structure Set ROI Sequence that the selection admits and whose ROI
    number is the referenced ROI number of an item of the ROI Contour
    Sequence; with a dictionary selection the mask carries the new name of
    that ROI.  A returned mask always has a name. *)
Theorem to_object_masks_named_after_selected_rois
    (self : MaskDicomFileRTSTRUCT) (image : ImageFile) (policy : string)
    (masks : list BaseMask) :
  to_object self (Some image) policy = Ok (Some masks) ->
  exists rois items,
    structure_set_roi_sequence (image_metadata self) = Some rois
    /\ roi_contour_sequence (image_metadata self) = Some items
    /\ Forall (fun mask =>
         exists roi item name new_name,
           In roi rois /\ In item items
           /\ roi_name_tag roi = Some name
           /\ option_eqb Z.eqb (roi_number roi) (referenced_roi_number item) = true
           /\ admits (roi_name self) name = true
           /\ emitted_name (roi_name self) name = Some new_name
           /\ mask_roi_name mask = Some new_name) masks.
Proof.
  unfold to_object. destruct (check_mask self) eqn:Hcheck; [|discriminate].
  cbn [negb]. unfold check_mask in Hcheck.
  destruct (structure_set_roi_sequence (image_metadata self)) as [rois|];
    [|discriminate].
  destruct (is_empty (map roi_name_tag rois)); [discriminate|].
  destruct (existsb is_none (map roi_name_tag rois)) eqn:Hnamed; [discriminate|].
  clear Hcheck. cbn [subscript bind].
  assert (forall name number,
            In (name, number)
               (let '(numbers, names) :=
                  match provided_roi_names self with
                  | Some provided =>
                      (map snd (filter (fun '(name, _) => name_in name provided)
                                  (combine (map roi_name_tag rois) (map roi_number rois))),
                       filter (fun name => name_in name provided) (map roi_name_tag rois))
                  | None => (map roi_number rois, map roi_name_tag rois)
                  end in combine names numbers) ->
            exists roi text,
              In roi rois /\ roi_name_tag roi = Some text /\ name = Some text
              /\ roi_number roi = number /\ admits (roi_name self) text = true)
    as Hselected.
  { intros name number Hin.
    assert (In (name, number) (combine (map roi_name_tag rois) (map roi_number rois))
            /\ match provided_roi_names self with
               | Some provided => name_in name provided = true
               | None => True
               end) as [Hin' Hadmitted].
    { destruct (provided_roi_names self) as [provided|]; [|now split].
      rewrite (combine_filter_fst (fun name => name_in name provided)) in Hin.
      apply filter_In in Hin. exact Hin. }
    apply In_combine_map in Hin'. destruct Hin' as (roi & Hroi & Hn & Hnum).
    destruct name as [text|].
    - exists roi, text. repeat split; try assumption.
      unfold provided_roi_names in Hadmitted. unfold admits.
      destruct (roi_name self); try reflexivity; exact Hadmitted.
    - exfalso. assert (existsb is_none (map roi_name_tag rois) = true) as Habsurd.
      { apply existsb_exists. exists None. split; [|reflexivity].
        rewrite <- Hn. now apply in_map. }
      congruence. }
  destruct (match provided_roi_names self with
            | Some provided => _
            | None => _
            end) as [numbers names].
  destruct (is_empty numbers); [discriminate|].
  intros H. destruct (roi_contour_sequence (image_metadata self)) as [items|];
    [|discriminate].
  cbn [subscript bind] in H.
  apply bind_Ok_inv in H. destruct H as (results & Hresults & H).
  destruct (is_empty (drop_none results)); [discriminate|].
  injection H as <-. exists rois, items. repeat split.
  apply Forall_forall. intros mask Hmask. apply drop_none_In in Hmask.
  pose proof (mapM_Ok_each _ _ _ Hresults) as Heach.
  rewrite Forall_forall in Heach. destruct (Heach _ Hmask) as (item & Hitem & Hmade).
  apply roi_to_mask_fields in Hmade.
  destruct Hmade as (_ & _ & _ & name & number & Hin & Hnumber & Hname).
  destruct (Hselected name number Hin) as (roi & text & Hroi & Htag & -> & <- & Hadmits).
  assert (exists new_name, emitted_name (roi_name self) text = Some new_name
                           /\ mask_roi_name mask = Some new_name) as (new_name & H1 & H2).
  { rewrite Hname. unfold emitted_name, admits in *.
    destruct (roi_name self) as [|selected|selection|renaming]; eauto.
    destruct (string_in_dict_get renaming text Hadmits) as [new_name Hnew].
    exists new_name. now rewrite Hnew. }
  exists roi, item, text, new_name. repeat split; assumption.
Qed.

(** X16. [to_object] never returns an empty list: a list it returns has at
    least one mask and at most one mask per item of the ROI Contour
    Sequence, every mask has at least one voxel set, and every mask carries
    the sample name and the modality of the structure set. *)
Theorem to_object_masks_nonempty
    (self : MaskDicomFileRTSTRUCT) (image : ImageFile) (policy : string)
    (masks : list BaseMask) :
  to_object self (Some image) policy = Ok (Some masks) ->
  masks <> []
  /\ (exists items,
        roi_contour_sequence (image_metadata self) = Some items
        /\ (length masks <= length items)%nat)
  /\ Forall (fun mask =>
       any (mask_image_data mask) = true
       /\ mask_sample_name mask = sample_name self
       /\ mask_image_modality mask = modality self) masks.
Proof.
  unfold to_object. destruct (negb (check_mask self)); [discriminate|].
  intros H. apply bind_Ok_inv in H. destruct H as (rois & _ & H).
  destruct (match provided_roi_names self with
            | Some names => _
            | None => _
            end) as [numbers names].
  destruct (is_empty numbers); [discriminate|].
  apply bind_Ok_inv in H. destruct H as (items & Hitems & H).
  apply bind_Ok_inv in H. destruct H as (results & Hresults & H).
  destruct (is_empty (drop_none results)) eqn:E; [discriminate|].
  injection H as <-. split; [now apply is_empty_false|]. split.
  - exists items. split.
    + destruct (roi_contour_sequence (image_metadata self)); [|discriminate].
      simpl in Hitems. now injection Hitems as ->.
    + rewrite <- (mapM_Ok_length _ _ _ Hresults). apply drop_none_length_le.
  - apply Forall_forall. intros mask Hmask. apply drop_none_In in Hmask.
    pose proof (mapM_Ok_each _ _ _ Hresults) as Heach.
    rewrite Forall_forall in Heach. destruct (Heach _ Hmask) as (item & _ & Hmade).
    apply roi_to_mask_fields in Hmade. tauto.
Qed.

(** X17. One ROI of the Structure Set ROI Sequence without a ROI name makes
    [to_object] return [None] for the whole structure set, whatever the
    selection and the other ROIs are. *)
Theorem to_object_nameless_roi_blocks_all
    (self : MaskDicomFileRTSTRUCT) (image : ImageFile) (policy : string)
    (rois : list StructureSetROI) (roi : StructureSetROI) :
  structure_set_roi_sequence (image_metadata self) = Some rois ->
  In roi rois ->
  roi_name_tag roi = None ->
  to_object self (Some image) policy = Ok None.
Proof.
  intros Hrois Hroi Hname. unfold to_object, check_mask. rewrite Hrois.
  destruct (is_empty (map roi_name_tag rois)); [reflexivity|].
  assert (existsb is_none (map roi_name_tag rois) = true) as ->; [|reflexivity].
  apply existsb_exists. exists None. split; [|reflexivity].
  rewrite <- Hname. now apply in_map.
Qed.

(** X18. When every ROI of the structure set has a name, the selection
    admits one of them and the ROI Contour Sequence is missing, [to_object]
    raises [KeyError]. *)
Theorem to_object_missing_contour_sequence
    (self : MaskDicomFileRTSTRUCT) (image : ImageFile) (policy : string)
    (rois : list StructureSetROI) (roi : StructureSetROI) (name : string) :
  structure_set_roi_sequence (image_metadata self) = Some rois ->
  Forall (fun roi => roi_name_tag roi <> None) rois ->
  In roi rois ->
  roi_name_tag roi = Some name ->
  admits (roi_name self) name = true ->
  roi_contour_sequence (image_metadata self) = None ->
  to_object self (Some image) policy = Raise KeyError.
Proof.
  intros Hrois Hnamed Hroi Hname Hadmits Hmissing.
  unfold to_object, check_mask. rewrite Hrois.
  assert (is_empty (map roi_name_tag rois) = false) as ->.
  { destruct rois; [destruct Hroi | reflexivity]. }
  assert (existsb is_none (map roi_name_tag rois) = false) as ->.
  { apply not_true_is_false. intros H. apply existsb_exists in H.
    destruct H as (x & Hx & Hnone). apply in_map_iff in Hx.
    destruct Hx as (roi' & <- & Hroi'). rewrite Forall_forall in Hnamed.
    apply (Hnamed roi' Hroi'). now destruct (roi_name_tag roi'). }
  cbn [negb subscript bind].
  assert (is_empty
            (fst (match provided_roi_names self with
                  | Some provided =>
                      (map snd (filter (fun '(name, _) => name_in name provided)
                                  (combine (map roi_name_tag rois) (map roi_number rois))),
                       filter (fun name => name_in name provided) (map roi_name_tag rois))
                  | None => (map roi_number rois, map roi_name_tag rois)
                  end)) = false) as Hselected.
  { assert (In (Some name, roi_number roi)
               (combine (map roi_name_tag rois) (map roi_number rois))) as Hin.
    { clear - Hroi Hname. induction rois as [|r rois IH]; [destruct Hroi|].
      destruct Hroi as [->|Hroi]; simpl; [left; now rewrite Hname | right; auto]. }
    destruct (provided_roi_names self) as [provided|] eqn:Hprovided; cbn [fst].
    - assert (In (Some name, roi_number roi)
                 (filter (fun '(name, _) => name_in name provided)
                    (combine (map roi_name_tag rois) (map roi_number rois)))) as Hin'.
      { apply filter_In. split; [exact Hin|]. cbn [name_in].
        unfold provided_roi_names in Hprovided. unfold admits in Hadmits.
        destruct (roi_name self); try discriminate;
          injection Hprovided as <-; exact Hadmits. }
      destruct (filter _ _); [destruct Hin' | reflexivity].
    - destruct rois; [destruct Hroi | reflexivity]. }
  destruct (match provided_roi_names self with
            | Some provided => _
            | None => _
            end) as [numbers names].
  cbn [fst] in Hselected. rewrite Hselected, Hmissing. reflexivity.
Qed.

(** X19. When the selection names no ROI of the structure set, [to_object]
    returns [None], also when the ROI Contour Sequence is missing or
    malformed: the contours are not read. *)
Theorem to_object_selection_without_match
    (self : MaskDicomFileRTSTRUCT) (image : ImageFile) (policy : string)
    (rois : list StructureSetROI) :
  structure_set_roi_sequence (image_metadata self) = Some rois ->
  Forall (fun roi => match roi_name_tag roi with
                     | Some name => admits (roi_name self) name = false
                     | None => True
                     end) rois ->
  to_object self (Some image) policy = Ok None.
Proof.
  intros Hrois Hnone. unfold to_object.
  destruct (check_mask self) eqn:Hcheck; [|reflexivity]. cbn [negb].
  rewrite Hrois. cbn [subscript bind].
  destruct (provided_roi_names self) as [provided|] eqn:Hprovided.
  - assert (filter (fun '(name, _) => name_in name provided)
              (combine (map roi_name_tag rois) (map roi_number rois)) = []) as ->;
      [|reflexivity].
    clear Hrois. induction Hnone as [|roi rois Hroi _ IH]; [reflexivity|].
    simpl. rewrite IH.
    destruct (roi_name_tag roi) as [name|]; [|reflexivity].
    cbn [name_in]. unfold provided_roi_names in Hprovided. unfold admits in Hroi.
    destruct (roi_name self); try discriminate; injection Hprovided as <-;
      now rewrite Hroi.
  - destruct rois as [|roi rois]; [reflexivity|].
    apply Forall_inv in Hnone. unfold provided_roi_names in Hprovided.
    unfold admits in Hnone.
    destruct (roi_name self); try discriminate.
    destruct (roi_name_tag roi) as [name|] eqn:Hname; [discriminate|].
    (* a nameless ROI: [check_mask] has failed *)
    unfold check_mask in Hcheck. rewrite Hrois in Hcheck. simpl in Hcheck.
    rewrite Hname in Hcheck. discriminate.
Qed.

End NamedMasks.

(** X20. [export_roi_labels] returns a rectangular table: for a structure
    set with a Structure Set ROI Sequence the four columns have the same
    length, the number of ROIs or one for an empty sequence; the label
    column lists the ROI names in order, and [None] alone for an empty
    sequence. *)
Theorem export_roi_labels_rectangular
    (self : MaskDicomFileRTSTRUCT) (dir_path file_name : option string)
    (rois : list StructureSetROI) :
  structure_set_roi_sequence (image_metadata self) = Some rois ->
  exists table,
    export_roi_labels self dir_path file_name = Ok table
    /\ length (labels_sample_name table) = Nat.max 1 (length rois)
    /\ length (labels_dir_path table) = Nat.max 1 (length rois)
    /\ length (labels_file_path table) = Nat.max 1 (length rois)
    /\ length (labels_roi_label table) = Nat.max 1 (length rois)
    /\ labels_roi_label table
       = match rois with [] => [None] | _ => map roi_name_tag rois end.
Proof.
  intros Hrois. unfold export_roi_labels. rewrite Hrois. cbn [subscript bind].
  eexists. split; [reflexivity|].
  cbn [labels_sample_name labels_dir_path labels_file_path labels_roi_label].
  rewrite !repeat_length, length_map.
  destruct rois as [|roi rois]; repeat split; simpl; now rewrite ?length_map.
Qed.

(** ** Modalities, nested lists and file names *)

(** X21. A named modality that is accepted gives a list with one canonical
    name.  For images that name is always among the names listed for no
    modality; for masks it is among them unless the modality is rtstruct,
    whose canonical name the list for no modality does not contain. *)
Theorem supported_modalities_against_default_list
    (lower : string -> string) (modality : string) :
  (forall names,
     supported_image_modalities lower (Some modality) = Ok names ->
     exists name all_names,
       names = [name]
       /\ supported_image_modalities lower None = Ok all_names
       /\ In name all_names)
  /\ (forall names,
        supported_mask_modalities lower (Some modality) = Ok names ->
        exists name all_names,
          names = [name]
          /\ supported_mask_modalities lower None = Ok all_names
          /\ (In name all_names <-> lower modality <> "rtstruct"%string)).
Proof.
  split; intros names.
  - unfold supported_image_modalities. cbn [option_map].
    destruct (String.eqb (lower modality) "ct");
      [|destruct (string_in (lower modality) ["pt"; "pet"]%string);
        [|destruct (string_in (lower modality) ["mr"; "mri"]%string);
          [|destruct (String.eqb (lower modality) "generic"); [|discriminate]]]];
      intros H; injection H as <-; eexists; eexists;
      (split; [reflexivity|]); (split; [reflexivity|]); simpl; tauto.
  - unfold supported_mask_modalities. cbn [option_map].
    destruct (String.eqb (lower modality) "rtstruct") eqn:E1.
    + intros H. injection H as <-. apply String.eqb_eq in E1.
      eexists; eexists. split; [reflexivity|]. split; [reflexivity|].
      split; [|congruence]. simpl. intros [H|[H|[H|[]]]]; discriminate.
    + apply String.eqb_neq in E1.
      destruct (string_in (lower modality) ["seg"%string]);
        [|destruct (String.eqb (lower modality) "generic_mask"); [|discriminate]];
        intros H; injection H as <-; eexists; eexists;
        (split; [reflexivity|]); (split; [reflexivity|]); simpl; tauto.
Qed.

Section NestedLists.

Context {A : Type}.

Lemma flatten_list_deeper (depth depth' : nat) (l r : list (nested A)) :
  (depth <= depth')%nat ->
  flatten_list depth l = Ok r -> flatten_list depth' l = Ok r.
Proof.
  revert depth' l r. induction depth as [|depth IH]; intros depth' l r Hle;
    [discriminate|].
  destruct depth' as [|depth']; [lia|].
  assert (depth <= depth')%nat as Hle' by lia.
  destruct l as [|[a|head] tail]; cbn [flatten_list].
  - trivial.
  - destruct (flatten_list depth tail) as [flat_tail|e] eqn:E; cbn [bind]; [|discriminate].
    now rewrite (IH depth' tail flat_tail Hle' E).
  - destruct (flatten_list depth head) as [flat_head|e] eqn:E1; cbn [bind]; [|discriminate].
    destruct (flatten_list depth tail) as [flat_tail|e] eqn:E2; cbn [bind]; [|discriminate].
    now rewrite (IH depth' head flat_head Hle' E1), (IH depth' tail flat_tail Hle' E2).
Qed.




(** X23. [flatten_list] keeps the order of the entries, and what it returns
    does not depend on how many calls may still be nested: a result
    obtained at one depth is the result at every greater depth, and when
    two lists are flattened at some depth, their concatenation is flattened
    to the concatenation of the two results once the depth is greater by
    the length of the first list. *)
Theorem flatten_list_concatenation (depth depth' : nat) (l1 l2 r1 r2 : list (nested A)) :
  flatten_list depth l1 = Ok r1 ->
  flatten_list depth l2 = Ok r2 ->
  (depth <= depth')%nat ->
  flatten_list depth' l1 = Ok r1
  /\ flatten_list (length l1 + depth) (l1 ++ l2) = Ok (r1 ++ r2).
Proof.
  intros H1 H2 Hle. split; [now apply (flatten_list_deeper depth)|].
  clear depth' Hle. revert r1 H1.
  induction l1 as [|x tail IH]; intros r1 H1.
  - destruct depth; [discriminate|]. cbn [flatten_list] in H1. injection H1 as <-.
    exact H2.
  - destruct depth as [|depth0]; [discriminate|].
    cbn [length Nat.add app flatten_list].
    destruct x as [a|head]; cbn [flatten_list] in H1.
    + destruct (flatten_list depth0 tail) as [flat_tail|e] eqn:E; cbn [bind] in H1;
        [|discriminate].
      injection H1 as <-.
      rewrite (IH flat_tail (flatten_list_deeper depth0 (S depth0) _ _ (Nat.le_succ_diag_r _) E)).
      reflexivity.
    + destruct (flatten_list depth0 head) as [flat_head|e] eqn:E1; cbn [bind] in H1;
        [|discriminate].
      destruct (flatten_list depth0 tail) as [flat_tail|e] eqn:E2; cbn [bind] in H1;
        [|discriminate].
      injection H1 as <-.
      rewrite (flatten_list_deeper depth0 (length tail + S depth0) head flat_head
                 ltac:(lia) E1).
      cbn [bind].
      rewrite (IH flat_tail (flatten_list_deeper depth0 (S depth0) _ _ (Nat.le_succ_diag_r _) E2)).
      cbn [bind]. now rewrite app_assoc.
Qed.

End NestedLists.

Lemma substring_all (s : string) : substring 0 (String.length s) s = s.
Proof. induction s as [|c s IH]; simpl; [reflexivity | now rewrite IH]. Qed.

Lemma substring_split (s : string) (n : nat) :
  (n <= String.length s)%nat ->
  (substring 0 n s ++ substring n (String.length s - n) s)%string = s.
Proof.
  revert n. induction s as [|c s IH]; intros n Hn.
  - simpl in Hn. assert (n = 0)%nat as -> by lia. reflexivity.
  - destruct n as [|n].
    + change (substring 0 0 (String c s)) with EmptyString.
      rewrite Nat.sub_0_r. cbn [append]. apply substring_all.
    + simpl in Hn. cbn [substring String.length Nat.sub append].
      rewrite IH by lia. reflexivity.
Qed.

Lemma endswith_removesuffix (s suffix : string) :
  endswith s suffix = true -> (removesuffix s suffix ++ suffix)%string = s.
Proof.
  intros H. unfold removesuffix. rewrite H. unfold endswith in H.
  apply andb_prop in H. destruct H as [Hlen Heq].
  apply Nat.leb_le in Hlen. apply String.eqb_eq in Heq.
  pose proof (substring_split s (String.length s - String.length suffix)) as Hsplit.
  replace (String.length s - (String.length s - String.length suffix))%nat
    with (String.length suffix) in Hsplit by lia.
  rewrite Heq in Hsplit. apply Hsplit. lia.
Qed.

Section StrippedNames.

Variable basename : string -> string.

Lemma strip_extension_spec (name : string) (extensions : list string) :
  (exists before extension after,
      extensions = before ++ extension :: after
      /\ Forall (fun e => endswith name e = false) before
      /\ endswith name extension = true
      /\ (strip_extension name extensions ++ extension)%string = name)
  \/ (Forall (fun e => endswith name e = false) extensions
      /\ strip_extension name extensions = name).
Proof.
  induction extensions as [|e extensions IH]; [right; split; [constructor | reflexivity]|].
  simpl. destruct (endswith name e) eqn:He.
  - left. exists [], e, extensions. repeat split; [constructor | exact He |].
    now apply endswith_removesuffix.
  - destruct IH as [(before & extension & after & -> & Hbefore & Hext & Heq)|[Hnone Heq]].
    + left. exists (e :: before), extension, after.
      repeat split; [constructor; assumption | exact Hext | exact Heq].
    + right. split; [constructor; assumption | exact Heq].
Qed.

(** X24. [bare_file_name] on a list returns one name per path; each is
    the base name of its path without one extension, the first extension of
    the list that the base name ends with, or the base name itself when it
    ends with none of them.  An extension is never stripped twice. *)
Theorem bare_file_name_strips_first_matching_extension
    (paths extensions : list string) :
  exists names,
    bare_file_name basename (Lst paths) (Lst extensions) = Ok (Lst names)
    /\ Forall2
         (fun path name =>
            (exists before extension after,
                extensions = before ++ extension :: after
                /\ Forall (fun e => endswith (basename path) e = false) before
                /\ endswith (basename path) extension = true
                /\ (name ++ extension)%string = basename path)
            \/ (Forall (fun e => endswith (basename path) e = false) extensions
                /\ name = basename path))
         paths names.
Proof.
  eexists. split; [reflexivity|].
  rewrite map_map. induction paths as [|path paths IH]; constructor; [|exact IH].
  apply strip_extension_spec.
Qed.

End StrippedNames.

(** X25. For a range of two numbers and a positive [extend_fraction],
    [extend_intensity_range] widens the range by a tenth of its width at
    either end: the new width is 12/10 of the old one around the same
    centre, and the result does not depend on the value of
    [extend_fraction]. *)
Theorem extend_intensity_range_ignores_fraction (lower upper fraction other : Q) :
  0 < fraction ->
  0 < other ->
  exists lower' upper',
    extend_intensity_range (Some [Some lower; Some upper]) (Some fraction)
    = Ok (Some [Some lower'; Some upper'])
    /\ extend_intensity_range (Some [Some lower; Some upper]) (Some other)
       = Ok (Some [Some lower'; Some upper'])
    /\ upper' - lower' == (12 # 10) * (upper - lower)
    /\ lower' + upper' == lower + upper.
Proof.
  intros Hfraction Hother.
  assert (forall f, 0 < f -> Qle_bool f 0 = false) as Hpositive.
  { intros f Hf. apply not_true_is_false. rewrite Qle_bool_iff. lra. }
  unfold extend_intensity_range. cbn [existsb isnan is_none orb].
  rewrite (Hpositive _ Hfraction), (Hpositive _ Hother).
  cbn [index nth_error bind assign float_mul float_sub float_add].
  eexists. eexists. split; [reflexivity|]. split; [reflexivity|]. split; field.
Qed.

(** * The methods on concrete structure sets *)

Import SpecModel Examples.



Lemma convert_rejects_unconfirmed_gaps_witness :
  _convert_contour_using_image (other_series [roi_slices_0_5]) roi_slices_0_5
    (Some reference_image) = Ok (false, true, false).
Proof.
  eapply (convert_rejects_unconfirmed_gaps (other_series [roi_slices_0_5])
            roi_slices_0_5 reference_image);
    vm_compute; reflexivity.
Defined.

Lemma convert_accepts_single_slice_witness :
  _convert_contour_using_image (other_series [roi_slice_2]) roi_slice_2
    (Some reference_image) = Ok (true, true, true).
Proof.
  eapply (convert_accepts_single_slice (other_series [roi_slice_2]) roi_slice_2
            reference_image); vm_compute; reflexivity.
Defined.

(** C3, as stated, fails: a contour that lies on one plane, half way between
    two slices of the reference image, occupies a single slice position, and
    the reference image is rejected because that position is not an
    integer.  A contour on slice 2 alone passes both checks; with a
    Referenced Frame of Reference Sequence that is present and empty, the
    SOP-UID identity check raises [IndexError] and so does the method. *)
Lemma single_slice_between_slices_rejected :
  exists contour_objects,
    _collect_contours roi_between_slices = Ok (Some contour_objects)
    /\ np.unique (map c0 (roi_points contour_objects)) = [5 # 2]
    /\ slice_positions (map (to_voxel_coordinates reference_image) contour_objects)
       = Ok [5 # 2]
    /\ length (np.unique [5 # 2]) = 1%nat
    /\ _convert_contour_using_image (other_series [roi_between_slices])
         roi_between_slices (Some reference_image) = Ok (false, true, false)
    /\ sop_uid_correct (empty_frame_sequence [roi_slice_2]) roi_slice_2 reference_image
       = Raise IndexError
    /\ _convert_contour_using_image (empty_frame_sequence [roi_slice_2]) roi_slice_2
         (Some reference_image) = Raise IndexError.
Proof.
  eexists. split; [reflexivity|]. repeat split; vm_compute; reflexivity.
Qed.

(** C4 at a failing input.  The only SOP instance UID that the ROI refers to
    is the UID of slice 0 of the reference image, so the referenced UIDs are
    a non-empty subset of the reference image's UIDs; the check is
    nevertheless false, and with it the reference image is rejected.  A
    second reference is enough to make the check pass. *)
Lemma sop_uid_check_fails_on_single_reference :
  referenced_sop_uids (other_series [roi_one_reference]) roi_one_reference
  = Ok ["1.2.3.0"%string]
  /\ (exists reference,
        reference_sop_instance_uid reference_image = Some reference
        /\ set_superset reference ["1.2.3.0"%string] = true)
  /\ sop_uid_correct (other_series [roi_one_reference]) roi_one_reference
       reference_image = Ok false
  /\ _convert_contour_using_image (other_series [roi_one_reference])
       roi_one_reference (Some reference_image) = Ok (false, true, false)
  /\ sop_uid_correct (other_series [roi_two_references]) roi_two_references
       reference_image = Ok true
  /\ _convert_contour_using_image (other_series [roi_two_references])
       roi_two_references (Some reference_image) = Ok (true, true, true).
Proof.
  split; [reflexivity|]. split; [eexists; split; reflexivity|].
  repeat split; vm_compute; reflexivity.
Qed.


Lemma orientation_from_first_contour_witness :
  exists orientation new_image,
    synthesized_orientation contours_0_5 = Ok orientation
    /\ orientation_of_point_cloud (firstn 4 points_0_5) orientation = true
    /\ _create_image_from_contour (other_series [roi_slices_0_5]) roi_slices_0_5
         reference_image true true = Ok new_image
    /\ image_orientation (grid new_image) = orientation.
Proof.
  assert (_collect_contours roi_slices_0_5 = Ok (Some contours_0_5)) as H
    by (vm_compute; reflexivity).
  destruct (orientation_from_first_contour (other_series [roi_slices_0_5])
              roi_slices_0_5 reference_image true true contours_0_5 H)
    as (first_contour & rest & polygon & orientation & Hcontours & Hpolygon & Hsynth
        & _ & Hcloud & Horientation & new_image & Hnew).
  injection Hcontours as <- <-. injection Hpolygon as <-.
  exists orientation, new_image.
  split; [exact Hsynth|].
  split; [apply Hcloud; vm_compute; reflexivity|].
  split; [exact Hnew|].
  exact (Horientation new_image Hnew).
Defined.

(** C5, as stated, fails.  For contours on slices 0 and 5 the method hands
    the points of the first contour only to the SVD.  The coordinate axes,
    with any signs, are left singular vectors of that contour, and the
    orientation they give fits the point cloud of the first contour; with
    no choice of signs is it made of the reversed left singular vectors of
    the cloud of all contour points of the ROI, whose least-varying axis is
    another one. *)
Lemma orientation_ignores_later_contours :
  _collect_contours roi_slices_0_5 = Ok (Some contours_0_5)
  /\ roi_points contours_0_5 = points_0_5
  /\ (exists orientation,
        synthesized_orientation contours_0_5 = Ok orientation
        /\ orientation_of_point_cloud (firstn 4 points_0_5) orientation = true
        /\ orientation_as_specified contours_0_5 orientation = false)
  /\ forallb (fun s =>
                is_left_singular_basis (centred (firstn 4 points_0_5))
                  (reverse_columns (flip_columns s identity3))
                && negb (orientation_of_point_cloud points_0_5 (flip_columns s identity3)))
             all_signs = true.
Proof.
  split; [vm_compute; reflexivity|]. split; [reflexivity|].
  split; [|vm_compute; reflexivity].
  eexists. split; [vm_compute; reflexivity|]. split; vm_compute; reflexivity.
Qed.

(** Whether the handedness block leaves a right-handed orientation depends
    on the signs of the singular vectors.  For a contour on slice 0 that is
    longer along y than along x, each of the eight choices of signs gives
    left singular vectors of the contour; for four of them the synthesized
    orientation has determinant 1, for the other four the columns that are
    negated are two or none, and the determinant stays -1. *)
Lemma handedness_depends_on_signs :
  _collect_contours roi_tall
  = Ok (Some [{| contour := [[(0, 2, 2); (0, 2, 4); (0, 6, 4); (0, 6, 2)]] |}])
  /\ forallb (fun s =>
                is_left_singular_basis
                  (centred [(0, 2, 2); (0, 2, 4); (0, 6, 4); (0, 6, 2)])
                  (@svd_U (signed_collaborators s)
                     (centred [(0, 2, 2); (0, 2, 4); (0, 6, 4); (0, 6, 2)])))
             all_signs = true
  /\ map (fun s =>
            match @synthesized_orientation (signed_collaborators s)
                    [{| contour := [[(0, 2, 2); (0, 2, 4); (0, 6, 4); (0, 6, 2)]] |}]
            with
            | Ok orientation => (Qeq_bool (det orientation) 1,
                                 Qeq_bool (det orientation) (-1))
            | Raise _ => (false, false)
            end)
         all_signs
     = [(false, true); (true, false); (true, false); (false, true);
        (true, false); (false, true); (false, true); (true, false)].
Proof. repeat split; vm_compute; reflexivity. Qed.

Lemma slice_matching_drops_without_raising_witness :
  match_slices reference_image three_positions three_masks = Ok (Some ([3%Z], [[[true]]])).
Proof.
  assert (length three_masks = length three_positions) as Hlen by reflexivity.
  assert (Forall (fun slice_position =>
                    (length (matching_indices slice_position
                               (get_slice_position reference_image)
                               (c0 (image_spacing (grid reference_image)))) <= 1)%nat)
                 three_positions) as Hunique.
  { repeat constructor; vm_compute; lia. }
  destruct (slice_matching_drops_without_raising reference_image three_positions
              three_masks Hlen Hunique) as [_ H].
  rewrite H. vm_compute. reflexivity.
Defined.

(** C7, as stated, fails: with two known slice positions within the rounding
    tolerance of the slice position, [_match_slice_position] raises, and so
    does [convert_contour_to_mask] on an image whose slices are that close
    together. *)
Lemma slice_matching_raises_on_two_matches :
  matching_indices 0 [0; 1 # 4000] 1 = [0%Z; 1%Z]
  /\ _match_slice_position 0 [0; 1 # 4000] 1 = Raise TypeError
  /\ matching_indices 0 (get_slice_position fine_image)
       (c0 (image_spacing (grid fine_image))) = [0%Z; 1%Z]
  /\ convert_contour_to_mask (other_series [roi_single_voxel]) roi_single_voxel
       (Some fine_image) "ray_cast" "keep_as_is" = Raise TypeError.
Proof. repeat split; vm_compute; reflexivity. Qed.

Lemma convert_keep_largest_face_edge_component_witness :
  exists roi_mask',
    convert_contour_to_mask (other_series [roi_corner_touch]) roi_corner_touch
      (Some small_image) "ray_cast" "keep_largest" = Ok (Some roi_mask')
    /\ shape roi_mask' = shape corner_volume
    /\ convert_contour_to_mask (other_series [roi_corner_touch]) roi_corner_touch
         (Some small_image) "ray_cast" "keep_all" = Ok (Some corner_volume).
Proof.
  assert (convert_contour_to_mask (other_series [roi_corner_touch]) roi_corner_touch
            (Some small_image) "ray_cast" "keep_as_is" = Ok (Some corner_volume)) as H1
    by (vm_compute; reflexivity).
  assert (any corner_volume = true) as H2 by reflexivity.
  destruct (convert_keep_largest_face_edge_component (other_series [roi_corner_touch])
              roi_corner_touch (Some small_image) "ray_cast" corner_volume H1 H2)
    as (Hother & k & region & seed & roi_mask' & Hkeep & _ & _ & _ & Hshape & _).
  exists roi_mask'. split; [exact Hkeep|]. split; [exact Hshape|].
  apply Hother. reflexivity.
Defined.

(** C8, as stated, fails.  The assembled volume has two true voxels,
    (0, 1, 1) and (1, 2, 2), which touch at a corner: under 26-connectivity
    they are one component of two voxels, the largest.  "keep_largest"
    returns the first voxel alone, because the labelling runs with
    [connectivity=2], under which voxels that share only a corner are not
    neighbours. *)
Lemma keep_largest_splits_corner_neighbours :
  convert_contour_to_mask (other_series [roi_corner_touch]) roi_corner_touch
    (Some small_image) "ray_cast" "keep_as_is" = Ok (Some corner_volume)
  /\ foreground corner_volume = [(0, 1, 1); (1, 2, 2)]%nat
  /\ neighbour 3 (0, 1, 1)%nat (1, 2, 2)%nat = true
  /\ label corner_volume 3 = [[(0, 1, 1); (1, 2, 2)]%nat]
  /\ label corner_volume 2 = [[(0, 1, 1)%nat]; [(1, 2, 2)%nat]]
  /\ exists roi_mask',
       convert_contour_to_mask (other_series [roi_corner_touch]) roi_corner_touch
         (Some small_image) "ray_cast" "keep_largest" = Ok (Some roi_mask')
       /\ foreground roi_mask' = [(0, 1, 1)%nat]
       /\ voxel_at roi_mask' (1, 2, 2)%nat = false.
Proof.
  repeat (split; [vm_compute; reflexivity|]).
  eexists. split; [vm_compute; reflexivity|]. split; reflexivity.
Qed.

(** C1 at a failing input.  The rectangle lies in a plane at right angles to
    the slices of the reference image, and its first point has an integer
    slice coordinate: the selector returns
    [(False, False, True)], the temporary image takes origin, spacing and
    dimension of the reference image and the synthesized orientation, the
    array is drawn on the temporary image and has voxels set, and the mask
    that [to_object] emits for it carries the orientation of the reference
    image, which is not the orientation of the temporary image. *)
Lemma to_object_emits_reference_grid_for_synthetic_mask_witness :
  exists mask temporary_image,
    to_object (other_series [roi_coronal]) (Some reference_image) "keep_as_is"
    = Ok (Some [mask])
    /\ _convert_contour_using_image (other_series [roi_coronal])
         roi_coronal (Some reference_image) = Ok (false, false, true)
    /\ _create_image_from_contour (other_series [roi_coronal])
         roi_coronal reference_image false true = Ok temporary_image
    /\ convert_contour_to_mask (other_series [roi_coronal]) roi_coronal
         (Some temporary_image) "ray_cast" "keep_as_is" = Ok (Some (mask_image_data mask))
    /\ any (mask_image_data mask) = true
    /\ image_orientation (mask_grid mask) = image_orientation (grid reference_image)
    /\ image_orientation (grid temporary_image)
       <> image_orientation (grid reference_image).
Proof.
  assert (exists mask,
            to_object (other_series [roi_coronal]) (Some reference_image)
              "keep_as_is" = Ok (Some [mask])) as [mask H]
    by (vm_compute; eexists; reflexivity).
  destruct (to_object_emits_reference_grid_for_synthetic_mask _ _ _ _ H)
    as (items & Hitems & Hall).
  injection Hitems as <-.
  inversion Hall as [|? ? (roi & use_reference & uo & up & drawing_image & Hin & Hselector
                           & Hdrawing & Hdrawn & _ & _ & Horientation) _]; subst.
  destruct Hin as [<-|[]].
  assert (_convert_contour_using_image (other_series [roi_coronal])
            roi_coronal (Some reference_image) = Ok (false, false, true))
    as Hrejected by (vm_compute; reflexivity).
  rewrite Hrejected in Hselector. injection Hselector as <- <- <-.
  exists mask, drawing_image.
  split; [exact H|]. split; [exact Hrejected|]. split; [exact Hdrawing|].
  split; [exact Hdrawn|].
  split; [vm_compute in H; injection H as <-; reflexivity|].
  split; [exact Horientation|].
  vm_compute in Hdrawing. injection Hdrawing as <-. discriminate.
Defined.

(** The run of C1 does not depend on the signs of the singular vectors: for
    each of the eight choices the singular vectors meet the contract of the
    SVD, a mask with voxels set is emitted, it carries the orientation of
    the reference image, and the temporary image on which it was drawn has
    another orientation. *)
Lemma coronal_mask_for_every_sign :
  forallb
    (fun s =>
       is_left_singular_basis (centred coronal_points)
         (@svd_U (signed_collaborators s) (centred coronal_points))
       && match @to_object (signed_collaborators s) (other_series [roi_coronal])
                  (Some reference_image) "keep_as_is",
                @_create_image_from_contour (signed_collaborators s)
                  (other_series [roi_coronal]) roi_coronal reference_image false true
          with
          | Ok (Some [mask]), Ok temporary_image =>
              any (mask_image_data mask)
              && meqb (image_orientation (mask_grid mask)) identity3
              && negb (meqb (image_orientation (grid temporary_image)) identity3)
          | _, _ => false
          end)
    all_signs = true.
Proof. vm_compute. reflexivity. Qed.

(** Nor does the run of C6: for each choice of signs the synthetic grid of
    the contours on slices 0 and 5 has spacing (5, 1, 1) and dimension
    (1, 4, 6). *)
Lemma synthetic_grid_for_every_sign :
  forallb
    (fun s =>
       match @_create_image_from_contour (signed_collaborators s)
               (other_series [roi_slices_0_5]) roi_slices_0_5 reference_image true false
       with
       | Ok new_image =>
           veqb (image_spacing (grid new_image)) (5, 1, 1)
           && (let '(dz, dy, dx) := image_dimension (grid new_image) in
               (dz =? 1)%Z && (dy =? 4)%Z && (dx =? 6)%Z)
       | Raise _ => false
       end)
    all_signs = true.
Proof. vm_compute. reflexivity. Qed.

(** A single-slice ROI does reach full synthetic mode when its slice position
    is not an integer: there is then no gap between distinct slice-axis
    values, [np.min] raises [ValueError] and so does [to_object]. *)
Lemma single_slice_in_full_synthetic_mode_raises :
  _convert_contour_using_image (other_series [roi_between_slices]) roi_between_slices
    (Some reference_image) = Ok (false, true, false)
  /\ _create_image_from_contour (other_series [roi_between_slices]) roi_between_slices
       reference_image true false = Raise ValueError
  /\ to_object (other_series [roi_between_slices]) (Some reference_image) "keep_as_is"
     = Raise ValueError.
Proof. repeat split; vm_compute; reflexivity. Qed.

(** * Further runs *)

Lemma convert_reference_iff_orientation_and_position_witness :
  false = false && true.
Proof.
  apply (convert_reference_iff_orientation_and_position (other_series [roi_tilted])
           roi_tilted (Some reference_image) false false true).
  vm_compute. reflexivity.
Defined.

Lemma convert_multi_slice_decision_witness :
  _convert_contour_using_image (other_series [roi_adjacent]) roi_adjacent
    (Some reference_image) = Ok (true, true, true).
Proof.
  assert (_collect_contours roi_adjacent
          = Ok (Some [{| contour := [[(2, 2, 2); (2, 2, 6); (2, 4, 6); (2, 4, 2)]] |};
                      {| contour := [[(3, 2, 2); (3, 2, 6); (3, 4, 6); (3, 4, 2)]] |}]))
    as H1 by (vm_compute; reflexivity).
  rewrite (convert_multi_slice_decision (other_series [roi_adjacent]) roi_adjacent
             reference_image _ [2; 3] 1 false H1);
    vm_compute; reflexivity.
Defined.

Lemma convert_reports_failed_checks_witness :
  _convert_contour_using_image (other_series [roi_tilted]) roi_tilted
    (Some reference_image) = Ok (false, false, true).
Proof.
  assert (_collect_contours roi_tilted
          = Ok (Some [{| contour := [[(0, 2, 2); (3, 2, 6); (3, 4, 6); (0, 4, 2)]] |}]))
    as H1 by (vm_compute; reflexivity).
  rewrite (convert_reports_failed_checks (other_series [roi_tilted]) roi_tilted
             reference_image _ false H1).
  - vm_compute. reflexivity.
  - reflexivity.
  - repeat constructor; discriminate.
  - vm_compute. reflexivity.
Defined.

Lemma collect_contours_usable_items_witness :
  exists c,
    _collect_contours
      (roi_of [{| contour_geometric_type := Some "POINT"%string;
                  contour_data := Some [7; 8; 9];
                  contour_offset_vector := None;
                  contour_image_sequence := None |};
               {| contour_geometric_type := Some "CLOSED_PLANAR"%string;
                  contour_data := Some [1; 2; 3;  5; 2; 3;  5; 4; 3];
                  contour_offset_vector := Some (1, 1, 1);
                  contour_image_sequence := None |}])
    = Ok (Some [c])
    /\ contour c = [[(3 - 1, 2 - 1, 1 - 1); (3 - 1, 2 - 1, 5 - 1); (3 - 1, 4 - 1, 5 - 1)]].
Proof.
  eexists. split; [vm_compute; reflexivity|].
  match goal with
  | |- contour ?c = _ =>
      destruct (collect_contours_usable_items
                  (roi_of [{| contour_geometric_type := Some "POINT"%string;
                              contour_data := Some [7; 8; 9];
                              contour_offset_vector := None;
                              contour_image_sequence := None |};
                           {| contour_geometric_type := Some "CLOSED_PLANAR"%string;
                              contour_data := Some [1; 2; 3;  5; 2; 3;  5; 4; 3];
                              contour_offset_vector := Some (1, 1, 1);
                              contour_image_sequence := None |}])
                  (Some [c]) ltac:(vm_compute; reflexivity))
        as (items & Hitems & _ & Hall)
  end.
  injection Hitems as <-.
  inversion Hall as [|item c' ? ? (points & Hdata & Hcontour) _]; subst.
  cbn [contour_data contour_offset_vector] in Hdata, Hcontour.
  destruct points as [|[[x1 y1] z1] [|[[x2 y2] z2] [|[[x3 y3] z3] [|p4 points]]]];
    try discriminate Hdata.
  cbn [flat_map app c0 c1 c2 fst snd] in Hdata.
  injection Hdata as <- <- <- <- <- <- <- <- <-.
  reflexivity.
Defined.

Lemma collect_contours_malformed_data_witness :
  _collect_contours
    (roi_of [rectangle 0 None;
             {| contour_geometric_type := Some "CLOSED_PLANAR"%string;
                contour_data := Some [1; 2; 3; 4];
                contour_offset_vector := None;
                contour_image_sequence := None |}])
  = Raise ValueError.
Proof.
  eapply collect_contours_malformed_data.
  - reflexivity.
  - right. left. reflexivity.
  - reflexivity.
  - reflexivity.
  - simpl. discriminate.
Defined.

Lemma merge_contours_one_per_slice_witness :
  exists merged,
    _merge_contours (map (to_voxel_coordinates reference_image) contours_0_5) = Ok merged
    /\ length merged = 2%nat.
Proof.
  destruct (merge_contours_one_per_slice
              (map (to_voxel_coordinates reference_image) contours_0_5))
    as (merged & Hmerged & _ & _ & Hall); [discriminate|].
  exists merged. split; [exact Hmerged|].
  apply Forall2_length in Hall. rewrite <- Hall. vm_compute. reflexivity.
Defined.

Lemma match_slice_position_well_separated_witness :
  _match_slice_position 3 (get_slice_position reference_image) 1 = Ok (Some 3%Z).
Proof.
  assert (well_separated (get_slice_position reference_image)) as Hsep.
  { unfold well_separated. vm_compute.
    repeat (constructor; [repeat (constructor; [reflexivity|]); constructor|]).
    constructor. }
  destruct (match_slice_position_well_separated 3 1 (get_slice_position reference_image)
              Hsep) as [_ H].
  apply (H 3%nat 3); reflexivity.
Defined.

Lemma convert_returns_volume_of_image_dimension_witness :
  shape corner_volume = repeat (repeat 4%nat 4%nat) 2%nat.
Proof.
  assert (convert_contour_to_mask (other_series [roi_corner_touch]) roi_corner_touch
            (Some small_image) "ray_cast" "keep_as_is" = Ok (Some corner_volume)) as H
    by (vm_compute; reflexivity).
  apply (convert_returns_volume_of_image_dimension _ _ _ _ _ _ H).
Defined.

Lemma convert_assembles_union_of_slices_witness :
  voxel_at corner_volume (1, 2, 2)%nat = true <->
  exists k mask,
    nth_error [0%Z; 1%Z] k = Some 1%Z
    /\ nth_error [nth 0 corner_volume []; nth 1 corner_volume []] k = Some mask
    /\ nth 2 (nth 2 mask []) false = true.
Proof.
  assert (convert_contour_to_mask (other_series [roi_corner_touch]) roi_corner_touch
            (Some small_image) "ray_cast" "keep_as_is" = Ok (Some corner_volume)) as H
    by (vm_compute; reflexivity).
  destruct (convert_assembles_union_of_slices _ _ _ _ _ H)
    as (contour_objects & merged & slice_list & mask_list & ids & masks
        & Hcollect & Hmerged & Hdraw & Hmatched & _ & Hvoxel).
  vm_compute in Hcollect. injection Hcollect as <-.
  vm_compute in Hmerged. injection Hmerged as <-.
  vm_compute in Hdraw. injection Hdraw as <- <-.
  vm_compute in Hmatched. injection Hmatched as <- <-.
  exact (Hvoxel 1%nat 2%nat 2%nat).
Defined.

Lemma convert_unknown_draw_method_witness :
  convert_contour_to_mask (other_series [roi_corner_touch]) roi_corner_touch
    (Some small_image) "scan_line" "keep_as_is" = Raise NotImplementedError.
Proof.
  destruct (convert_unknown_draw_method (other_series [roi_corner_touch])
              roi_corner_touch small_image "scan_line" "keep_as_is" eq_refl) as [_ H].
  eapply H; vm_compute; reflexivity.
Defined.

Lemma create_image_single_slice_raises_witness :
  _create_image_from_contour (other_series [roi_between_slices]) roi_between_slices
    reference_image true false = Raise ValueError.
Proof.
  eapply (create_image_single_slice_raises (other_series [roi_between_slices])
            roi_between_slices reference_image true
            [{| contour := [[(5 # 2, 2, 2); (5 # 2, 2, 6); (5 # 2, 4, 6); (5 # 2, 4, 2)]] |}]
            identity3
            [(5 # 2, 4 # 2, 4 # 2); (5 # 2, 4 # 2, 12 # 2);
             (5 # 2, 8 # 2, 12 # 2); (5 # 2, 8 # 2, 4 # 2)]);
    vm_compute; reflexivity.
Defined.

Lemma create_image_grid_contains_points_witness :
  exists new_image,
    _create_image_from_contour (other_series [roi_slices_0_5]) roi_slices_0_5
      reference_image true false = Ok new_image.
Proof.
  assert (_collect_contours roi_slices_0_5 = Ok (Some contours_0_5)) as H1
    by (vm_compute; reflexivity).
  assert (synthesized_orientation contours_0_5 = Ok identity3) as H2
    by (vm_compute; reflexivity).
  assert (normalised_points reference_image identity3 contours_0_5 = Ok points_0_5) as H3
    by (vm_compute; reflexivity).
  destruct (create_image_grid_contains_points (other_series [roi_slices_0_5])
              roi_slices_0_5 reference_image true contours_0_5 identity3 points_0_5
              H1 H2 H3) as (new_image & Hnew & _).
  - vm_compute. reflexivity.
  - reflexivity.
  - reflexivity.
  - exists new_image. exact Hnew.
Defined.

Lemma create_image_dimension_counts_gaps_witness :
  exists new_image,
    _create_image_from_contour (other_series [roi_slices_0_5]) roi_slices_0_5
      reference_image true false = Ok new_image
    /\ fst (fst (image_dimension (grid new_image))) = 1%Z.
Proof.
  assert (_collect_contours roi_slices_0_5 = Ok (Some contours_0_5)) as H1
    by (vm_compute; reflexivity).
  assert (synthesized_orientation contours_0_5 = Ok identity3) as H2
    by (vm_compute; reflexivity).
  assert (normalised_points reference_image identity3 contours_0_5 = Ok points_0_5) as H3
    by (vm_compute; reflexivity).
  assert (np.min (np.diff (np.unique (map c0 points_0_5))) = Ok 5) as H4
    by (vm_compute; reflexivity).
  assert (np.min (np.unique (map c0 points_0_5)) = Ok 0) as H5
    by (vm_compute; reflexivity).
  assert (np.max (np.unique (map c0 points_0_5)) = Ok 5) as H6
    by (vm_compute; reflexivity).
  assert (5 - 0 == inject_Z 1 * 5) as H7 by reflexivity.
  assert (~ c1 (image_spacing (grid reference_image)) == 0) as H8 by discriminate.
  assert (~ c2 (image_spacing (grid reference_image)) == 0) as H9 by discriminate.
  destruct (create_image_dimension_counts_gaps (other_series [roi_slices_0_5])
              roi_slices_0_5 reference_image true contours_0_5 identity3 points_0_5
              5 0 5 1 H1 H2 H3 H4 H5 H6 H7 H8 H9) as (new_image & Hnew & Hdim & _).
  exists new_image. split; assumption.
Defined.

Lemma create_image_mixed_mode_witness :
  exists new_image,
    _create_image_from_contour (other_series [roi_tilted]) roi_tilted
      reference_image false true = Ok new_image
    /\ image_dimension (grid new_image) = (10, 10, 10)%Z.
Proof.
  destruct (create_image_mixed_mode (other_series [roi_tilted]) roi_tilted
              reference_image false
              [{| contour := [[(0, 2, 2); (3, 2, 6); (3, 4, 6); (0, 4, 2)]] |}])
    as (R & _ & H); [vm_compute; reflexivity|].
  eexists. split; [exact H | reflexivity].
Defined.

Lemma to_object_masks_named_after_selected_rois_witness :
  exists masks,
    to_object (two_rois (RoiDict [("CTV", "target")]%string) (Some two_voxels))
      (Some small_image) "keep_as_is" = Ok (Some masks)
    /\ Forall (fun mask => exists new_name, mask_roi_name mask = Some new_name) masks.
Proof.
  assert (exists masks,
            to_object (two_rois (RoiDict [("CTV", "target")]%string) (Some two_voxels))
              (Some small_image) "keep_as_is" = Ok (Some masks)) as [masks H]
    by (vm_compute; eexists; reflexivity).
  exists masks. split; [exact H|].
  destruct (to_object_masks_named_after_selected_rois _ _ _ _ H)
    as (rois & items & _ & _ & Hmasks).
  apply (Forall_impl _ (P := _) (fun mask Hmask =>
    match Hmask with
    | ex_intro _ _ (ex_intro _ _ (ex_intro _ _ (ex_intro _ new_name
        (conj _ (conj _ (conj _ (conj _ (conj _ (conj _ Hname)))))))))
      => ex_intro _ new_name Hname
    end) Hmasks).
Defined.

Lemma to_object_masks_nonempty_witness :
  exists masks,
    to_object (two_rois RoiNone (Some two_voxels)) (Some small_image) "keep_as_is"
    = Ok (Some masks)
    /\ masks <> [].
Proof.
  assert (exists masks,
            to_object (two_rois RoiNone (Some two_voxels)) (Some small_image) "keep_as_is"
            = Ok (Some masks)) as [masks H]
    by (vm_compute; eexists; reflexivity).
  exists masks. split; [exact H|].
  exact (proj1 (to_object_masks_nonempty _ _ _ _ H)).
Defined.

Lemma to_object_nameless_roi_blocks_all_witness :
  to_object (unnamed_roi (RoiStr "GTV")) (Some small_image) "keep_as_is" = Ok None.
Proof.
  apply (to_object_nameless_roi_blocks_all (unnamed_roi (RoiStr "GTV")) small_image
           "keep_as_is"
           [{| roi_number := Some 1%Z; roi_name_tag := Some "GTV"%string |};
            {| roi_number := Some 2%Z; roi_name_tag := None |}]
           {| roi_number := Some 2%Z; roi_name_tag := None |}).
  - reflexivity.
  - right. left. reflexivity.
  - reflexivity.
Defined.

Lemma to_object_missing_contour_sequence_witness :
  to_object (two_rois (RoiStr "GTV") None) (Some small_image) "keep_as_is"
  = Raise KeyError.
Proof.
  apply (to_object_missing_contour_sequence (two_rois (RoiStr "GTV") None) small_image
           "keep_as_is"
           [{| roi_number := Some 1%Z; roi_name_tag := Some "GTV"%string |};
            {| roi_number := Some 2%Z; roi_name_tag := Some "CTV"%string |}]
           {| roi_number := Some 1%Z; roi_name_tag := Some "GTV"%string |} "GTV").
  - reflexivity.
  - repeat constructor; discriminate.
  - left. reflexivity.
  - reflexivity.
  - reflexivity.
  - reflexivity.
Defined.

Lemma to_object_selection_without_match_witness :
  to_object (two_rois (RoiList ["PTV"; "lung"]%string) None) (Some small_image)
    "keep_as_is" = Ok None.
Proof.
  apply (to_object_selection_without_match
           (two_rois (RoiList ["PTV"; "lung"]%string) None) small_image "keep_as_is"
           [{| roi_number := Some 1%Z; roi_name_tag := Some "GTV"%string |};
            {| roi_number := Some 2%Z; roi_name_tag := Some "CTV"%string |}]).
  - reflexivity.
  - repeat constructor.
Defined.

Lemma export_roi_labels_rectangular_witness :
  exists table,
    export_roi_labels (two_rois RoiNone None) (Some "data"%string)
      (Some "rtstruct.dcm"%string) = Ok table
    /\ labels_roi_label table = [Some "GTV"; Some "CTV"]%string
    /\ length (labels_file_path table) = 2%nat.
Proof.
  destruct (export_roi_labels_rectangular (two_rois RoiNone None) (Some "data"%string)
              (Some "rtstruct.dcm"%string)
              [{| roi_number := Some 1%Z; roi_name_tag := Some "GTV"%string |};
               {| roi_number := Some 2%Z; roi_name_tag := Some "CTV"%string |}]
              eq_refl) as (table & Htable & _ & _ & Hfile & _ & Hlabels).
  exists table. repeat split; assumption.
Defined.

Lemma supported_modalities_against_default_list_witness :
  exists name all_names,
    supported_mask_modalities (fun s => s) (Some "rtstruct"%string) = Ok [name]
    /\ supported_mask_modalities (fun s => s) None = Ok all_names
    /\ ~ In name all_names.
Proof.
  destruct (proj2 (supported_modalities_against_default_list (fun s => s) "rtstruct")
              ["rtstruct"%string] eq_refl)
    as (name & all_names & Hname & Hall & Hin).
  exists name, all_names. injection Hname as <-.
  split; [reflexivity|]. split; [exact Hall|].
  intros H. now apply Hin in H.
Defined.

Lemma extend_intensity_range_ignores_fraction_witness :
  extend_intensity_range (Some [Some 0; Some 100]) (Some (1 # 2))
  = extend_intensity_range (Some [Some 0; Some 100]) (Some (1 # 20)).
Proof.
  destruct (extend_intensity_range_ignores_fraction 0 100 (1 # 2) (1 # 20)
              eq_refl eq_refl) as (lower' & upper' & H1 & H2 & _).
  now rewrite H1, H2.
Defined.


Lemma flatten_list_concatenation_witness :
  flatten_list 6 ([Nested [Item 1%nat]; Item 2%nat] ++ [Nested [Nested [Item 3%nat]]])
  = Ok ([Item 1%nat; Item 2%nat] ++ [Item 3%nat]).
Proof.
  apply (proj2 (flatten_list_concatenation 4 4 [Nested [Item 1%nat]; Item 2%nat]
                  [Nested [Nested [Item 3%nat]]] [Item 1%nat; Item 2%nat] [Item 3%nat]
                  eq_refl eq_refl (le_n 4))).
Defined.
